(** * tornet_scraper: scan orchestration, batching and enrichment

    A shallow embedding of the scan engine of the scraper:

    - [app/scrapers/marketplace_scraper.py]: [create_pagination_batches],
      [scrape_posts];
    - [app/services/tornet_forum_login.py]: [clean_captcha_text],
      [solve_captcha], one turn of the loop of [login_to_tor_website];
    - [app/routes/marketplace.py]: [start_post_scan] and its background
      task [scrape_batches] / [sync_scrape_batch];
    - [app/routes/posts.py]: [start_post_scan] and its background task
      [scrape_post_batches] / [sync_scrape_post];
    - [app/database/models.py]: the tables and their unique constraints.

    Conventions.  A Python [str] is a Rocq [string]; a character stands for
    a code point below 256.  A Python [int] is a [Z] (pages) or a [nat]
    (list indices and counters).  A Python [dict] is an association list in
    insertion order whose keys are kept distinct by [dict_set].  An
    exception is the [None] (or the error constructor) of the result.
    Calls that leave the process (HTTP, the language detector, the
    translation, classification and vision services, [json.loads] and
    [eval] on text) are parameters or recorded observations: the model
    says what the code does with each possible answer.  Batches run on a
    thread pool in the source; the model runs them one after the other in
    batch order, each as one storage transaction. *)

From Stdlib Require Import ZArith Ascii String List Bool Lia ZifyNat.
From stdpp Require Import base tactics option list strings pretty.

Local Open Scope string_scope.
Local Open Scope list_scope.
Local Open Scope nat_scope.

Set Warnings "-clear-no-such-hyp".

(** * Part I: the program *)

(** ** Python dictionaries and strings *)

Module PyDict.

(** [dict V]: the items of a [dict] with [str] keys, in insertion order. *)
Definition dict (V : Type) : Type := list (string * V).

Definition keys {V} (d : dict V) : list string := d.*1.

(** [d.get(k)] *)
Fixpoint dict_get {V} (k : string) (d : dict V) : option V :=
  match d with
  | [] => None
  | (k', v) :: d' => if decide (k = k') then Some v else dict_get k d'
  end.

(** [d[k] = v]: an existing key keeps its place and takes the new value,
    a new key goes to the end. *)
Fixpoint dict_set {V} (k : string) (v : V) (d : dict V) : dict V :=
  match d with
  | [] => [(k, v)]
  | (k', v') :: d' =>
      if decide (k = k') then (k, v) :: d' else (k', v') :: dict_set k v d'
  end.

End PyDict.
Export PyDict.

Module PyStr.

(** [c.isspace()] on code points below 256: tab to carriage return, the
    four separators 28-31, space, NEL and no-break space. *)
Definition py_isspace (c : ascii) : bool :=
  let n := nat_of_ascii c in
  ((9 <=? n) && (n <=? 13)) || ((28 <=? n) && (n <=? 32))
  || (n =? 133) || (n =? 160).

Fixpoint lstrip_with (p : ascii → bool) (s : string) : string :=
  match s with
  | "" => ""
  | String c t => if p c then lstrip_with p t else s
  end.

Fixpoint rstrip_with (p : ascii → bool) (s : string) : string :=
  match s with
  | "" => ""
  | String c t =>
      match rstrip_with p t with
      | "" => if p c then "" else String c ""
      | t' => String c t'
      end
  end.

(** [s.strip()] *)
Definition strip (s : string) : string :=
  rstrip_with py_isspace (lstrip_with py_isspace s).

(** [s.rstrip(c)] and [s.lstrip(c)] for a one-character argument. *)
Definition rstrip_char (c : ascii) (s : string) : string :=
  rstrip_with (λ x, bool_decide (x = c)) s.
Definition lstrip_char (c : ascii) (s : string) : string :=
  lstrip_with (λ x, bool_decide (x = c)) s.

(** [s.lower()] on code points below 256. *)
Definition lower_char (c : ascii) : ascii :=
  let n := nat_of_ascii c in
  if ((65 <=? n) && (n <=? 90))
     || ((192 <=? n) && (n <=? 222) && negb (n =? 215))
  then ascii_of_nat (n + 32) else c.

Fixpoint lower (s : string) : string :=
  match s with
  | "" => ""
  | String c t => String (lower_char c) (lower t)
  end.

(** [needle in s] *)
Fixpoint contains (needle s : string) : bool :=
  String.prefix needle s ||
  match s with
  | "" => false
  | String _ t => contains needle t
  end.

(** [s.replace(old, new)] for a non-empty [old]: occurrences are replaced
    from the left and do not overlap. *)
Fixpoint replace_from (fuel : nat) (old new s : string) : string :=
  match fuel with
  | O => s
  | S fuel' =>
      match s with
      | "" => ""
      | String c t =>
          if String.prefix old s
          then new +:+ replace_from fuel' old new
                         (String.substring (String.length old)
                            (String.length s - String.length old) s)
          else String c (replace_from fuel' old new t)
      end
  end.

Definition replace (old new s : string) : string :=
  replace_from (String.length s) old new s.

End PyStr.
Export PyStr.

(** ** Pagination batches ([app/scrapers/marketplace_scraper.py]) *)

Module Pagination.

(** [range(i, stop, step)] for a positive step, by counting up; [fuel]
    bounds the number of elements. *)
Fixpoint range_from (fuel i stop step : nat) : list nat :=
  match fuel with
  | O => []
  | S fuel' =>
      if i <? stop then i :: range_from fuel' (i + step) stop step else []
  end.

(** [range(0, stop, step)]: at most [stop] elements when [step >= 1]. *)
Definition py_range (stop step : nat) : list nat :=
  range_from stop 0 stop step.

(** [range(max_page, 0, -1)]: [max_page, max_page - 1, ..., 1]. *)
Fixpoint range_down_from (fuel : nat) (page : Z) : list Z :=
  match fuel with
  | O => []
  | S fuel' =>
      if (0 <? page)%Z then page :: range_down_from fuel' (page - 1)%Z else []
  end.

Definition py_range_down (max_page : Z) : list Z :=
  range_down_from (Z.to_nat max_page) max_page.

(** The pages from [max_page] down to 1. *)
Definition pages_down (max_page : Z) : list Z :=
  (λ i : nat, (max_page - Z.of_nat i)%Z) <$> seq 0 (Z.to_nat max_page).

(** [l[i:j]] for [0 <= i <= j]. *)
Definition slice {A} (i j : nat) (l : list A) : list A :=
  take (j - i) (drop i l).

Definition batch_size : nat := 10.

Section WithFormat.

(** [url_template.format(page=page)], Python's built-in formatter; [None]
    when it raises (a replacement field other than [page], a brace left
    open). *)
Variable format : string → Z → option string.

(** The function returns [json.dumps] of the dictionary and its callers
    read it back with [json.loads], which gives the same keys and lists
    in the same order: the model returns the dictionary. *)
Definition create_pagination_batches (url_template : string) (max_page : Z)
  : option (dict (list string)) :=
  if (max_page <? 1)%Z then Some []
  else
    all_urls ← mapM (format url_template) (py_range_down max_page);
    Some (foldl
            (λ batches i,
               dict_set (pretty (i `div` batch_size + 1))
                        (slice i (i + batch_size) all_urls) batches)
            [] (py_range (length all_urls) batch_size)).

End WithFormat.

(** [str.format] on a template in which every brace belongs to a field
    [{page}]: each field becomes the decimal page number.  Templates
    with any other brace (an escape, another field, a format
    specification) are left out of this instance: it answers [None]. *)
Fixpoint format_page_from (fuel : nat) (url_template : string) (page : Z)
  : option string :=
  match fuel with
  | O => Some url_template
  | S fuel' =>
      match url_template with
      | "" => Some ""
      | String c t =>
          if String.prefix "{page}" url_template
          then (λ r, pretty page +:+ r) <$>
                 format_page_from fuel'
                   (String.substring 6 (String.length url_template - 6)
                      url_template) page
          else if bool_decide (c = "{"%char ∨ c = "}"%char) then None
          else String c <$> format_page_from fuel' t page
      end
  end.

Definition format_page (url_template : string) (page : Z) : option string :=
  format_page_from (String.length url_template) url_template page.

End Pagination.

(** ** The challenge code ([app/services/tornet_forum_login.py]) *)

Module Captcha.

(** The character class [[A-Z0-9]]. *)
Definition is_code_char (c : ascii) : bool :=
  let n := nat_of_ascii c in
  ((65 <=? n) && (n <=? 90)) || ((48 <=? n) && (n <=? 57)).

(** [[A-Z0-9]{n}] anchored at the start of [s]. *)
Fixpoint match_here (n : nat) (s : string) : option string :=
  match n with
  | O => Some ""
  | S n' =>
      match s with
      | "" => None
      | String c t =>
          if is_code_char c then String c <$> match_here n' t else None
      end
  end.

(** [re.search(r'[A-Z0-9]{6}', s)]: the match at the leftmost position
    that has one. *)
Fixpoint re_search (s : string) : option string :=
  match match_here 6 s with
  | Some m => Some m
  | None =>
      match s with
      | "" => None
      | String _ t => re_search t
      end
  end.

(** The [except] branch is for an argument that is not a [str]. *)
Definition clean_captcha_text (captcha_text : string) : option string :=
  re_search captcha_text.

(** What the calls made by [solve_captcha] gave: whether [resize_image]
    succeeded, the result of [image_to_base64], and the text of the vision
    service's answer ([None] when the call raised). *)
Record solver_io := {
  resize_ok : bool;
  base64_image : option string;
  service_answer : option string
}.

(** Lines 111-115: the answer is stripped and cleaned. *)
Definition extract_code (content : string) : option string :=
  clean_captcha_text (strip content).

Definition solve_captcha (io : solver_io) : option string :=
  if negb (resize_ok io) then None
  else
    match base64_image io with
    | None | Some "" => None
    | Some _ =>
        match service_answer io with
        | None => None
        | Some content => extract_code content
        end
    end.

(** [has_code_at s pre code]: the six characters [code], all in
    [[A-Z0-9]], stand in [s] right after [pre]. *)
Fixpoint code_chars (s : string) : bool :=
  match s with
  | "" => true
  | String c t => is_code_char c && code_chars t
  end.

Definition has_code_at (s pre code : string) : Prop :=
  String.length code = 6 ∧ code_chars code = true
  ∧ ∃ post, s = pre +:+ code +:+ post.

(** The maximal runs of characters of [[A-Z0-9]] in a text, from the
    left. *)
Fixpoint runs_from (run s : string) : list string :=
  match s with
  | "" => if decide (run = "") then [] else [run]
  | String c t =>
      if is_code_char c then runs_from (run +:+ String c "") t
      else (if decide (run = "") then [] else [run]) ++ runs_from "" t
  end.

Definition code_runs (s : string) : list string := runs_from "" s.

(** The runs of exactly six such characters. *)
Definition six_runs (s : string) : list string :=
  filter (λ r, String.length r = 6) (code_runs s).

(** What one turn of the [while True] loop of [login_to_tor_website]
    receives.  [login_page]: [None] when fetching the form raised (a
    transport error or an HTTP error status); otherwise whether the form
    shows an image with [alt='CAPTCHA'].  [captcha_saved]: the image was
    downloaded and written.  [login_reply]: the text of the answer to the
    submitted form, [None] when the request raised. *)
Record attempt_io := {
  login_page : option bool;
  captcha_saved : bool;
  solver : solver_io;
  login_reply : option string
}.

Definition max_attempts : nat := 9.

(** How a turn ends: [Retry n cooldown] goes round the loop again with
    the counter at [n], after [time.sleep(300)] when [cooldown];
    [ReturnNone] and [ReturnSession] leave the function. *)
Inductive turn_result :=
  | Retry (attempt_count : nat) (cooldown : bool)
  | ReturnNone
  | ReturnSession.

(** [attempt_count += 1; if attempt_count >= max_attempts: sleep, reset;
    continue]: the same five lines close every retryable branch. *)
Definition count_failure (attempt_count : nat) : turn_result :=
  let n := attempt_count + 1 in
  if max_attempts <=? n then Retry 0 true else Retry n false.

Definition login_turn (attempt_count : nat) (io : attempt_io) : turn_result :=
  match login_page io with
  | None => count_failure attempt_count
  | Some false => count_failure attempt_count
  | Some true =>
      if negb (captcha_saved io) then count_failure attempt_count
      else
        match solve_captcha (solver io) with
        | None => count_failure attempt_count
        | Some captcha_text =>
            match login_reply io with
            | None => count_failure attempt_count
            | Some text =>
                let response_text := lower text in
                if contains "invalid username or password" response_text
                then ReturnNone
                else if contains "invalid captcha" response_text
                then count_failure attempt_count
                else if contains "profile" response_text
                        && contains "logout" response_text
                then ReturnSession
                else count_failure attempt_count
            end
        end
  end.

(** The loop over the turns the environment answers; [None] while the
    function has not returned. *)
Fixpoint login_to_tor_website (attempt_count : nat) (turns : list attempt_io)
  : option turn_result :=
  match turns with
  | [] => None
  | io :: rest =>
      match login_turn attempt_count io with
      | Retry n _ => login_to_tor_website n rest
      | r => Some r
      end
  end.

End Captcha.

(** ** Tables ([app/database/models.py]) *)

Module Storage.

Inductive BotPurpose := SCRAPE_MARKETPLACE | SCRAPE_POST | SCRAPE_PROFILE.
Inductive ScanStatus := RUNNING | COMPLETED | STOPPED.

#[global] Instance BotPurpose_eq_dec : EqDecision BotPurpose.
Proof. solve_decision. Defined.
#[global] Instance ScanStatus_eq_dec : EqDecision ScanStatus.
Proof. solve_decision. Defined.

(** [datetime.utcnow()] read as a number. *)
Definition datetime := Z.

(** A [Float] column holds an IEEE double; the scores are stored as the
    service returns them and never computed on, so the bit pattern will
    do. *)
Definition float := Z.

Record BotProfile := {
  bot_id : nat;
  bot_username : string;
  bot_purpose : BotPurpose;
  bot_tor_proxy : option string;
  bot_user_agent : option string;
  bot_session : option string
}.

Record APIs := {
  api_type : string;
  api_key : string;
  api_model : string;
  api_prompt : string;
  api_max_tokens : Z;
  api_is_active : bool
}.

(** [batches]: the nullable text column, read through
    [json.loads(scan.batches) if scan.batches else {}]; [None] is NULL
    or the empty text. *)
Record MarketplacePaginationScan := {
  pgs_id : nat;
  pgs_scan_name : string;
  pgs_pagination_url : string;
  pgs_max_page : Z;
  pgs_batches : option (dict (list string))
}.

Record MarketplacePostScan := {
  mps_id : nat;
  mps_scan_name : string;
  mps_pagination_scan_name : string;
  mps_start_date : option datetime;
  mps_completion_date : option datetime;
  mps_status : ScanStatus
}.

(** The rows of [marketplace_posts], without the surrogate [id]. *)
Record MarketplacePost := {
  mp_scan_id : nat;
  mp_timestamp : string;
  mp_title : string;
  mp_author : string;
  mp_link : string
}.

Record PostDetailScan := {
  pds_id : nat;
  pds_scan_name : string;
  pds_source_scan_name : string;
  pds_start_date : option datetime;
  pds_completion_date : option datetime;
  pds_status : ScanStatus;
  pds_batch_size : Z;
  pds_site_url : string
}.

(** The rows of [marketplace_post_details], without [id] and
    [timestamp_added]. *)
Record MarketplacePostDetails := {
  mpd_scan_id : nat;
  mpd_batch_name : string;
  mpd_title : string;
  mpd_content : string;
  mpd_timestamp : string;
  mpd_author : string;
  mpd_link : string;
  mpd_original_language : option string;
  mpd_original_text : option string;
  mpd_translated_language : option string;
  mpd_translated_text : option string;
  mpd_is_translated : bool;
  mpd_sentiment : option string;
  mpd_positive_score : option float;
  mpd_negative_score : option float;
  mpd_neutral_score : option float
}.

(** The mapped attributes of [MarketplacePostDetails] (models.py, lines
    119-140). *)
Definition MarketplacePostDetails_columns : list string :=
  ["id"; "scan_id"; "batch_name"; "title"; "content"; "timestamp"; "author";
   "link"; "original_language"; "original_text"; "translated_language";
   "translated_text"; "is_translated"; "sentiment"; "positive_score";
   "negative_score"; "neutral_score"; "timestamp_added"].

(** The mapped attributes of [MarketplacePost] (models.py, lines 93-102). *)
Definition MarketplacePost_columns : list string :=
  ["id"; "scan_id"; "timestamp"; "title"; "author"; "link"].

(** The constructor that [declarative_base()] gives every model: a
    keyword that is not an attribute of the class raises [TypeError];
    [true] when the call goes through. *)
Definition declarative_constructor (columns kwargs : list string) : bool :=
  forallb (λ k, bool_decide (k ∈ columns)) kwargs.

Record Db := {
  bot_profiles : list BotProfile;
  apis : list APIs;
  marketplace_pagination_scans : list MarketplacePaginationScan;
  marketplace_post_scans : list MarketplacePostScan;
  marketplace_posts : list MarketplacePost;
  post_detail_scans : list PostDetailScan;
  marketplace_post_details : list MarketplacePostDetails
}.

(** [UniqueConstraint('scan_id', 'timestamp', name='uix_scan_timestamp')]:
    no two rows of [marketplace_posts] agree on both columns. *)
Definition post_key (r : MarketplacePost) : nat * string :=
  (mp_scan_id r, mp_timestamp r).

Definition uix_scan_timestamp (rows : list MarketplacePost) : Prop :=
  NoDup (post_key <$> rows).

(** [UniqueConstraint('scan_id', 'timestamp', 'batch_name',
    name='uix_scan_timestamp_batch')] *)
Definition details_key (r : MarketplacePostDetails) : nat * string * string :=
  (mpd_scan_id r, mpd_timestamp r, mpd_batch_name r).

Definition uix_scan_timestamp_batch (rows : list MarketplacePostDetails)
  : Prop :=
  NoDup (details_key <$> rows).

(** The object that [query(...).filter(...).first()] returned is changed
    and committed: the first row that meets the filter. *)
Fixpoint update_first {A} (p : A → bool) (f : A → A) (l : list A) : list A :=
  match l with
  | [] => []
  | x :: l' => if p x then f x :: l' else x :: update_first p f l'
  end.

(** What a route answers. *)
Inductive Response :=
  | HTTPException (status_code : nat) (detail : string)
  | JSONResponse (status_code : nat) (message : string).

End Storage.
Export Storage.

(** ** The listing scan ([app/scrapers/marketplace_scraper.py],
       [app/routes/marketplace.py]) *)

Module Marketplace.

(** The value stored under a timestamp by [scrape_posts]. *)
Record post := { title : string; author : string; link : string }.

(** [row.select_one('td:nth-child(5) a')['href']]: no such element
    ([None] is subscripted: [TypeError]), an element without the
    attribute ([KeyError]), or the address. *)
Inductive link_cell := NoAnchor | NoHref | Href (href : string).

(** A [tr] as the four selectors see it: the [.text] of the first cell,
    of the link in the second and of the third ([None] when
    [select_one] finds nothing), and the fifth cell's link. *)
Record table_row := {
  td_title : option string;
  td_author : option string;
  td_timestamp : option string;
  td_link : link_cell
}.

(** What [session.get(url)] leads to: [None] when the request raised
    [RequestException] (transport error, error status) or the page has no
    [table.table-dark tbody]; otherwise the rows of that table. *)
Definition page_reply := option (list table_row).

(** A text by what [json.loads] makes of it: the serialisation of a
    dictionary of posts, as [json.dumps] writes it, or a text that
    [json.loads] rejects with [JSONDecodeError]. *)
Inductive raw_text :=
  | JsonText (posts : dict post)
  | OtherText (text : string).

Inductive exception :=
  | TypeError | KeyError | SanitizeError | IntegrityError.

(** The interpreters applied to a raw text, in call order. *)
Inductive parse_call :=
  | json_loads_call (raw : raw_text)
  | eval_call (text : string).

Inductive batch_outcome :=
  | BatchOk
  | BatchRaised (e : exception).

(** One row of the page: [AttributeError] (a cell is missing) is caught
    and the row skipped; a missing link raises past both handlers. *)
Definition scrape_row (posts : dict post) (row : table_row)
  : exception + dict post :=
  match td_title row with
  | None => inr posts
  | Some t =>
      match td_author row with
      | None => inr posts
      | Some a =>
          match td_timestamp row with
          | None => inr posts
          | Some ts =>
              match td_link row with
              | NoAnchor => inl TypeError
              | NoHref => inl KeyError
              | Href l =>
                  inr (dict_set (strip ts)
                         {| title := strip t; author := strip a; link := l |}
                         posts)
              end
          end
      end
  end.

(** The item a row contributes when all four selectors succeed. *)
Definition row_entry (row : table_row) : option (string * post) :=
  match td_title row, td_author row, td_timestamp row, td_link row with
  | Some t, Some a, Some ts, Href l =>
      Some (strip ts, {| title := strip t; author := strip a; link := l |})
  | _, _, _, _ => None
  end.

(** [posts[timestamp] = {...}] *)
Definition set_entry (posts : dict post) (e : string * post) : dict post :=
  dict_set e.1 e.2 posts.

Fixpoint scrape_rows (posts : dict post) (rows : list table_row)
  : exception + dict post :=
  match rows with
  | [] => inr posts
  | row :: rows' =>
      match scrape_row posts row with
      | inl e => inl e
      | inr posts' => scrape_rows posts' rows'
      end
  end.

Section WithSite.

(** The site, as the scraper's requests see it. *)
Variable fetch : string → page_reply.

(** [for url in pagination_range: ... for row in table_rows[:10]: ...] *)
Fixpoint scrape_pages (posts : dict post) (pagination_range : list string)
  : exception + dict post :=
  match pagination_range with
  | [] => inr posts
  | url :: rest =>
      match fetch url with
      | None => scrape_pages posts rest
      | Some table_rows =>
          match scrape_rows posts (take 10 table_rows) with
          | inl e => inl e
          | inr posts' => scrape_pages posts' rest
          end
      end
  end.

(** The rows that the two loops visit, in order: the first ten rows of
    every page that was fetched and has the table. *)
Definition visited_rows (pagination_range : list string) : list table_row :=
  url ← pagination_range; take 10 (default [] (fetch url)).

(** [return json.dumps(posts)] *)
Definition scrape_posts (pagination_range : list string)
  : exception + raw_text :=
  match scrape_pages [] pagination_range with
  | inl e => inl e
  | inr posts => inr (JsonText posts)
  end.

(** [eval(text)] followed by the sanitising loop's reads: the mapping
    from timestamps to posts that the text evaluates to, [None] when
    [eval] raises or its value is not such a mapping. *)
Variable py_eval : string → option (dict post).

(** [unicodedata.normalize('NFKC', s).encode('ascii', 'ignore')
    .decode('ascii')] *)
Variable nfkc_ascii : string → string.

Definition sanitize (raw_dict : dict post) : dict post :=
  foldl (λ sanitized_data '(timestamp, p),
           dict_set timestamp
             {| title := nfkc_ascii (title p);
                author := author p; link := link p |}
             sanitized_data)
        [] raw_dict.

(** Lines 282-303: [json.loads], and on [JSONDecodeError] the fallback
    [eval(posts_data_raw) if posts_data_raw else {}]. *)
Definition parse_posts_data (posts_data_raw : raw_text)
  : list parse_call * option (dict post) :=
  match posts_data_raw with
  | JsonText d => ([json_loads_call posts_data_raw], Some d)
  | OtherText s =>
      if decide (s = "")
      then ([json_loads_call posts_data_raw], Some (sanitize []))
      else ([json_loads_call posts_data_raw; eval_call s],
            sanitize <$> py_eval s)
  end.

(** The filter of the duplicate check (lines 309-314). *)
Definition same_post (scan_id : nat) (timestamp : string) (p : post)
  (r : MarketplacePost) : bool :=
  bool_decide (mp_scan_id r = scan_id ∧ mp_timestamp r = timestamp
               ∧ mp_title r = title p ∧ mp_link r = link p).

Definition MarketplacePost_kwargs : list string :=
  ["scan_id"; "timestamp"; "title"; "author"; "link"].

(** [MarketplacePost(scan_id=..., timestamp=..., title=..., author=...,
    link=...)] *)
Definition post_row (scan_id : nat) (timestamp : string) (p : post)
  : MarketplacePost :=
  {| mp_scan_id := scan_id; mp_timestamp := timestamp;
     mp_title := title p; mp_author := author p; mp_link := link p |}.

Definition new_post (scan_id : nat) (timestamp : string) (p : post)
  : option MarketplacePost :=
  if declarative_constructor MarketplacePost_columns MarketplacePost_kwargs
  then Some (post_row scan_id timestamp p)
  else None.

(** The loop of lines 308-325.  The session is made with
    [autoflush=False]: the query reads the stored rows, not the objects
    added earlier in the loop.  [None]: the constructor raised. *)
Fixpoint pending_posts (rows : list MarketplacePost) (scan_id : nat)
  (posts_data : dict post) : option (list MarketplacePost) :=
  match posts_data with
  | [] => Some []
  | (timestamp, p) :: rest =>
      if existsb (same_post scan_id timestamp p) rows
      then pending_posts rows scan_id rest
      else
        db_post ← new_post scan_id timestamp p;
        pending ← pending_posts rows scan_id rest;
        Some (db_post :: pending)
  end.

(** [batch_db.commit()]: the pending rows are inserted in order; a row
    that repeats the [(scan_id, timestamp)] of a row already there breaks
    [uix_scan_timestamp] and the whole transaction is lost. *)
Fixpoint flush (rows pending : list MarketplacePost)
  : option (list MarketplacePost) :=
  match pending with
  | [] => Some rows
  | r :: pending' =>
      if existsb (λ r', bool_decide (post_key r' = post_key r)) rows
      then None
      else flush (rows ++ [r]) pending'
  end.

Definition set_marketplace_posts (db : Db) (rows : list MarketplacePost) : Db :=
  {| bot_profiles := bot_profiles db; apis := apis db;
     marketplace_pagination_scans := marketplace_pagination_scans db;
     marketplace_post_scans := marketplace_post_scans db;
     marketplace_posts := rows;
     post_detail_scans := post_detail_scans db;
     marketplace_post_details := marketplace_post_details db |}.

Definition set_marketplace_post_scans (db : Db)
  (scans : list MarketplacePostScan) : Db :=
  {| bot_profiles := bot_profiles db; apis := apis db;
     marketplace_pagination_scans := marketplace_pagination_scans db;
     marketplace_post_scans := scans;
     marketplace_posts := marketplace_posts db;
     post_detail_scans := post_detail_scans db;
     marketplace_post_details := marketplace_post_details db |}.

(** Lines 308-331 on the parsed data: the rows after the batch, or the
    exception with the transaction rolled back. *)
Definition save_posts (db : Db) (scan_id : nat) (posts_data : dict post)
  : Db * batch_outcome :=
  match pending_posts (marketplace_posts db) scan_id posts_data with
  | None => (db, BatchRaised TypeError)
  | Some pending =>
      match flush (marketplace_posts db) pending with
      | None => (db, BatchRaised IntegrityError)
      | Some rows => (set_marketplace_posts db rows, BatchOk)
      end
  end.

(** [sync_scrape_batch] from the scraper's answer on: the rows after
    the batch, how the task ended, and the interpreters the raw text went
    through.  Every exception is re-raised after [batch_db.rollback()]. *)
Definition sync_scrape_batch_from (db : Db) (scan_id : nat)
  (scraped : exception + raw_text) : Db * batch_outcome * list parse_call :=
  match scraped with
  | inl e => (db, BatchRaised e, [])
  | inr posts_data_raw =>
      match parse_posts_data posts_data_raw with
      | (calls, None) => (db, BatchRaised SanitizeError, calls)
      | (calls, Some posts_data) =>
          let '(db', outcome) := save_posts db scan_id posts_data in
          (db', outcome, calls)
      end
  end.

Definition sync_scrape_batch (db : Db) (urls : list string) (scan_id : nat)
  : Db * batch_outcome * list parse_call :=
  sync_scrape_batch_from db scan_id (scrape_posts urls).

(** The tasks of lines 334-348, one per batch in the order of
    [batch_queue]; [asyncio.gather] with [return_exceptions=True]
    hands back the list of results, exceptions included. *)
Definition gather (db : Db) (scan_id : nat) (batch_queue : dict (list string))
  : Db * list batch_outcome :=
  foldl (λ '(db, results) '(batch_key, urls),
           let '(db', outcome, _) := sync_scrape_batch db urls scan_id in
           (db', results ++ [outcome]))
        (db, []) batch_queue.

Definition finish_scan (status : ScanStatus) (now : datetime)
  (s : MarketplacePostScan) : MarketplacePostScan :=
  {| mps_id := mps_id s; mps_scan_name := mps_scan_name s;
     mps_pagination_scan_name := mps_pagination_scan_name s;
     mps_start_date := mps_start_date s;
     mps_completion_date := Some now;
     mps_status := status |}.

Definition has_id (scan_id : nat) (s : MarketplacePostScan) : bool :=
  bool_decide (mps_id s = scan_id).

(** The background task [scrape_batches] (lines 266-364).  The value of
    [gather] is dropped (line 348), and the scan is marked completed
    (lines 350-356).  The [except] branch (lines 357-364) is entered when
    a statement of the [try] block itself raises; with the batches'
    exceptions returned as values, that leaves the final lookup finding
    no row, and then the handler's own lookup fails the same way and
    nothing is written. *)
Definition scrape_batches (db : Db) (scan_id : nat)
  (batches : dict (list string)) (now : datetime) : Db * list batch_outcome :=
  let '(db1, results) := gather db scan_id batches in
  match find (has_id scan_id) (marketplace_post_scans db1) with
  | Some _ =>
      (set_marketplace_post_scans db1
         (update_first (has_id scan_id) (finish_scan COMPLETED now)
            (marketplace_post_scans db1)),
       results)
  | None => (db1, results)
  end.

End WithSite.

(** Lines 230-233: the bots the scan may use. *)
Definition active_bots (db : Db) : list BotProfile :=
  filter (λ b, bot_purpose b = SCRAPE_MARKETPLACE ∧ bot_session b ≠ None)
         (bot_profiles db).

Definition run_scan (now : datetime) (s : MarketplacePostScan)
  : MarketplacePostScan :=
  {| mps_id := mps_id s; mps_scan_name := mps_scan_name s;
     mps_pagination_scan_name := mps_pagination_scan_name s;
     mps_start_date := Some now;
     mps_completion_date := None;
     mps_status := RUNNING |}.

(** The route [POST /api/marketplace-scan/posts/{scan_id}/start], up to
    the launch of the background task: the storage after the request and
    the answer. *)
Definition start_post_scan (db : Db) (scan_id : nat) (now : datetime)
  : Db * Response :=
  match find (has_id scan_id) (marketplace_post_scans db) with
  | None => (db, HTTPException 404 "Post scan not found")
  | Some db_scan =>
      if decide (mps_status db_scan = RUNNING)
      then (db, HTTPException 400 "Scan is already running")
      else
        match active_bots db with
        | [] => (db, HTTPException 400 "No active bots available")
        | _ :: _ =>
            match find (λ p, bool_decide (pgs_scan_name p
                                          = mps_pagination_scan_name db_scan))
                       (marketplace_pagination_scans db) with
            | None => (db, HTTPException 404 "Pagination scan not found")
            | Some pagination_scan =>
                match default [] (pgs_batches pagination_scan) with
                | [] => (db, HTTPException 400 "No batches available")
                | _ :: _ =>
                    (set_marketplace_post_scans db
                       (update_first (has_id scan_id) (run_scan now)
                          (marketplace_post_scans db)),
                     JSONResponse 200 "Post scan started")
                end
            end
        end
  end.

(** The status a scan has in the storage. *)
Definition status_of (db : Db) (scan_id : nat) : option ScanStatus :=
  mps_status <$> find (has_id scan_id) (marketplace_post_scans db).

End Marketplace.

(** ** The post-detail scan ([app/routes/posts.py]) *)

Module Posts.

(** What [scrape_post_details] returned, as the checks of lines 267-288
    see it: a falsy value, a text that [json.loads] rejects, or the
    decoded object. *)
Inductive scrape_reply :=
  | NoData
  | NotJson
  | Json (scraped_data : dict string).

(** The object [translate_string] writes: [original.text],
    [original.language], [translated.text], [translated.language],
    [translated.translated]. *)
Record translation := {
  original_text : string;
  original_language : option string;
  translated_text : option string;
  translated_language : option string;
  translated : bool
}.

(** [iab_result.get("scores", {})]: no such key, a value without [.get]
    ([null], a list, a number), or the object's three entries. *)
Inductive iab_scores :=
  | ScoresMissing
  | ScoresNotObject
  | Scores (positive negative neutral : option float).

Record iab_result := {
  classification : option string;
  sentiment : option string;
  scores : iab_scores
}.

(** What [iab_classify] returned: its failure value, which is a [dict]
    and not a text ([json.loads] raises [TypeError]); a text that is not
    JSON; JSON that is not an object (the [.get] of line 391 raises
    [AttributeError]); an object. *)
Inductive iab_reply :=
  | IabDict
  | IabNotJson
  | IabNotObject
  | IabObject (r : iab_result).

(** The entries of [scan_errors], by the line that appends them. *)
Inductive scan_error :=
  | NoDataReturned (url : string)
  | JsonParseError (url : string)
  | ScrapingError (url : string) (error : string)
  | IncompleteData (url : string)
  | TimestampMismatch (url expected got : string)
  | TranslationJsonError (url field : string)
  | IabJsonError (url : string)
  | ProcessingError (url : string)
  | BatchFailed (batch_name : string).

(** An item that went through the pipeline, ready to be stored.
    [e_iab] is the decoded answer of the classifier, [None] when it is
    JSON but not an object: that shows only when [.get] is called on it,
    after the duplicate check. *)
Record enriched := {
  e_title : string;
  e_content : string;
  e_timestamp : string;
  e_author : string;
  e_link : string;
  e_content_trans : translation;
  e_iab : option iab_result
}.

(** [not s.strip()] *)
Definition is_blank (s : string) : bool := bool_decide (strip s = "").

(** The translation entry written when the service is not called (lines
    312-319). *)
Definition untranslated (text : string) : translation :=
  {| original_text := text; original_language := Some "en";
     translated_text := Some text; translated_language := Some "en";
     translated := false |}.

(** [a or b] on texts: [None] and the empty text are falsy. *)
Definition text_or (a : option string) (b : string) : string :=
  match a with
  | Some (String c t) => String c t
  | _ => b
  end.

Definition MarketplacePostDetails_kwargs : list string :=
  ["scan_id"; "batch_name"; "title"; "content"; "timestamp"; "author"; "link";
   "original_language"; "original_text"; "translated_language";
   "translated_text"; "is_translated"; "classification"; "sentiment";
   "positive_score"; "negative_score"; "neutral_score"].

(** The filter of the duplicate check (lines 368-372). *)
Definition same_details (scan_id : nat) (timestamp batch_name : string)
  (r : MarketplacePostDetails) : bool :=
  bool_decide (mpd_scan_id r = scan_id ∧ mpd_timestamp r = timestamp
               ∧ mpd_batch_name r = batch_name).

Definition score_of (pick : option float * option float * option float
                            → option float) (s : iab_scores) : option float :=
  match s with
  | Scores p n u => pick (p, n, u)
  | _ => None
  end.

Definition details_row (scan_id : nat) (batch_name : string) (e : enriched)
  (iab : iab_result) : MarketplacePostDetails :=
  let t := e_content_trans e in
  {| mpd_scan_id := scan_id; mpd_batch_name := batch_name;
     mpd_title := e_title e; mpd_content := e_content e;
     mpd_timestamp := e_timestamp e; mpd_author := e_author e;
     mpd_link := e_link e;
     mpd_original_language := original_language t;
     mpd_original_text := Some (original_text t);
     mpd_translated_language := translated_language t;
     mpd_translated_text := translated_text t;
     mpd_is_translated := translated t;
     mpd_sentiment := sentiment iab;
     mpd_positive_score := score_of (λ s, s.1.1) (scores iab);
     mpd_negative_score := score_of (λ s, s.1.2) (scores iab);
     mpd_neutral_score := score_of (λ s, s.2) (scores iab) |}.

(** Lines 367-398 for a table with the given mapped attributes: the
    duplicate check, the constructor call, [add] and [commit].  A
    duplicate leaves the rows as they are and is no error; an exception
    (the classifier's answer or its scores not being an object, the
    constructor refusing a keyword, the unique constraint at commit)
    reaches the handler of line 401. *)
Definition store_in (columns : list string)
  (rows : list MarketplacePostDetails) (scan_id : nat) (batch_name : string)
  (e : enriched) : scan_error + list MarketplacePostDetails :=
  if existsb (same_details scan_id (e_timestamp e) batch_name) rows
  then inr rows
  else
    match e_iab e with
    | None => inl (ProcessingError (e_link e))
    | Some iab =>
        match scores iab with
        | ScoresNotObject => inl (ProcessingError (e_link e))
        | _ =>
            if negb (declarative_constructor columns
                       MarketplacePostDetails_kwargs)
            then inl (ProcessingError (e_link e))
            else if existsb (same_details scan_id (e_timestamp e) batch_name)
                            rows
            then inl (ProcessingError (e_link e))
            else inr (rows ++ [details_row scan_id batch_name e iab])
        end
    end.

Definition store := store_in MarketplacePostDetails_columns.

Definition set_post_detail_scans (db : Db) (scans : list PostDetailScan) : Db :=
  {| bot_profiles := bot_profiles db; apis := apis db;
     marketplace_pagination_scans := marketplace_pagination_scans db;
     marketplace_post_scans := marketplace_post_scans db;
     marketplace_posts := marketplace_posts db;
     post_detail_scans := scans;
     marketplace_post_details := marketplace_post_details db |}.

Definition set_marketplace_post_details (db : Db)
  (rows : list MarketplacePostDetails) : Db :=
  {| bot_profiles := bot_profiles db; apis := apis db;
     marketplace_pagination_scans := marketplace_pagination_scans db;
     marketplace_post_scans := marketplace_post_scans db;
     marketplace_posts := marketplace_posts db;
     post_detail_scans := post_detail_scans db;
     marketplace_post_details := rows |}.

Definition has_id (scan_id : nat) (s : PostDetailScan) : bool :=
  bool_decide (pds_id s = scan_id).

Definition finish_scan (status : ScanStatus) (now : datetime)
  (s : PostDetailScan) : PostDetailScan :=
  {| pds_id := pds_id s; pds_scan_name := pds_scan_name s;
     pds_source_scan_name := pds_source_scan_name s;
     pds_start_date := pds_start_date s;
     pds_completion_date := Some now;
     pds_status := status;
     pds_batch_size := pds_batch_size s; pds_site_url := pds_site_url s |}.

Definition run_scan (now : datetime) (s : PostDetailScan) : PostDetailScan :=
  {| pds_id := pds_id s; pds_scan_name := pds_scan_name s;
     pds_source_scan_name := pds_source_scan_name s;
     pds_start_date := Some now;
     pds_completion_date := None;
     pds_status := RUNNING;
     pds_batch_size := pds_batch_size s; pds_site_url := pds_site_url s |}.

(** Lines 436-449: the status the scan ends with. *)
Definition final_status (scan_errors : list scan_error) : ScanStatus :=
  match scan_errors with
  | [] => COMPLETED
  | _ :: _ => STOPPED
  end.

Section WithServices.

(** The calls that leave the process, by their arguments:
    [scrape_post_details(post_link=full_url, ...)], langdetect's
    [detect(text)] ([None] when it raises), [translate_string(text, ...)]
    decoded by [json.loads] ([None] when that raises [JSONDecodeError]),
    [iab_classify(prompt=...)], and the normalisation
    [unicodedata.normalize('NFKC', s).encode('ascii', 'ignore')
    .decode('ascii')]. *)
Variable scrape_post_details : string → scrape_reply.
Variable detect : string → option string.
Variable translate_string : string → option translation.
Variable iab_classify : string → iab_reply.
Variable nfkc_ascii : string → string.

(** Lines 301-307.  The two assignments share one [try]: when either
    call of [detect] raises, both languages become ['unknown']; a blank
    text is not given to [detect] and counts as ['en']. *)
Definition detect_languages (title content : string) : string * string :=
  match (if is_blank title then Some "en" else detect title) with
  | None => ("unknown", "unknown")
  | Some title_lang =>
      match (if is_blank content then Some "en" else detect content) with
      | None => ("unknown", "unknown")
      | Some content_lang => (title_lang, content_lang)
      end
  end.

(** Lines 309-345: [title_trans] and [content_trans]. *)
Definition translations (full_url title content : string)
  : scan_error + translation * translation :=
  let '(title_lang, content_lang) := detect_languages title content in
  if decide (title_lang = "en" ∧ content_lang = "en")
  then inr (untranslated title, untranslated content)
  else
    match translate_string title with
    | None => inl (TranslationJsonError full_url "title")
    | Some title_trans =>
        match translate_string content with
        | None => inl (TranslationJsonError full_url "content")
        | Some content_trans => inr (title_trans, content_trans)
        end
    end.

(** Lines 256-365: one post from the scrape to the classification. *)
Definition enrich (site_url iab_prompt post_link post_timestamp : string)
  : scan_error + enriched :=
  let full_url :=
    rstrip_char "/" site_url +:+ "/" +:+ lstrip_char "/" post_link in
  match scrape_post_details full_url with
  | NoData => inl (NoDataReturned full_url)
  | NotJson => inl (JsonParseError full_url)
  | Json scraped_data =>
      match dict_get "error" scraped_data with
      | Some error => inl (ScrapingError full_url error)
      | None =>
          match dict_get "title" scraped_data,
                dict_get "content" scraped_data,
                dict_get "author" scraped_data,
                dict_get "timestamp" scraped_data with
          | Some t, Some c, Some a, Some ts =>
              if decide (ts ≠ post_timestamp)
              then inl (TimestampMismatch full_url post_timestamp ts)
              else
                let title := nfkc_ascii t in
                let content := nfkc_ascii c in
                match translations full_url title content with
                | inl e => inl e
                | inr (_, content_trans) =>
                    let prompt :=
                      replace "TARGET-POST-PLACEHOLDER"
                        (text_or (translated_text content_trans)
                                 (original_text content_trans))
                        iab_prompt in
                    let item iab :=
                      {| e_title := title; e_content := content;
                         e_timestamp := ts; e_author := a;
                         e_link := full_url;
                         e_content_trans := content_trans;
                         e_iab := iab |} in
                    match iab_classify prompt with
                    | IabNotJson => inl (IabJsonError full_url)
                    | IabDict => inl (ProcessingError full_url)
                    | IabNotObject => inr (item None)
                    | IabObject r => inr (item (Some r))
                    end
                end
          | _, _, _, _ => inl (IncompleteData full_url)
          end
      end
  end.

(** The state a scan's tasks share: the rows of
    [marketplace_post_details] and the list [scan_errors]. *)
Definition scan_state : Type := list MarketplacePostDetails * list scan_error.

(** One turn of the loop of line 255: every failure appends to
    [scan_errors] and the loop goes on with the next post. *)
Definition scrape_one (scan_id : nat) (batch_name site_url iab_prompt : string)
  (st : scan_state) (item : string * string) : scan_state :=
  let '(rows, scan_errors) := st in
  let '(post_link, post_timestamp) := item in
  match enrich site_url iab_prompt post_link post_timestamp with
  | inl e => (rows, scan_errors ++ [e])
  | inr en =>
      match store rows scan_id batch_name en with
      | inl e => (rows, scan_errors ++ [e])
      | inr rows' => (rows', scan_errors)
      end
  end.

Definition sync_scrape_post (scan_id : nat)
  (batch_name site_url iab_prompt : string) (st : scan_state)
  (batch_posts : list (string * string)) : scan_state :=
  foldl (scrape_one scan_id batch_name site_url iab_prompt) st batch_posts.

(** Whether the task of a batch ends with an exception.  The handler of
    line 401 catches whatever an item raises, so this is an exception
    from outside the loop body: the storage session of the batch. *)
Variable batch_raises : string → bool.

(** The tasks of lines 408-426, one after the other; a task that raises
    leaves the state as it found it. *)
Definition run_batches (scan_id : nat) (site_url iab_prompt : string)
  (st : scan_state) (batches : list (string * list (string * string)))
  : scan_state :=
  foldl (λ st '(batch_name, batch_posts),
           if batch_raises batch_name then st
           else sync_scrape_post scan_id batch_name site_url iab_prompt
                  st batch_posts)
        st batches.

(** Lines 428-434: the batches that run append their item errors; then
    one entry is appended for every task that [asyncio.gather] returned
    as an exception. *)
Definition gather (scan_id : nat) (site_url iab_prompt : string)
  (st : scan_state) (batches : list (string * list (string * string)))
  : scan_state :=
  let '(rows, scan_errors) :=
    run_batches scan_id site_url iab_prompt st batches in
  (rows,
   scan_errors
   ++ (BatchFailed <$> filter (λ n, batch_raises n = true) batches.*1)).

(** The background task [scrape_post_batches] (lines 248-458): the
    storage and [scan_errors] when it ends.  With the list of errors
    empty or not, the scan's row takes its status and completion time;
    when the final lookup finds no row the [except] branch is entered,
    its own lookup fails the same way and nothing is written. *)
Definition scrape_post_batches (db : Db) (scan_id : nat)
  (site_url iab_prompt : string)
  (batches : list (string * list (string * string))) (now : datetime)
  : Db * list scan_error :=
  let '(rows, scan_errors) :=
    gather scan_id site_url iab_prompt (marketplace_post_details db, [])
      batches in
  let db1 := set_marketplace_post_details db rows in
  match find (has_id scan_id) (post_detail_scans db1) with
  | Some _ =>
      (set_post_detail_scans db1
         (update_first (has_id scan_id)
            (finish_scan (final_status scan_errors) now)
            (post_detail_scans db1)),
       scan_errors)
  | None => (db1, scan_errors)
  end.

End WithServices.

(** Lines 190-194: the bots the scan may use. *)
Definition active_bots (db : Db) : list BotProfile :=
  filter (λ b, bot_purpose b = SCRAPE_POST ∧ bot_session b ≠ None
               ∧ bot_session b ≠ Some "")
         (bot_profiles db).

Definition active_api (db : Db) (type : string) : option APIs :=
  find (λ a, bool_decide (api_type a = type ∧ api_is_active a = true))
       (apis db).

(** Lines 202-206: the source scan must be completed. *)
Definition source_scan_of (db : Db) (db_scan : PostDetailScan)
  : option MarketplacePostScan :=
  find (λ s, bool_decide (mps_scan_name s = pds_source_scan_name db_scan
                          ∧ mps_completion_date s ≠ None
                          ∧ mps_status s = COMPLETED))
       (marketplace_post_scans db).

(** [f"batch_{n:03d}"] *)
Definition batch_name_of (n : nat) : string :=
  let digits := pretty n in
  "batch_" +:+ String.concat "" (replicate (3 - String.length digits) "0")
  +:+ digits.

(** Lines 233-236 for a positive [batch_size]. *)
Definition make_batches (post_data : list (string * string)) (batch_size : nat)
  : list (string * list (string * string)) :=
  (λ i, (batch_name_of (i `div` batch_size + 1),
         Pagination.slice i (i + batch_size) post_data))
  <$> Pagination.py_range (length post_data) batch_size.

(** The route [POST /api/posts-scanner/{scan_id}/start], up to the launch
    of the background task.  A [batch_size] of zero makes [range] raise
    [ValueError], which the route turns into status 500 after
    [db.rollback()]; a negative one gives an empty range. *)
Definition start_post_scan (db : Db) (scan_id : nat) (now : datetime)
  : Db * Response :=
  match find (has_id scan_id) (post_detail_scans db) with
  | None => (db, HTTPException 404 "Post detail scan not found")
  | Some db_scan =>
      if decide (pds_status db_scan = RUNNING)
      then (db, HTTPException 400 "Scan is already running")
      else
        match active_api db "translation_api", active_api db "iab_api" with
        | Some _, Some _ =>
            match active_bots db with
            | [] => (db, HTTPException 400 "No active bots available")
            | _ :: _ =>
                match source_scan_of db db_scan with
                | None =>
                    (db, HTTPException 404
                           "Source post scan not found or not completed")
                | Some source_scan =>
                    match filter (λ p, mp_scan_id p = mps_id source_scan)
                                 (marketplace_posts db) with
                    | [] => (db, HTTPException 404 "No posts found")
                    | _ :: _ =>
                        if decide (pds_site_url db_scan = "")
                        then (db, HTTPException 400 "Site URL is required")
                        else if decide (pds_batch_size db_scan = 0%Z)
                        then (db, HTTPException 500 "Internal server error")
                        else
                          (set_post_detail_scans db
                             (update_first (has_id scan_id) (run_scan now)
                                (post_detail_scans db)),
                           JSONResponse 200 "Post detail scan started")
                    end
                end
            end
        | _, _ => (db, HTTPException 400 "Required APIs not found")
        end
  end.

(** The batches the started task works through (lines 213-236). *)
Definition batches_of (db : Db) (db_scan : PostDetailScan)
  : list (string * list (string * string)) :=
  match source_scan_of db db_scan with
  | None => []
  | Some source_scan =>
      let posts := filter (λ p, mp_scan_id p = mps_id source_scan)
                          (marketplace_posts db) in
      let post_data := (λ p, (mp_link p, mp_timestamp p)) <$> posts in
      if (0 <? pds_batch_size db_scan)%Z
      then make_batches post_data (Z.to_nat (pds_batch_size db_scan))
      else []
  end.

Definition status_of (db : Db) (scan_id : nat) : option ScanStatus :=
  pds_status <$> find (has_id scan_id) (post_detail_scans db).

End Posts.

(** ** Scenarios

    Concrete storages, sites and service answers on which the functions
    above are run. *)

Module Scenarios.

(** A listing of twelve pages. *)
Definition example_template : string := "http://forum.onion/market?page={page}".

Definition example_urls : list string :=
  (λ p, "http://forum.onion/market?page=" +:+ pretty p)
  <$> [12; 11; 10; 9; 8; 7; 6; 5; 4; 3; 2; 1]%Z.

(** A turn of the login loop in which the vision service answers
    without a code. *)
Definition turn_without_code : Captcha.attempt_io :=
  {| Captcha.login_page := Some true;
     Captcha.captcha_saved := true;
     Captcha.solver :=
       {| Captcha.resize_ok := true;
          Captcha.base64_image := Some "iVBORw0KGgo=";
          Captcha.service_answer := Some "Sorry, I can only read AB12F" |};
     Captcha.login_reply := Some "<a href='/profile'>Profile</a> Logout" |}.

(** A forum whose listing has twelve pages, of which three answer.
    Page 12 shows the same timestamp twice (once with blanks around it);
    page 11 has eleven rows; page 2, which falls into the second batch,
    shows a post with the timestamp of page 12 and another title. *)
Definition listing_row (timestamp title author href : string)
  : Marketplace.table_row :=
  {| Marketplace.td_title := Some title;
     Marketplace.td_author := Some author;
     Marketplace.td_timestamp := Some timestamp;
     Marketplace.td_link := Marketplace.Href href |}.

Definition eleven_rows : list Marketplace.table_row :=
  (λ i, listing_row ("2025-07-02 09:" +:+ pretty (10 + i))
          ("Listing " +:+ pretty i) "carol" ("/post/" +:+ pretty (100 + i)))
  <$> seq 0 11.

Definition listing_site (url : string) : Marketplace.page_reply :=
  if decide (url = "http://forum.onion/market?page=12")
  then Some [listing_row "2025-07-01 10:00" "RDP access, EU retailer"
               "alice" "/post/41";
             listing_row " 2025-07-01 10:00 " "RDP access, EU retailer (v2)"
               "alice" "/post/42"]
  else if decide (url = "http://forum.onion/market?page=11")
  then Some eleven_rows
  else if decide (url = "http://forum.onion/market?page=2")
  then Some [listing_row "2025-07-01 10:00" "VPN access, US bank"
               "bob" "/post/7"]
  else None.

(** The two batches of the twelve pages. *)
Definition listing_batches : dict (list string) :=
  [("1", take 10 example_urls); ("2", drop 10 example_urls)].

(** What [scrape_posts] collects from the first batch. *)
Definition first_batch_posts : dict Marketplace.post :=
  ("2025-07-01 10:00",
   {| Marketplace.title := "RDP access, EU retailer (v2)";
      Marketplace.author := "alice"; Marketplace.link := "/post/42" |})
  :: ((λ i, ("2025-07-02 09:" +:+ pretty (10 + i),
             {| Marketplace.title := "Listing " +:+ pretty i;
                Marketplace.author := "carol";
                Marketplace.link := "/post/" +:+ pretty (100 + i) |}))
      <$> seq 0 10).

(** [eval] and the normalisation as they act on the texts of the
    scenarios: a text that [eval] reads as a dictionary of one post, and
    titles that are ASCII already. *)
Definition literal_text : string :=
  "{'2025-07-03 08:00': {'title': 'Shell on mail server', 'author': 'dave', 'link': '/post/9'}}".

Definition literal_eval (text : string) : option (dict Marketplace.post) :=
  if decide (text = literal_text)
  then Some [("2025-07-03 08:00",
              {| Marketplace.title := "Shell on mail server";
                 Marketplace.author := "dave";
                 Marketplace.link := "/post/9" |})]
  else None.

Definition ascii_only (s : string) : string := s.

Definition market_bot (session : option string) : BotProfile :=
  {| bot_id := 1; bot_username := "harvester"; bot_purpose := SCRAPE_MARKETPLACE;
     bot_tor_proxy := Some "socks5h://127.0.0.1:49075";
     bot_user_agent := Some "Mozilla/5.0"; bot_session := session |}.

Definition pages_scan : MarketplacePaginationScan :=
  {| pgs_id := 1; pgs_scan_name := "pages"; pgs_pagination_url := example_template;
     pgs_max_page := 12; pgs_batches := Some listing_batches |}.

Definition listing_scan (status : ScanStatus) (completed : option datetime)
  : MarketplacePostScan :=
  {| mps_id := 7; mps_scan_name := "listing"; mps_pagination_scan_name := "pages";
     mps_start_date := Some 100%Z; mps_completion_date := completed;
     mps_status := status |}.

(** A storage with one listing scan in the given state and one bot for
    listing scans with the given session. *)
Definition listing_db (status : ScanStatus) (completed : option datetime)
  (session : option string) : Db :=
  {| bot_profiles := [market_bot session]; apis := [];
     marketplace_pagination_scans := [pages_scan];
     marketplace_post_scans := [listing_scan status completed];
     marketplace_posts := []; post_detail_scans := [];
     marketplace_post_details := [] |}.

(** The post-detail side: one bot for post scans, the two services
    registered and active, the listing scan completed, and a detail scan
    over it. *)
Definition post_bot : BotProfile :=
  {| bot_id := 2; bot_username := "reader"; bot_purpose := SCRAPE_POST;
     bot_tor_proxy := Some "socks5h://127.0.0.1:49076";
     bot_user_agent := Some "Mozilla/5.0"; bot_session := Some "session=def" |}.

Definition translation_api : APIs :=
  {| api_type := "translation_api"; api_key := "deepl-key"; api_model := "";
     api_prompt := ""; api_max_tokens := 0; api_is_active := true |}.

Definition iab_api : APIs :=
  {| api_type := "iab_api"; api_key := "anthropic-key";
     api_model := "claude-3-7-sonnet-20250219";
     api_prompt := "Classify the post: TARGET-POST-PLACEHOLDER";
     api_max_tokens := 100; api_is_active := true |}.

Definition stored_post (timestamp title author href : string)
  : MarketplacePost :=
  {| mp_scan_id := 7; mp_timestamp := timestamp; mp_title := title;
     mp_author := author; mp_link := href |}.

Definition detail_scan (status : ScanStatus) (completed : option datetime)
  : PostDetailScan :=
  {| pds_id := 3; pds_scan_name := "details"; pds_source_scan_name := "listing";
     pds_start_date := Some 300%Z; pds_completion_date := completed;
     pds_status := status; pds_batch_size := 10;
     pds_site_url := "http://forum.onion/" |}.

Definition detail_db (status : ScanStatus) (completed : option datetime)
  (posts : list MarketplacePost) : Db :=
  {| bot_profiles := [post_bot]; apis := [translation_api; iab_api];
     marketplace_pagination_scans := [pages_scan];
     marketplace_post_scans := [listing_scan COMPLETED (Some 200%Z)];
     marketplace_posts := posts;
     post_detail_scans := [detail_scan status completed];
     marketplace_post_details := [] |}.

(** The forum's post pages.  Post 42 is as the listing recorded it; post
    100 now shows another time than the listing did; post 55 has neither
    title nor text. *)
Definition forum_post (url : string) : Posts.scrape_reply :=
  if decide (url = "http://forum.onion/post/42")
  then Posts.Json [("title", "RDP access, EU retailer (v2)");
                   ("timestamp", "2025-07-01 10:00"); ("author", "alice");
                   ("content", "Domain admin on a retailer. Price 0.8 BTC.")]
  else if decide (url = "http://forum.onion/post/100")
  then Posts.Json [("title", "Listing 0"); ("timestamp", "2025-07-02 09:30");
                   ("author", "carol"); ("content", "Fresh logs, DM me.")]
  else if decide (url = "http://forum.onion/post/55")
  then Posts.Json [("title", ""); ("timestamp", "2025-07-04 12:00");
                   ("author", "erin"); ("content", "   ")]
  else Posts.Json [("error", "Request failed: 404"); ("title", "");
                   ("timestamp", ""); ("author", ""); ("content", "")].

(** A detector that takes every text for Russian, one that always
    raises, and one that takes every text for English. *)
Definition detect_russian (text : string) : option string := Some "ru".
Definition detect_raises (text : string) : option string := None.
Definition detect_english (text : string) : option string := Some "en".

(** A translation service that reports Russian and returns the text
    with a mark. *)
Definition translate_marked (text : string) : option Posts.translation :=
  Some {| Posts.original_text := text; Posts.original_language := Some "RU";
          Posts.translated_text := Some ("[en] " +:+ text);
          Posts.translated_language := Some "EN"; Posts.translated := true |}.

(** A classifier that answers with the label "Positive" and the scores
    0.9, 0.05 and 0.05 (as bit patterns). *)
Definition classify_positive (prompt : string) : Posts.iab_reply :=
  Posts.IabObject
    {| Posts.classification := Some "Positive"; Posts.sentiment := None;
       Posts.scores := Posts.Scores (Some 4606281698874543309%Z)
                         (Some 4587366580439587226%Z)
                         (Some 4587366580439587226%Z) |}.

Definition no_batch_raises (batch_name : string) : bool := false.

(** The posts of the listing that the detail scans below read. *)
Definition post_42 : MarketplacePost :=
  stored_post "2025-07-01 10:00" "RDP access, EU retailer (v2)" "alice"
    "/post/42".
Definition post_100 : MarketplacePost :=
  stored_post "2025-07-02 09:10" "Listing 0" "carol" "/post/100".

End Scenarios.

(** ** More of Python's [str]: searching, slicing, splitting *)

Module PyText.

(** The line feed, which a literal cannot hold. *)
Definition LF : string := String (ascii_of_nat 10) "".

(** [s[:n]] and [s[n:]] for [n >= 0]. *)
Fixpoint take_chars (n : nat) (s : string) : string :=
  match n, s with
  | S n', String c t => String c (take_chars n' t)
  | _, _ => ""
  end.

Fixpoint drop_chars (n : nat) (s : string) : string :=
  match n, s with
  | S n', String _ t => drop_chars n' t
  | _, _ => s
  end.

(** [s[i:j]] for [0 <= i]; an empty text when [j <= i]. *)
Definition str_slice (i j : nat) (s : string) : string :=
  take_chars (j - i) (drop_chars i s).

(** [s.find(sub)]: the least index at which [sub] occurs in [s]; [None]
    stands for -1.  [s.index(sub)] is the same search and raises
    [ValueError] where [find] answers -1. *)
Fixpoint find (sub s : string) : option nat :=
  if String.prefix sub s then Some 0
  else
    match s with
    | "" => None
    | String _ t => S <$> find sub t
    end.

(** [s.index(sub, start)] for [0 <= start]. *)
Definition index_from (sub : string) (start : nat) (s : string) : option nat :=
  if String.length s <? start then None
  else (λ i, start + i) <$> find sub (drop_chars start s).

(** [s.split(sep)] for a non-empty [sep]: the occurrences are taken from
    the left and do not overlap. *)
Fixpoint split_from (fuel : nat) (sep s : string) : list string :=
  match fuel with
  | O => [s]
  | S fuel' =>
      match find sep s with
      | None => [s]
      | Some i =>
          take_chars i s
          :: split_from fuel' sep (drop_chars (i + String.length sep) s)
      end
  end.

Definition split (sep s : string) : list string :=
  split_from (String.length s) sep s.

(** [s.split(sep, 1)] *)
Definition split_once (sep s : string) : list string :=
  match find sep s with
  | None => [s]
  | Some i => [take_chars i s; drop_chars (i + String.length sep) s]
  end.

(** [s.rsplit(sep, 1)] for a one-character [sep]: cut at the last
    occurrence. *)
Fixpoint rsplit_once_char (sep : ascii) (s : string) : list string :=
  match s with
  | "" => [""]
  | String c t =>
      match rsplit_once_char sep t with
      | [a; b] => [String c a; b]
      | _ => if decide (c = sep) then [""; t] else [s]
      end
  end.

(** The text in front of the first occurrence of [sep], all of it when
    there is none. *)
Definition before (sep s : string) : string :=
  match find sep s with
  | Some i => take_chars i s
  | None => s
  end.

(** [c in s] for a character. *)
Fixpoint has_char (c : ascii) (s : string) : bool :=
  match s with
  | "" => false
  | String d t => bool_decide (d = c) || has_char c t
  end.

End PyText.

(** ** The session cookie of a bot

    [perform_bot_login] ([app/routes/bot_profile.py], lines 219-221)
    stores the cookie with its name in front; the scans take the name off
    again. *)

Module SessionCookie.
Import PyText.

(** [f"session={session.cookies.get('session')}"] *)
Definition stored_session (cookie : string) : string := "session=" +:+ cookie.

(** [app/routes/marketplace.py], line 276, and [app/routes/posts.py],
    line 253: [bot.session.split('=')[1] if '=' in bot.session else
    bot.session]; [None] is the [IndexError] of the subscript. *)
Definition session_cookie (session : string) : option string :=
  if contains "=" session then split "=" session !! 1 else Some session.

(** [app/routes/watchlist.py], line 135: [bot.session.split("session=",
    1)[1] if bot.session and "session=" in bot.session else bot.session]. *)
Definition profile_session_cookie (session : string) : option string :=
  if bool_decide (session ≠ "") && contains "session=" session
  then split_once "session=" session !! 1
  else Some session.

End SessionCookie.

(** ** The three calls of a detail item ([app/scrapers/post_scraper.py]) *)

Module PostScraper.
Import PyText Posts.

(** [timestamp_tag.next_sibling] of the [strong] element that holds
    ["Date:"]: no such element, no sibling, a text node, or an element.
    An element is truthy and has no method [strip]: [element.strip] is
    its first descendant element named [strip], [None] when it has none,
    and calling the element found gives the list of the elements below
    it.  [strip_tags] is the length of that list, [None] when no
    descendant is named [strip]. *)
Inductive date_sibling :=
  | NoDateTag
  | NoSibling
  | SiblingText (text : string)
  | SiblingTag (strip_tags : option nat).

(** A value of the dictionary that is built: a text, or the empty
    list. *)
Inductive field_value :=
  | FieldText (text : string)
  | FieldEmptyList.

(** The paragraph [p.card-text.text-light]: its text with the nodes
    joined by line feeds, the text of its first [a.text-light], and the
    date. *)
Record card := {
  card_lines : string;
  card_author : option string;
  card_date : date_sibling
}.

(** The page: the text of [h2.text-light] and the paragraph, each when
    present. *)
Record post_page := {
  page_title : option string;
  page_card : option card
}.

(** What [requests.get] and the parser lead to: [RequestException] (a
    transport error, an error status) with its text, any other exception
    with its text, or the page. *)
Inductive page_fetch :=
  | RequestFailed (message : string)
  | OtherFailure (message : string)
  | Page (p : post_page).

(** [str(e)] of the [TypeError] for calling [None], and of the one
    [json.dumps] raises for a list that holds elements. *)
Definition not_callable : string := "'NoneType' object is not callable".
Definition not_serializable : string :=
  "Object of type Tag is not JSON serializable".

(** The dictionary of the two [except] branches (lines 92-111). *)
Definition scrape_failed (kind message : string) : dict field_value :=
  [("error", FieldText (kind +:+ message)); ("title", FieldText "");
   ("timestamp", FieldText ""); ("author", FieldText "");
   ("content", FieldText "")].

(** Lines 16-111.  The function serialises the dictionary with
    [json.dumps]; its caller reads it back with [json.loads]: the model
    returns the dictionary.  A timestamp that is a list of elements makes
    [json.dumps] raise inside the [try]; the empty list is written as
    it is. *)
Definition scrape_post_details (fetched : page_fetch) : dict field_value :=
  match fetched with
  | RequestFailed message => scrape_failed "Request failed: " message
  | OtherFailure message => scrape_failed "Scraping failed: " message
  | Page p =>
      let title := default "" (strip <$> page_title p) in
      match page_card p with
      | None =>
          [("title", FieldText title); ("timestamp", FieldText "");
           ("author", FieldText ""); ("content", FieldText "")]
      | Some c =>
          let content :=
            match split "Posted by:" (card_lines c) with
            | [] => ""
            | part :: _ => strip part
            end in
          let author := default "" (strip <$> card_author c) in
          match card_date c with
          | SiblingTag None =>
              scrape_failed "Scraping failed: " not_callable
          | SiblingTag (Some 0) =>
              [("title", FieldText title); ("timestamp", FieldEmptyList);
               ("author", FieldText author); ("content", FieldText content)]
          | SiblingTag (Some (S _)) =>
              scrape_failed "Scraping failed: " not_serializable
          | SiblingText text =>
              [("title", FieldText title);
               ("timestamp", FieldText (strip text));
               ("author", FieldText author); ("content", FieldText content)]
          | NoDateTag | NoSibling =>
              [("title", FieldText title); ("timestamp", FieldText "");
               ("author", FieldText author); ("content", FieldText content)]
          end
      end
  end.

(** Lines 114-194.  [deepl]: the detected source language and the
    translated text, [None] when the service call raises (the two
    [except] branches differ in the text of the ["error"] entry, which
    the caller does not read).  The result is the object the caller
    decodes from the returned JSON text. *)
Definition translate_string (deepl : option (string * string))
  (input_string target_lang : string) : translation :=
  match deepl with
  | Some (source_lang, text) =>
      let is_translated := bool_decide (source_lang ≠ "EN") in
      {| original_text := input_string;
         original_language := Some source_lang;
         translated_text := if is_translated then Some text else None;
         translated_language :=
           if is_translated then Some target_lang else None;
         translated := is_translated |}
  | None =>
      {| original_text := input_string; original_language := None;
         translated_text := None; translated_language := None;
         translated := false |}
  end.

(** The two fences of lines 231-232. *)
Definition opening_fence : string := "```json" +:+ LF.
Definition closing_fence : string := LF +:+ "```".

(** Lines 231-233: [start = content.index("```json\n") + 7],
    [end = content.index("\n```", start)], [content[start:end]];
    [None] when an [index] raises [ValueError]. *)
Definition fenced_json (content : string) : option string :=
  i ← find opening_fence content;
  let start := i + 7 in
  end_ ← index_from closing_fence start content;
  Some (str_slice start end_ content).

Section WithJson.

(** [json.loads] on the fenced text, as the caller then reads the value:
    [None] when it raises, [Some None] for a value that is not an object,
    otherwise the object's entries. *)
Variable json_loads : string → option (option iab_result).

(** Lines 197-238.  [answer]: [message.content[0].text], [None] when the
    request or the subscript raises.  On success the function returns
    [json.dumps(result)], a text that [json.loads] accepts; on any
    exception it returns a [dict]. *)
Definition iab_classify (answer : option string) : iab_reply :=
  match answer with
  | None => IabDict
  | Some content =>
      match fenced_json content with
      | None => IabDict
      | Some text =>
          match json_loads text with
          | None => IabDict
          | Some None => IabNotObject
          | Some (Some result) => IabObject result
          end
      end
  end.

End WithJson.

(** The calls as [sync_scrape_post] makes them ([app/routes/posts.py],
    lines 261-266, 322-326 and 354-359): the page behind the address, the
    translation service on the text with target ["EN"], the classifier
    on the prompt. *)
Section Wired.

Variable site : string → page_fetch.
Variable detect : string → option string.
Variable deepl : string → option (string * string).
Variable claude : string → option string.
Variable json_loads : string → option (option iab_result).
Variable nfkc_ascii : string → string.

(** The text an f-string writes for a value. *)
Definition text_of (v : field_value) : string :=
  match v with
  | FieldText text => text
  | FieldEmptyList => "[]"
  end.

Definition as_texts (scraped_data : dict field_value) : dict string :=
  prod_map id text_of <$> scraped_data.

(** The dictionary [json.loads] gives back to the caller, for a
    dictionary whose values are texts. *)
Definition detail_scraper (full_url : string) : scrape_reply :=
  Json (as_texts (scrape_post_details (site full_url))).

Definition translator (text : string) : option translation :=
  Some (translate_string (deepl text) text "EN").

Definition classifier (prompt : string) : iab_reply :=
  iab_classify json_loads (claude prompt).

(** One turn of the loop of [sync_scrape_post] with these calls.  A
    dictionary whose timestamp is the empty list has no entry [error] and
    has the four fields, and a list is different from every text: the
    turn ends at line 291 with a timestamp mismatch.  Every other
    dictionary holds texts only. *)
Definition wired_scrape_one (scan_id : nat)
  (batch_name site_url iab_prompt : string) (st : scan_state)
  (item : string * string) : scan_state :=
  let full_url :=
    PyStr.rstrip_char "/" site_url +:+ "/" +:+ PyStr.lstrip_char "/" item.1 in
  let scraped_data := scrape_post_details (site full_url) in
  match dict_get "timestamp" scraped_data with
  | Some FieldEmptyList =>
      (st.1,
       st.2 ++ [TimestampMismatch full_url item.2 (text_of FieldEmptyList)])
  | _ =>
      scrape_one detail_scraper detect translator classifier nfkc_ascii
        scan_id batch_name site_url iab_prompt st item
  end.

Definition wired_sync_scrape_post (scan_id : nat)
  (batch_name site_url iab_prompt : string) (st : scan_state)
  (batch_posts : list (string * string)) : scan_state :=
  foldl (wired_scrape_one scan_id batch_name site_url iab_prompt) st
        batch_posts.

End Wired.

End PostScraper.

(** ** The login loop with its counter ([app/services/tornet_forum_login.py]) *)

Module LoginLoop.
Import Captcha.

(** Whether a turn ends in one of the branches that count a failure and
    go round again. *)
Definition turn_fails (io : attempt_io) : bool :=
  match login_turn 0 io with
  | Retry _ _ => true
  | _ => false
  end.

(** The loop of lines 147-265 over the turns the environment answers,
    with the state it carries: the attempt counter, and the number of
    times [time.sleep(300)] was called.  The third component is the value
    returned, [None] while the loop is still running. *)
Fixpoint login_run (attempt_count sleeps : nat) (turns : list attempt_io)
  : nat * nat * option turn_result :=
  match turns with
  | [] => (attempt_count, sleeps, None)
  | io :: rest =>
      match login_turn attempt_count io with
      | Retry n cooldown =>
          login_run n (if cooldown then S sleeps else sleeps) rest
      | r => (attempt_count, sleeps, Some r)
      end
  end.

End LoginLoop.

(** Two turns for the scenarios: one in which the challenge is read and
    the forum shows the member's menu, one in which the forum rejects the
    password although it shows that menu. *)
Module LoginScenarios.

Definition solved : Captcha.solver_io :=
  {| Captcha.resize_ok := true;
     Captcha.base64_image := Some "iVBORw0KGgo=";
     Captcha.service_answer := Some "The code is AB12CD." |}.

Definition turn_logged_in : Captcha.attempt_io :=
  {| Captcha.login_page := Some true;
     Captcha.captcha_saved := true;
     Captcha.solver := solved;
     Captcha.login_reply := Some "<a href='/profile'>Profile</a> Logout" |}.

Definition turn_rejected : Captcha.attempt_io :=
  {| Captcha.login_page := Some true;
     Captcha.captcha_saved := true;
     Captcha.solver := solved;
     Captcha.login_reply :=
       Some "Invalid username or password. Profile | Logout" |}.

End LoginScenarios.

(** ** Routes: exceptions, answers and new rows *)

Module Routes.

(** What the body of a route raises: an [HTTPException] of its own, or
    any other exception. *)
Inductive raised :=
  | RaisedHTTP (status_code : nat) (detail : string)
  | RaisedOther.

(** What the client receives: an error status with its [detail], or a
    status with the content the route built. *)
Inductive reply (A : Type) :=
  | Failed (status_code : nat) (detail : string)
  | Answered (status_code : nat) (content : A).
Arguments Failed {A} _ _.
Arguments Answered {A} _ _.

Definition status_code_of {A} (r : reply A) : nat :=
  match r with
  | Failed status_code _ => status_code
  | Answered status_code _ => status_code
  end.

(** [except HTTPException as he: raise he] followed by [except Exception:
    ... raise HTTPException(status_code=500, detail="Internal server
    error")]. *)
Definition reraise {A} (r : raised) : reply A :=
  match r with
  | RaisedHTTP status_code detail => Failed status_code detail
  | RaisedOther => Failed 500 "Internal server error"
  end.

(** [except Exception: ... raise HTTPException(status_code=500,
    detail="Internal server error")] alone: an [HTTPException] raised in
    the body is an [Exception] and is caught too. *)
Definition mask {A} (r : raised) : reply A :=
  Failed 500 "Internal server error".

(** The key the storage gives a row added without one: one more than the
    greatest key in the table. *)
Definition next_id (ids : list nat) : nat := S (foldr max 0 ids).

End Routes.

(** ** The other routes of the listing scan ([app/routes/marketplace.py]) *)

Module MarketRoutes.
Import Routes Pagination.

Record MarketplacePaginationScanCreate := {
  new_scan_name : string;
  new_pagination_url : string;
  new_max_page : Z
}.

Record MarketplacePostScanCreate := {
  new_post_scan_name : string;
  new_pagination_scan_name : string
}.

Definition set_marketplace_pagination_scans (db : Db)
  (scans : list MarketplacePaginationScan) : Db :=
  {| bot_profiles := bot_profiles db; apis := apis db;
     marketplace_pagination_scans := scans;
     marketplace_post_scans := marketplace_post_scans db;
     marketplace_posts := marketplace_posts db;
     post_detail_scans := post_detail_scans db;
     marketplace_post_details := marketplace_post_details db |}.

Section WithFormat.

Variable format : string → Z → option string.

(** [POST /api/marketplace-scan/enumerate] (lines 62-93).  The batches
    are stored as the text [create_pagination_batches] returns, which is
    never empty. *)
Definition enumerate_pages (db : Db) (scan : MarketplacePaginationScanCreate)
  : Db * reply string :=
  if existsb (λ p, bool_decide (pgs_scan_name p = new_scan_name scan))
             (marketplace_pagination_scans db)
  then (db, reraise (RaisedHTTP 400 "Scan name already exists"))
  else
    match create_pagination_batches format (new_pagination_url scan)
            (new_max_page scan) with
    | None => (db, reraise RaisedOther)
    | Some batches =>
        let db_scan :=
          {| pgs_id := next_id (pgs_id <$> marketplace_pagination_scans db);
             pgs_scan_name := new_scan_name scan;
             pgs_pagination_url := new_pagination_url scan;
             pgs_max_page := new_max_page scan;
             pgs_batches := Some batches |} in
        (set_marketplace_pagination_scans db
           (marketplace_pagination_scans db ++ [db_scan]),
         Answered 201 "Pagination scan created")
    end.

End WithFormat.

(** [DELETE /api/marketplace-scan/{scan_id}] (lines 97-119). *)
Definition delete_pagination_scan (db : Db) (scan_id : nat)
  : Db * reply string :=
  match find (λ p, bool_decide (pgs_id p = scan_id))
             (marketplace_pagination_scans db) with
  | None => (db, reraise (RaisedHTTP 404 "Pagination scan not found"))
  | Some _ =>
      (set_marketplace_pagination_scans db
         (filter (λ p, pgs_id p ≠ scan_id) (marketplace_pagination_scans db)),
       Answered 200 "Pagination scan deleted")
  end.

(** [GET /api/marketplace-scan/posts/{scan_id}/status] (lines 146-164):
    the only handler is [except Exception]. *)
Definition get_post_scan_status (db : Db) (scan_id : nat)
  : reply (nat * string * ScanStatus) :=
  match find (Marketplace.has_id scan_id) (marketplace_post_scans db) with
  | None => mask (RaisedHTTP 404 "Post scan not found")
  | Some db_scan =>
      Answered 200 (mps_id db_scan, mps_scan_name db_scan, mps_status db_scan)
  end.

(** [POST /api/marketplace-scan/posts/enumerate] (lines 168-211).  The
    row gets the status [STOPPED]; [start_date] takes the column's
    default, the time of the insert. *)
Definition enumerate_posts (db : Db) (scan : MarketplacePostScanCreate)
  (now : datetime) : Db * reply string :=
  if existsb (λ s, bool_decide (mps_scan_name s = new_post_scan_name scan))
             (marketplace_post_scans db)
  then (db, reraise (RaisedHTTP 400 "Scan name already exists"))
  else
    match find (λ p, bool_decide (pgs_scan_name p
                                  = new_pagination_scan_name scan))
               (marketplace_pagination_scans db) with
    | None => (db, reraise (RaisedHTTP 404 "Pagination scan not found"))
    | Some _ =>
        match Marketplace.active_bots db with
        | [] => (db, reraise (RaisedHTTP 400 "No active bots available"))
        | _ :: _ =>
            let db_scan :=
              {| mps_id := next_id (mps_id <$> marketplace_post_scans db);
                 mps_scan_name := new_post_scan_name scan;
                 mps_pagination_scan_name := new_pagination_scan_name scan;
                 mps_start_date := Some now;
                 mps_completion_date := None;
                 mps_status := STOPPED |} in
            (Marketplace.set_marketplace_post_scans db
               (marketplace_post_scans db ++ [db_scan]),
             Answered 201 "Post scan created")
        end
    end.

(** [DELETE /api/marketplace-scan/posts/{scan_id}] (lines 383-405): the
    scan's row goes; no statement touches [marketplace_posts]. *)
Definition delete_post_scan (db : Db) (scan_id : nat) : Db * reply string :=
  match find (Marketplace.has_id scan_id) (marketplace_post_scans db) with
  | None => (db, reraise (RaisedHTTP 404 "Post scan not found"))
  | Some _ =>
      (Marketplace.set_marketplace_post_scans db
         (filter (λ s, mps_id s ≠ scan_id) (marketplace_post_scans db)),
       Answered 200 "Post scan deleted")
  end.

(** [GET /api/marketplace-scan/posts/{scan_id}/posts] (lines 409-431):
    again [except Exception] alone. *)
Definition get_scan_posts (db : Db) (scan_id : nat)
  : reply (list MarketplacePost) :=
  match find (Marketplace.has_id scan_id) (marketplace_post_scans db) with
  | None => mask (RaisedHTTP 404 "Post scan not found")
  | Some _ =>
      Answered 200 (filter (λ p, mp_scan_id p = scan_id) (marketplace_posts db))
  end.

(** Lines 334-343, and lines 408-426 of [app/routes/posts.py]:
    [for i, batch in enumerate(batch_queue)] gives batch [i] to
    [bots[i % len(bots)]].  [None] is the exception raised for an empty
    list of bots.  [assign_from] is the loop from index [i] on. *)
Fixpoint assign_from {B} (i : nat) (bots : list BotProfile)
  (batch_queue : list B) : option (list (BotProfile * B)) :=
  match batch_queue with
  | [] => Some []
  | batch :: rest =>
      bot ← (if decide (length bots = 0) then None
             else bots !! (i `mod` length bots));
      tasks ← assign_from (S i) bots rest;
      Some ((bot, batch) :: tasks)
  end.

Definition assign_bots {B} (bots : list BotProfile) (batch_queue : list B)
  : option (list (BotProfile * B)) :=
  if decide (length bots = 0) then None else assign_from 0 bots batch_queue.

(** The tasks given to the bot with a key. *)
Definition tasks_of {B} (bot_key : nat) (tasks : list (BotProfile * B))
  : list (BotProfile * B) :=
  filter (λ task, bot_id task.1 = bot_key) tasks.

End MarketRoutes.

(** A storage with one bot for listing scans and nothing else, and the
    two requests that set up a listing scan over twelve pages. *)
Module MarketScenarios.

Definition fresh_db : Db :=
  {| bot_profiles := [Scenarios.market_bot (Some "session=abc")]; apis := [];
     marketplace_pagination_scans := []; marketplace_post_scans := [];
     marketplace_posts := []; post_detail_scans := [];
     marketplace_post_details := [] |}.

Definition pages_request (max_page : Z)
  : MarketRoutes.MarketplacePaginationScanCreate :=
  {| MarketRoutes.new_scan_name := "pages";
     MarketRoutes.new_pagination_url := Scenarios.example_template;
     MarketRoutes.new_max_page := max_page |}.

Definition listing_request : MarketRoutes.MarketplacePostScanCreate :=
  {| MarketRoutes.new_post_scan_name := "listing";
     MarketRoutes.new_pagination_scan_name := "pages" |}.

Definition three_bots : list BotProfile :=
  (λ i, {| bot_id := i; bot_username := "bot" +:+ pretty i;
           bot_purpose := SCRAPE_MARKETPLACE;
           bot_tor_proxy := None; bot_user_agent := None;
           bot_session := Some "session=abc" |}) <$> [1; 2; 3].

End MarketScenarios.

(** ** The registered services ([app/routes/manage_api.py]) *)

Module ManageApi.
Import Routes.

(** A row of [apis] with all its columns but the timestamp. *)
Record ApiRow := {
  row_id : nat;
  row_name : string;
  row_provider : string;
  row_type : string;
  row_key : string;
  row_model : option string;
  row_max_tokens : option Z;
  row_prompt : option string;
  row_is_active : bool
}.

(** [DeepLCreateRequest] *)
Record DeepLCreateRequest := {
  deepl_api_name : string;
  deepl_api_key : string
}.

(** [IABCreateRequest] and [CaptchaCreateRequest], which have the same
    fields. *)
Record ModelCreateRequest := {
  mc_api_name : string;
  mc_api_key : string;
  mc_model : string;
  mc_max_tokens : Z;
  mc_prompt : string
}.

Record UpdateRequest := {
  up_api_name : string;
  up_api_key : string;
  up_model : option string;
  up_max_tokens : option Z;
  up_prompt : option string
}.

Definition set_active (active : bool) (r : ApiRow) : ApiRow :=
  {| row_id := row_id r; row_name := row_name r;
     row_provider := row_provider r; row_type := row_type r;
     row_key := row_key r; row_model := row_model r;
     row_max_tokens := row_max_tokens r; row_prompt := row_prompt r;
     row_is_active := active |}.

(** Lines 49-55: the two [UPDATE] statements, one after the other. *)
Definition set_active_api (rows : list ApiRow) (api_id : nat)
  (api_provider : string) : list ApiRow :=
  let rows1 :=
    (λ r, if decide (row_provider r = api_provider ∧ row_id r ≠ api_id)
          then set_active false r else r) <$> rows in
  (λ r, if decide (row_id r = api_id) then set_active true r else r)
  <$> rows1.

Definition has_id (api_id : nat) (r : ApiRow) : bool :=
  bool_decide (row_id r = api_id).

Section WithStr.

(** [str(e)] of what the body raised: every route of this file has the
    one handler [except Exception as e: raise HTTPException(status_code
    =500, detail=str(e))]. *)
Variable str : raised → string.

Definition fail {A} (e : raised) : reply A := Failed 500 (str e).

(** The three [create] routes (lines 59-136), which differ in the
    provider, the type and the columns they fill. *)
Definition create (api_provider api_type message : string)
  (api_name api_key : string) (model : option string)
  (max_tokens : option Z) (prompt : option string) (rows : list ApiRow)
  : list ApiRow * reply string :=
  if existsb (λ r, bool_decide (row_name r = api_name)) rows
  then (rows, fail (RaisedHTTP 400 "API name already exists"))
  else
    (rows ++ [{| row_id := next_id (row_id <$> rows); row_name := api_name;
                 row_provider := api_provider; row_type := api_type;
                 row_key := api_key; row_model := model;
                 row_max_tokens := max_tokens; row_prompt := prompt;
                 row_is_active := false |}],
     Answered 200 message).

Definition create_deepl_api (rows : list ApiRow) (request : DeepLCreateRequest)
  : list ApiRow * reply string :=
  create "deepl" "translation_api" "DeepL API created successfully"
    (deepl_api_name request) (deepl_api_key request) None None None rows.

Definition create_iab_api (rows : list ApiRow) (request : ModelCreateRequest)
  : list ApiRow * reply string :=
  create "anthropic" "iab_api" "IAB API created successfully"
    (mc_api_name request) (mc_api_key request) (Some (mc_model request))
    (Some (mc_max_tokens request)) (Some (mc_prompt request)) rows.

Definition create_captcha_api (rows : list ApiRow)
  (request : ModelCreateRequest) : list ApiRow * reply string :=
  create "openai" "captcha_api" "Captcha API created successfully"
    (mc_api_name request) (mc_api_key request) (Some (mc_model request))
    (Some (mc_max_tokens request)) (Some (mc_prompt request)) rows.

(** Lines 180-187: the assignments of [update_api]. *)
Definition updated (request : UpdateRequest) (r : ApiRow) : ApiRow :=
  {| row_id := row_id r; row_name := up_api_name request;
     row_provider := row_provider r; row_type := row_type r;
     row_key := up_api_key request;
     row_model := match up_model request with
                  | Some m => Some m
                  | None => row_model r
                  end;
     row_max_tokens := match up_max_tokens request with
                       | Some n => Some n
                       | None => row_max_tokens r
                       end;
     row_prompt := match up_prompt request with
                   | Some p => Some p
                   | None => row_prompt r
                   end;
     row_is_active := row_is_active r |}.

(** [PUT /api/manage-api/update/{api_id}] (lines 166-194). *)
Definition update_api (rows : list ApiRow) (api_id : nat)
  (request : UpdateRequest) : list ApiRow * reply string :=
  match find (has_id api_id) rows with
  | None => (rows, fail (RaisedHTTP 404 "API not found"))
  | Some _ =>
      if existsb (λ r, bool_decide (row_name r = up_api_name request
                                    ∧ row_id r ≠ api_id)) rows
      then (rows, fail (RaisedHTTP 400 "API name already exists"))
      else
        ((λ r, if has_id api_id r then updated request r else r) <$> rows,
         Answered 200 "API updated successfully")
  end.

(** [DELETE /api/manage-api/delete/{api_id}] (lines 198-210). *)
Definition delete_api (rows : list ApiRow) (api_id : nat)
  : list ApiRow * reply string :=
  match find (has_id api_id) rows with
  | None => (rows, fail (RaisedHTTP 404 "API not found"))
  | Some _ =>
      (filter (λ r, row_id r ≠ api_id) rows,
       Answered 200 "API deleted successfully")
  end.

(** [POST /api/manage-api/activate/{api_id}] (lines 214-225). *)
Definition activate_api (rows : list ApiRow) (api_id : nat)
  : list ApiRow * reply string :=
  match find (has_id api_id) rows with
  | None => (rows, fail (RaisedHTTP 404 "API not found"))
  | Some api =>
      (set_active_api rows api_id (row_provider api),
       Answered 200 (row_provider api +:+ " API activated successfully"))
  end.

(** [GET /api/manage-api/get/{api_id}] (lines 229-252). *)
Definition get_api (rows : list ApiRow) (api_id : nat) : reply ApiRow :=
  match find (has_id api_id) rows with
  | None => fail (RaisedHTTP 404 "API not found")
  | Some api => Answered 200 api
  end.

(** The requests that change the table. *)
Inductive request :=
  | CreateDeepl (r : DeepLCreateRequest)
  | CreateIab (r : ModelCreateRequest)
  | CreateCaptcha (r : ModelCreateRequest)
  | Update (api_id : nat) (r : UpdateRequest)
  | Delete (api_id : nat)
  | Activate (api_id : nat).

Definition handle (rows : list ApiRow) (req : request)
  : list ApiRow * reply string :=
  match req with
  | CreateDeepl r => create_deepl_api rows r
  | CreateIab r => create_iab_api rows r
  | CreateCaptcha r => create_captcha_api rows r
  | Update api_id r => update_api rows api_id r
  | Delete api_id => delete_api rows api_id
  | Activate api_id => activate_api rows api_id
  end.

(** The table after a sequence of requests on the empty table. *)
Definition run (requests : list request) : list ApiRow :=
  foldl (λ rows req, (handle rows req).1) [] requests.

End WithStr.

(** The columns of a row that the scans read. *)
Definition as_api (r : ApiRow) : APIs :=
  {| api_type := row_type r; api_key := row_key r;
     api_model := default "" (row_model r);
     api_prompt := default "" (row_prompt r);
     api_max_tokens := default 0%Z (row_max_tokens r);
     api_is_active := row_is_active r |}.

Definition with_apis (db : Db) (rows : list ApiRow) : Db :=
  {| bot_profiles := bot_profiles db; apis := as_api <$> rows;
     marketplace_pagination_scans := marketplace_pagination_scans db;
     marketplace_post_scans := marketplace_post_scans db;
     marketplace_posts := marketplace_posts db;
     post_detail_scans := post_detail_scans db;
     marketplace_post_details := marketplace_post_details db |}.

(** The rows of a type that are switched on. *)
Definition active_of_type (api_type : string) (rows : list ApiRow)
  : list ApiRow :=
  filter (λ r, row_type r = api_type ∧ row_is_active r = true) rows.

(** The rows of a provider that are switched on. *)
Definition active_of_provider (api_provider : string) (rows : list ApiRow)
  : list ApiRow :=
  filter (λ r, row_provider r = api_provider ∧ row_is_active r = true) rows.

(** The three kinds of rows the [create] routes write. *)
Definition typed (r : ApiRow) : Prop :=
  (row_provider r = "deepl" ∧ row_type r = "translation_api")
  ∨ (row_provider r = "anthropic" ∧ row_type r = "iab_api")
  ∨ (row_provider r = "openai" ∧ row_type r = "captcha_api").

(** What the routes keep true of the table: keys and names are not
    repeated (the primary key, and the unique index on [api_name]), every
    row is of one of the three kinds, and no provider has two rows
    switched on. *)
Definition consistent (rows : list ApiRow) : Prop :=
  NoDup (row_id <$> rows) ∧ NoDup (row_name <$> rows)
  ∧ Forall typed rows
  ∧ ∀ api_provider, length (active_of_provider api_provider rows) ≤ 1.

(** The requests that do not switch a service on. *)
Definition no_activation (req : request) : Prop :=
  match req with
  | Activate _ => False
  | _ => True
  end.

End ManageApi.

(** Two services registered and left as they are created. *)
Module ApiScenarios.

Definition register_two : list ManageApi.request :=
  [ManageApi.CreateDeepl
     {| ManageApi.deepl_api_name := "deepl-main";
        ManageApi.deepl_api_key := "deepl-key" |};
   ManageApi.CreateIab
     {| ManageApi.mc_api_name := "classifier";
        ManageApi.mc_api_key := "anthropic-key";
        ManageApi.mc_model := "claude-3-7-sonnet-20250219";
        ManageApi.mc_max_tokens := 100;
        ManageApi.mc_prompt := "Classify: TARGET-POST-PLACEHOLDER" |}].

Definition str_of (e : Routes.raised) : string :=
  match e with
  | Routes.RaisedHTTP _ detail => detail
  | Routes.RaisedOther => "error"
  end.

End ApiScenarios.

(** ** Bot profiles ([app/routes/bot_profile.py],
       [app/services/gen_random_ua.py]) *)

Module BotRoutes.
Import Routes.

(** [random.choice(seq)] with the index it draws; [None] for an index
    that cannot be drawn. *)
Definition choice {A} (k : nat) (seq : list A) : option A := seq !! k.

Definition os_options : list (string * list string) :=
  [("Windows NT", ["10.0"; "11.0"]);
   ("Macintosh; Intel Mac OS X", ["15_5"; "14_6"; "13_6"]);
   ("X11; Linux", ["x86_64"; "i686"]);
   ("X11; Ubuntu; Linux", ["x86_64"; "i686"])].

Definition versions : list string := ["140.0"; "141.0"; "142.0"; "143.0"].

(** [gen_desktop_ua()] with the three draws it makes. *)
Definition gen_desktop_ua (k1 k2 k3 : nat) : option string :=
  '(os_type, os_versions) ← choice k1 os_options;
  os_version ← choice k2 os_versions;
  let os_string :=
    if decide (os_type = "Windows NT")
    then os_type +:+ " " +:+ os_version +:+ "; Win64; x64"
    else if decide (os_type = "Macintosh; Intel Mac OS X")
    then os_type +:+ " " +:+ replace "_" "." os_version
    else os_type +:+ " " +:+ os_version in
  firefox_version ← choice k3 versions;
  Some ("Mozilla/5.0 (" +:+ os_string +:+ "; rv:" +:+ firefox_version
        +:+ ") Gecko/20100101 Firefox/" +:+ firefox_version).

(** The nine platforms a user agent can name, and the text for a
    platform and a browser version. *)
Definition platforms : list string :=
  ["Windows NT 10.0; Win64; x64"; "Windows NT 11.0; Win64; x64";
   "Macintosh; Intel Mac OS X 15.5"; "Macintosh; Intel Mac OS X 14.6";
   "Macintosh; Intel Mac OS X 13.6"; "X11; Linux x86_64"; "X11; Linux i686";
   "X11; Ubuntu; Linux x86_64"; "X11; Ubuntu; Linux i686"].

Definition user_agent_of (platform version : string) : string :=
  "Mozilla/5.0 (" +:+ platform +:+ "; rv:" +:+ version
  +:+ ") Gecko/20100101 Firefox/" +:+ version.

(** A row of [bot_profiles]: the columns the scans read, and the
    password. *)
Record BotRow := {
  row_password : string;
  row_bot : BotProfile
}.

(** A row of [onion_urls]. *)
Record OnionUrl := {
  onion_id : nat;
  onion_url : string;
  onion_timestamp : datetime
}.

Record BotProfileCreate := {
  c_username : string;
  c_password : string;
  c_purpose : string;
  c_tor_proxy : option string;
  c_session : option string
}.

Record BotProfileUpdate := {
  u_username : option string;
  u_password : option string;
  u_purpose : option string;
  u_tor_proxy : option string;
  u_user_agent : option string;
  u_session : option string
}.

(** [BotPurpose(value)]; [None] is the [ValueError] for a value that is
    not one of the three. *)
Definition purpose_of_value (value : string) : option BotPurpose :=
  if decide (value = "scrape_marketplace") then Some SCRAPE_MARKETPLACE
  else if decide (value = "scrape_post") then Some SCRAPE_POST
  else if decide (value = "scrape_profile") then Some SCRAPE_PROFILE
  else None.

(** The truth value of an optional text: [None] and [""] are falsy. *)
Definition truthy (o : option string) : bool :=
  match o with
  | Some (String _ _) => true
  | _ => false
  end.

Definition has_username (username : string) (r : BotRow) : bool :=
  bool_decide (bot_username (row_bot r) = username).

Definition has_id (profile_id : nat) (r : BotRow) : bool :=
  bool_decide (bot_id (row_bot r) = profile_id).

(** [GET /api/bot-profile/list], the entry [has_session] (line 55):
    [bool(p.session and len(p.session) > 0)]. *)
Definition has_session (r : BotRow) : bool := truthy (bot_session (row_bot r)).

(** [POST /api/bot-profile/create] (lines 68-90); [user_agent] is the
    value [gen_desktop_ua()] returned.  The only handler is [except
    Exception]. *)
Definition create_bot_profile (rows : list BotRow)
  (profile : BotProfileCreate) (user_agent : string)
  : list BotRow * reply string :=
  if existsb (has_username (c_username profile)) rows
  then (rows, mask (RaisedHTTP 400 "Username already exists"))
  else
    match purpose_of_value (c_purpose profile) with
    | None => (rows, mask RaisedOther)
    | Some purpose =>
        (rows ++
         [{| row_password := c_password profile;
             row_bot :=
               {| bot_id := next_id ((bot_id ∘ row_bot) <$> rows);
                  bot_username := c_username profile;
                  bot_purpose := purpose;
                  bot_tor_proxy := c_tor_proxy profile;
                  bot_user_agent := Some user_agent;
                  bot_session := c_session profile |} |}],
         Answered 200 "Bot profile created")
    end.

(** The assignments of lines 107-118, with the purpose already
    converted. *)
Definition updated (profile : BotProfileUpdate) (purpose : option BotPurpose)
  (r : BotRow) : BotRow :=
  let b := row_bot r in
  {| row_password := if truthy (u_password profile)
                     then default "" (u_password profile)
                     else row_password r;
     row_bot :=
       {| bot_id := bot_id b;
          bot_username := if truthy (u_username profile)
                          then default "" (u_username profile)
                          else bot_username b;
          bot_purpose := default (bot_purpose b) purpose;
          bot_tor_proxy := match u_tor_proxy profile with
                           | Some p => Some p
                           | None => bot_tor_proxy b
                           end;
          bot_user_agent := if truthy (u_user_agent profile)
                            then u_user_agent profile
                            else bot_user_agent b;
          bot_session := match u_session profile with
                         | Some s => Some s
                         | None => bot_session b
                         end |} |}.

(** [PUT /api/bot-profile/{profile_id}] (lines 95-127). *)
Definition update_bot_profile (rows : list BotRow) (profile_id : nat)
  (profile : BotProfileUpdate) : list BotRow * reply string :=
  match find (has_id profile_id) rows with
  | None => (rows, mask (RaisedHTTP 404 "Bot profile not found"))
  | Some db_profile =>
      if truthy (u_username profile)
         && negb (has_username (default "" (u_username profile)) db_profile)
         && existsb (has_username (default "" (u_username profile))) rows
      then (rows, mask (RaisedHTTP 400 "Username already exists"))
      else
        match (if truthy (u_purpose profile)
               then Some <$> purpose_of_value (default "" (u_purpose profile))
               else Some None) with
        | None => (rows, mask RaisedOther)
        | Some purpose =>
            ((λ r, if has_id profile_id r then updated profile purpose r
                   else r) <$> rows,
             Answered 200 "Bot profile updated")
        end
  end.

(** [DELETE /api/bot-profile/{profile_id}] (lines 132-146). *)
Definition delete_bot_profile (rows : list BotRow) (profile_id : nat)
  : list BotRow * reply string :=
  match find (has_id profile_id) rows with
  | None => (rows, mask (RaisedHTTP 404 "Bot profile not found"))
  | Some _ =>
      (filter (λ r, bot_id (row_bot r) ≠ profile_id) rows,
       Answered 200 "Bot profile deleted")
  end.

(** [order_by(OnionUrl.timestamp.desc()).first()]: a row with the
    greatest timestamp; among several of them the model takes the one
    added first. *)
Definition latest_onion_url (urls : list OnionUrl) : option OnionUrl :=
  foldl (λ best u,
           match best with
           | None => Some u
           | Some b =>
               if (onion_timestamp b <? onion_timestamp u)%Z then Some u
               else Some b
           end) None urls.

(** [GET /api/bot-profile/onion-url] (lines 151-157). *)
Definition get_onion_url (urls : list OnionUrl) : reply (option string) :=
  Answered 200 (onion_url <$> latest_onion_url urls).

(** [POST /api/bot-profile/onion-url] (lines 162-173): a row is added,
    none is ever changed or removed. *)
Definition set_onion_url (urls : list OnionUrl) (url : string)
  (now : datetime) : list OnionUrl * reply string :=
  (urls ++ [{| onion_id := next_id (onion_id <$> urls); onion_url := url;
               onion_timestamp := now |}],
   Answered 200 ".onion URL updated").

(** The bots as the scans see them. *)
Definition with_bots (db : Db) (rows : list BotRow) : Db :=
  {| bot_profiles := row_bot <$> rows; apis := apis db;
     marketplace_pagination_scans := marketplace_pagination_scans db;
     marketplace_post_scans := marketplace_post_scans db;
     marketplace_posts := marketplace_posts db;
     post_detail_scans := post_detail_scans db;
     marketplace_post_details := marketplace_post_details db |}.

Definition set_session (session : string) (r : BotRow) : BotRow :=
  let b := row_bot r in
  {| row_password := row_password r;
     row_bot :=
       {| bot_id := bot_id b; bot_username := bot_username b;
          bot_purpose := bot_purpose b; bot_tor_proxy := bot_tor_proxy b;
          bot_user_agent := bot_user_agent b;
          bot_session := Some session |} |}.

(** What the loop of [perform_bot_login] has done so far. *)
Record login_state := {
  ls_rows : list BotRow;
  success_count : nat;
  failed_logins : list string
}.

(** [session.cookies.get("session")]: no cookie of that name, its
    value, or the [CookieConflictError] for a jar that holds several. *)
Inductive cookie_lookup :=
  | NoCookie
  | Cookie (value : string)
  | CookieConflict.

(** What a call of [login_to_tor_website] comes to.  Its loop is left
    only by a [return]: the call returns [None], or the session with its
    cookie jar, or it goes round for ever. *)
Inductive login_result :=
  | NeverReturns
  | Returned (session : option cookie_lookup).

(** How the loop over the profiles stops in front of its end: a turn
    never ends, or it raises. *)
Inductive loop_stop :=
  | Hangs
  | Raises.

Section WithLogin.

(** [login_to_tor_website(...)] for a profile. *)
Variable login : BotRow → login_result.

(** The cookie a profile ends up with: the login is tried when the
    profile has a proxy, and counts when the session comes back with a
    cookie that is not empty. *)
Definition logs_in (profile : BotRow) : option string :=
  if truthy (bot_tor_proxy (row_bot profile))
  then match login profile with
       | Returned (Some (Cookie (String c cookie))) => Some (String c cookie)
       | _ => None
       end
  else None.

(** Whether, and how, the loop stops at a profile: the profile has a
    proxy, and its login does not return, or the lookup of the cookie
    raises. *)
Definition stops (profile : BotRow) : option loop_stop :=
  if truthy (bot_tor_proxy (row_bot profile))
  then match login profile with
       | NeverReturns => Some Hangs
       | Returned (Some CookieConflict) => Some Raises
       | Returned _ => None
       end
  else None.

Definition after_login (profile : BotRow) : BotRow :=
  match logs_in profile with
  | Some cookie => set_session (SessionCookie.stored_session cookie) profile
  | None => profile
  end.

(** What the turn of [profile] does to a row [r] of the table. *)
Definition login_step (profile r : BotRow) : BotRow :=
  if has_id (bot_id (row_bot profile)) r
  then match logs_in profile with
       | Some cookie => set_session (SessionCookie.stored_session cookie) r
       | None => r
       end
  else r.

(** One turn of the loop of lines 200-227, or how the loop stops in it.
    A session that is stored is committed in the turn. *)
Definition login_one (st : login_state) (profile : BotRow)
  : loop_stop + login_state :=
  let username := bot_username (row_bot profile) in
  if negb (truthy (bot_tor_proxy (row_bot profile)))
  then inr {| ls_rows := ls_rows st; success_count := success_count st;
              failed_logins :=
                failed_logins st ++ [username +:+ ": No tor proxy set"] |}
  else
    match login profile with
    | NeverReturns => inl Hangs
    | Returned (Some CookieConflict) => inl Raises
    | Returned (Some (Cookie (String c cookie))) =>
        inr {| ls_rows :=
                 (λ r, if has_id (bot_id (row_bot profile)) r
                       then set_session
                              (SessionCookie.stored_session
                                 (String c cookie)) r
                       else r) <$> ls_rows st;
               success_count := S (success_count st);
               failed_logins := failed_logins st |}
    | Returned _ =>
        inr {| ls_rows := ls_rows st; success_count := success_count st;
               failed_logins :=
                 failed_logins st ++ [username +:+ ": Login failed"] |}
    end.

(** The loop over the profiles: the state when it ends, or the state in
    which the turn began that stopped it. *)
Fixpoint login_loop (st : login_state) (profiles : list BotRow)
  : login_state * option loop_stop :=
  match profiles with
  | [] => (st, None)
  | profile :: rest =>
      match login_one st profile with
      | inr st' => login_loop st' rest
      | inl stop => (st, Some stop)
      end
  end.

(** [POST /api/bot-profile/perform-login] (lines 178-250).
    [captcha_api]: whether an active API of type [captcha_api] is
    registered.  The answer carries the flash category.  There is no
    answer ([None]) when a login does not return, and an exception in a
    turn is answered by the last handler; the table then holds what the
    turns before committed. *)
Definition perform_bot_login (rows : list BotRow) (urls : list OnionUrl)
  (captcha_api : bool)
  : list BotRow * option (reply (nat * list string * string)) :=
  match latest_onion_url urls with
  | None => (rows, Some (reraise (RaisedHTTP 400 "No .onion URL set")))
  | Some _ =>
      if negb captcha_api
      then (rows,
            Some (reraise (RaisedHTTP 400 "No active CAPTCHA API found")))
      else
        match rows with
        | [] => (rows, Some (reraise (RaisedHTTP 400 "No bot profiles found")))
        | _ :: _ =>
            let '(st, stop) :=
              login_loop
                {| ls_rows := rows; success_count := 0;
                   failed_logins := [] |} rows in
            (ls_rows st,
             match stop with
             | None =>
                 Some (Answered 200
                         (success_count st, failed_logins st,
                          if 0 <? success_count st then "success"
                          else "error"))
             | Some Hangs => None
             | Some Raises => Some (reraise RaisedOther)
             end)
        end
  end.

(** The requests that change [bot_profiles]. *)
Inductive request :=
  | Create (profile : BotProfileCreate) (user_agent : string)
  | Update (profile_id : nat) (profile : BotProfileUpdate)
  | Delete (profile_id : nat)
  | PerformLogin (urls : list OnionUrl) (captcha_api : bool).

Definition handle (rows : list BotRow) (req : request) : list BotRow :=
  match req with
  | Create profile user_agent => (create_bot_profile rows profile user_agent).1
  | Update profile_id profile => (update_bot_profile rows profile_id profile).1
  | Delete profile_id => (delete_bot_profile rows profile_id).1
  | PerformLogin urls captcha_api => (perform_bot_login rows urls captcha_api).1
  end.

Definition run (requests : list request) : list BotRow :=
  foldl handle [] requests.

End WithLogin.

(** The primary key and the unique index on [username]. *)
Definition consistent (rows : list BotRow) : Prop :=
  NoDup ((bot_id ∘ row_bot) <$> rows)
  ∧ NoDup ((bot_username ∘ row_bot) <$> rows).

End BotRoutes.

(** Bots and logins for the scenarios: a bot for listing scans that was
    registered with an empty session, and a forum that lets the first of
    three bots in. *)
Module BotScenarios.

Definition empty_session_request : BotRoutes.BotProfileCreate :=
  {| BotRoutes.c_username := "harvester";
     BotRoutes.c_password := "pass123";
     BotRoutes.c_purpose := "scrape_marketplace";
     BotRoutes.c_tor_proxy := Some "socks5h://127.0.0.1:49075";
     BotRoutes.c_session := Some "" |}.

Definition three_rows : list BotRoutes.BotRow :=
  (λ b, {| BotRoutes.row_password := "pass123"; BotRoutes.row_bot := b |})
  <$> [Scenarios.market_bot None; Scenarios.post_bot;
       {| bot_id := 3; bot_username := "watcher";
          bot_purpose := SCRAPE_PROFILE; bot_tor_proxy := None;
          bot_user_agent := None; bot_session := None |}].

Definition one_login (profile : BotRoutes.BotRow) : BotRoutes.login_result :=
  if decide (bot_username (BotRoutes.row_bot profile) = "harvester")
  then BotRoutes.Returned (Some (BotRoutes.Cookie "eyJ1c2VyIjoxfQ==.aH1ifQ.sig"))
  else BotRoutes.Returned None.

(** The same forum when the proxy of the second bot is dead: every turn
    of its login fails. *)
Definition dead_proxy_login (profile : BotRoutes.BotRow)
  : BotRoutes.login_result :=
  if decide (bot_username (BotRoutes.row_bot profile) = "harvester")
  then BotRoutes.Returned (Some (BotRoutes.Cookie "eyJ1c2VyIjoxfQ==.aH1ifQ.sig"))
  else BotRoutes.NeverReturns.

Definition one_url : list BotRoutes.OnionUrl :=
  [{| BotRoutes.onion_id := 1;
      BotRoutes.onion_url := "http://forum.onion/login";
      BotRoutes.onion_timestamp := 10%Z |}].

End BotScenarios.

(** ** Tor proxies ([app/services/tor_proxy_gen.py],
       [app/services/container_status.py], [app/services/rm_container.py],
       [app/routes/proxy_gen.py]) *)

Module TorProxy.
Import PyStr Routes.

Definition MAX_PORT_ATTEMPTS : nat := 100.
Definition WAIT_MAX_SECONDS : Z := 60.

(** An exception with the text [str(e)] gives for it: a [RuntimeError]
    the module raises itself, or any other [Exception]. *)
Inductive exn :=
  | RuntimeError (msg : string)
  | OtherError (msg : string).

Definition str (e : exn) : string :=
  match e with
  | RuntimeError msg => msg
  | OtherError msg => msg
  end.

(** How a call ends: with a value, with an exception, or with the
    [SystemExit] of [die], which is no [Exception]. *)
Inductive outcome (A : Type) :=
  | Returned (a : A)
  | Raised (e : exn)
  | Exited (code : nat).
Arguments Returned {A} _.
Arguments Raised {A} _.
Arguments Exited {A} _.

(** [die(msg)]: [sys.exit(1)]. *)
Definition die {A} : outcome A := Exited 1.

(** [random_free_port()] (lines 69-76).  [attempts i] is the port that
    [random.randint(PORT_MIN, PORT_MAX)] gives at the draw numbered [i],
    and what [is_port_free] answers for it. *)
Fixpoint draw_ports (attempts : nat → Z * bool) (i n : nat) : option Z :=
  match n with
  | 0 => None
  | S n' =>
      let '(p, free) := attempts i in
      if free then Some p else draw_ports attempts (S i) n'
  end.

Definition random_free_port (attempts : nat → Z * bool) : outcome Z :=
  match draw_ports attempts 0 MAX_PORT_ATTEMPTS with
  | Some p => Returned p
  | None => die
  end.

(** [random_container_name()] with the six letters it draws. *)
Definition random_container_name (letters : string) : string :=
  "torproxy_" +:+ letters.

(** What [requests.get] does for one service: a response with its text,
    a [requests.RequestException], or another exception. *)
Inductive http_result :=
  | Text (body : string)
  | RequestException
  | OtherException (msg : string).

Definition services : list string :=
  ["https://checkip.amazonaws.com"; "https://icanhazip.com";
   "https://api.ipify.org"].

(** The loop of [fetch_tor_exit_ip] (lines 108-119). *)
Fixpoint first_ip (get : string → http_result) (urls : list string)
  : outcome string :=
  match urls with
  | [] => Raised (RuntimeError "All exit-IP lookup services failed via Tor")
  | url :: rest =>
      match get url with
      | Text body =>
          let ip := strip body in
          if decide (ip = "") then first_ip get rest else Returned ip
      | RequestException => first_ip get rest
      | OtherException msg => Raised (OtherError msg)
      end
  end.

Definition fetch_tor_exit_ip (get : string → http_result) : outcome string :=
  first_ip get services.

(** A service that is passed over: it raised a [RequestException], or
    its text is blank. *)
Definition passed_over (get : string → http_result) (url : string) : Prop :=
  get url = RequestException ∨ ∃ body, get url = Text body ∧ strip body = "".

(** The commands on containers that are run, in order. *)
Inductive command :=
  | ComposeUp (container_name : string) (host_port : Z)
  | Inspect (container_name : string)
  | Remove (container_name : string).

#[global] Instance command_eq_dec : EqDecision command.
Proof. solve_decision. Defined.

(** A computation that runs commands and ends in an [outcome]. *)
Definition M (A : Type) : Type := outcome A * list command.

Definition ret {A} (a : A) : M A := (Returned a, []).

Definition bind {A B} (m : M A) (f : A → M B) : M B :=
  match m with
  | (Returned a, log) => let '(o, log') := f a in (o, log ++ log')
  | (Raised e, log) => (Raised e, log)
  | (Exited code, log) => (Exited code, log)
  end.

Notation "x <- m ;; f" := (bind m (λ x, f))
  (at level 100, m at next level, right associativity).

Definition run (c : command) : M unit := (Returned (), [c]).
Definition raise {A} (e : exn) : M A := (Raised e, []).
Definition lift {A} (o : outcome A) : M A := (o, []).

(** What the host does for one call of [create_and_start_proxy]. *)
Record Host := {
  (** [cmd_exists("docker")] and [docker_compose_available()] *)
  docker_found : bool;
  compose_found : bool;
  (** the letters of the container name and the draws of ports *)
  letters : string;
  attempts : nat → Z * bool;
  (** the text of the error when the build directory cannot be written *)
  write_error : option string;
  (** the text of the [RuntimeError] made from the [CalledProcessError]
      of [docker compose up], when it fails *)
  compose_error : option string;
  (** whether the port opens before [wait_for_port] gives up *)
  port_opens : bool;
  (** [docker inspect]: its output, or the text of its error *)
  inspect_output : string + string;
  get : string → http_result;
  (** [int(time.time())] *)
  clock : Z
}.

(** The dictionary [create_and_start_proxy] returns. *)
Record ProxyInfo := {
  info_container_name : string;
  info_container_ip : string;
  info_tor_exit_node : string;
  info_timestamp : Z
}.

(** [wait_for_port("127.0.0.1", host_port, WAIT_MAX_SECONDS)], by whether
    the port opens in time. *)
Definition wait_for_port (opens : bool) (host_port : Z) : M unit :=
  if opens then ret ()
  else raise (RuntimeError ("Port 127.0.0.1:" +:+ pretty host_port
                            +:+ " did not open within "
                            +:+ pretty WAIT_MAX_SECONDS +:+ "s")).

(** The body of the [try] of [create_and_start_proxy] (lines 158-209). *)
Definition start_proxy (h : Host) (container_name : string) (host_port : Z)
  : M ProxyInfo :=
  _ <- match write_error h with
       | Some msg => raise (OtherError msg)
       | None => ret ()
       end;;
  _ <- run (ComposeUp container_name host_port);;
  _ <- match compose_error h with
       | Some msg => raise (RuntimeError msg)
       | None => ret ()
       end;;
  _ <- wait_for_port (port_opens h) host_port;;
  _ <- run (Inspect container_name);;
  out <- match inspect_output h with
         | inl msg => raise (OtherError msg)
         | inr out => ret out
         end;;
  let container_ip := strip out in
  _ <- (if decide (container_ip = "")
        then raise (RuntimeError "No container IP returned")
        else ret ());;
  exit_ip <- lift (fetch_tor_exit_ip (get h));;
  ret {| info_container_name := container_name;
         info_container_ip := container_ip +:+ ":" +:+ pretty host_port;
         info_tor_exit_node := exit_ip;
         info_timestamp := clock h |}.

(** The [finally] (lines 211-218): [success] is set only in front of the
    [return]. *)
Definition finally_remove {A} (container_name : string) (m : M A) : M A :=
  let '(o, log) := m in
  let success := match o with Returned _ => true | _ => false end in
  if negb success && negb (bool_decide (container_name = ""))
  then (o, log ++ [Remove container_name])
  else (o, log).

(** [create_and_start_proxy()] (lines 146-218). *)
Definition create_and_start_proxy (h : Host) : M ProxyInfo :=
  if negb (docker_found h) then lift die
  else if negb (compose_found h) then lift die
  else
    let container_name := random_container_name (letters h) in
    host_port <- lift (random_free_port (attempts h));;
    finally_remove container_name (start_proxy h container_name host_port).

(** What [subprocess] does with a command: it runs to exit status 0 and
    prints [out]; it runs to another exit status, which is the
    [CalledProcessError] the two functions below catch; or it does not
    run, which is another exception with its text (the
    [FileNotFoundError] for a missing [sudo]) that they do not catch. *)
Inductive run_result :=
  | Exit0 (out : string)
  | ExitNonzero
  | NotStarted (msg : string).

(** [container_running(name)] ([container_status.py], lines 10-20), from
    what [docker inspect] does; [inl] is the text of the exception it
    lets through. *)
Definition container_running (inspect : string → run_result)
    (name : string) : string + bool :=
  match inspect name with
  | Exit0 out => inr (bool_decide (lower (strip out) = "true"))
  | ExitNonzero => inr false
  | NotStarted msg => inl msg
  end.

(** [delete_container(name)] ([rm_container.py], lines 9-20), from what
    [docker rm -f] does. *)
Definition delete_container (rm : string → run_result) (name : string)
  : string + bool :=
  match rm name with
  | Exit0 _ => inr true
  | ExitNonzero => inr false
  | NotStarted msg => inl msg
  end.

(** A row of [proxies]. *)
Record Proxy := {
  id : nat;
  container_name : string;
  container_ip : string;
  tor_exit_node : string;
  timestamp : Z;
  running : bool
}.

Definition has_name (name : string) (p : Proxy) : bool :=
  bool_decide (container_name p = name).

Definition set_running (value : bool) (p : Proxy) : Proxy :=
  {| id := id p; container_name := container_name p;
     container_ip := container_ip p; tor_exit_node := tor_exit_node p;
     timestamp := timestamp p; running := value |}.

(** An entry of [request.session["messages"]]. *)
Record Message := { category : string; text : string }.

Section WithStr.

(** [str(e)] for the [IntegrityError] of the unique column
    [container_name], and for an [HTTPException]. *)
Variable integrity_error : string.
Variable str_http : nat → string → string.

(** [POST /api/proxy-gen/create] (lines 22-52).  The handler is [except
    Exception]; a [SystemExit] is not caught by it. *)
Definition create_proxy (proxies : list Proxy) (h : Host)
  : list Proxy * outcome (reply Proxy) * list command :=
  let '(o, log) := create_and_start_proxy h in
  match o with
  | Returned proxy_data =>
      if existsb (has_name (info_container_name proxy_data)) proxies
      then (proxies,
            Returned (Failed 500 ("Failed to create proxy: "
                                  +:+ integrity_error)), log)
      else
        let proxy := {| id := next_id (id <$> proxies);
                        container_name := info_container_name proxy_data;
                        container_ip := info_container_ip proxy_data;
                        tor_exit_node := info_tor_exit_node proxy_data;
                        timestamp := info_timestamp proxy_data;
                        running := true |} in
        (proxies ++ [proxy], Returned (Answered 200 proxy), log)
  | Raised e =>
      (proxies, Returned (Failed 500 ("Failed to create proxy: " +:+ str e)),
       log)
  | Exited code => (proxies, Exited code, log)
  end.

(** [DELETE /api/proxy-gen/delete/{container_name}] (lines 55-89), with
    the messages of the session.  The last component tells whether
    [delete_container] was called.  An exception that [delete_container]
    lets through reaches the handler of line 84 like the two
    [HTTPException]s of the body, but without a message of its own. *)
Definition delete_proxy (proxies : list Proxy) (messages : list Message)
    (name : string) (rm : string → run_result)
  : list Proxy * list Message * reply string * bool :=
  let failed status_code detail :=
    "Failed to delete proxy: " +:+ str_http status_code detail in
  match List.find (has_name name) proxies with
  | None =>
      (proxies,
       messages ++ [{| category := "error"; text := "Proxy not found" |};
                    {| category := "error";
                       text := failed 404 "Proxy not found" |}],
       Failed 500 (failed 404 "Proxy not found"), false)
  | Some proxy =>
      match delete_container rm name with
      | inr true =>
          let done := "Proxy " +:+ name +:+ " deleted successfully" in
          (filter (λ p, id p ≠ id proxy) proxies,
           messages ++ [{| category := "success"; text := done |}],
           Answered 200 done, true)
      | inr false =>
          (proxies,
           messages ++ [{| category := "error";
                           text := "Failed to delete proxy" |};
                        {| category := "error";
                           text := failed 500 "Failed to delete proxy" |}],
           Failed 500 (failed 500 "Failed to delete proxy"), true)
      | inl msg =>
          (proxies,
           messages ++ [{| category := "error";
                           text := "Failed to delete proxy: " +:+ msg |}],
           Failed 500 ("Failed to delete proxy: " +:+ msg), true)
      end
  end.

End WithStr.

(** Lines 100-102: the row is written, and committed, when its flag
    differs from the state of the container. *)
Definition sync_running (now_running : bool) (proxy : Proxy) : Proxy :=
  if bool_decide (running proxy ≠ now_running)
  then set_running now_running proxy
  else proxy.

(** The loop of lines 98-110: the rows when it ends, or when
    [container_running] raises, with the text of the exception.  The
    rows in front of the one at which it raises are committed. *)
Fixpoint sync_all (inspect : string → run_result) (proxies : list Proxy)
  : list Proxy * option string :=
  match proxies with
  | [] => ([], None)
  | proxy :: rest =>
      match container_running inspect (container_name proxy) with
      | inl msg => (proxy :: rest, Some msg)
      | inr now_running =>
          let '(rest', raised) := sync_all inspect rest in
          (sync_running now_running proxy :: rest', raised)
      end
  end.

(** [GET /api/proxy-gen/list] (lines 92-115): the rows after it, and the
    list it answers. *)
Definition list_proxies (proxies : list Proxy)
    (inspect : string → run_result) : list Proxy * reply (list Proxy) :=
  let '(proxies', raised) := sync_all inspect proxies in
  match raised with
  | None => (proxies', Answered 200 proxies')
  | Some msg => (proxies', Failed 500 ("Internal server error: " +:+ msg))
  end.

(** The row after its turn of the loop. *)
Definition synced (inspect : string → run_result) (proxy : Proxy) : Proxy :=
  match container_running inspect (container_name proxy) with
  | inl _ => proxy
  | inr now_running => sync_running now_running proxy
  end.

(** Whether [docker inspect] cannot be run for the container of a
    row. *)
Definition raises (inspect : string → run_result) (proxy : Proxy) : Prop :=
  ∃ msg, inspect (container_name proxy) = NotStarted msg.

End TorProxy.

(** A host on which everything works at the third draw of a port, and
    hosts on which one step fails. *)
Module ProxyScenarios.
Import TorProxy.

Definition good_host : Host :=
  {| docker_found := true; compose_found := true;
     letters := "abcdef";
     attempts := λ i, if decide (i < 2) then (40001%Z, false)
                      else (45000%Z, true);
     write_error := None; compose_error := None; port_opens := true;
     inspect_output := inr ("172.18.0.2" +:+ String "010"%char "");
     get := λ url, if decide (url = "https://checkip.amazonaws.com")
                   then RequestException
                   else Text ("185.220.101.1" +:+ String "010"%char "");
     clock := 1700000000 |}.

Definition one_proxy : list Proxy :=
  [{| id := 1; container_name := "torproxy_abcdef";
      container_ip := "172.18.0.2:45000"; tor_exit_node := "185.220.101.1";
      timestamp := 1700000000; running := true |}].

End ProxyScenarios.

(** * Part II: properties *)

(** Arithmetic with [/] and [mod], read through their defining
    equations. *)
Ltac div_lia := zify; Z.to_euclidean_division_equations; lia.
Ltac div_nia := zify; Z.to_euclidean_division_equations; nia.

(** ** Dictionaries *)

Section DictFacts.
Context {V : Type}.
Implicit Types (d : dict V) (k : string) (v : V).

Lemma dict_set_fresh k v d :
  k ∉ keys d → dict_set k v d = d ++ [(k, v)].
Proof.
  induction d as [|[k' v'] d IH]; simpl; [done|].
  intros [Hne Hk]%not_elem_of_cons.
  rewrite decide_False by done. by rewrite IH.
Qed.

Lemma keys_dict_set k k0 v d :
  k0 ∈ keys (dict_set k v d) ↔ k0 = k ∨ k0 ∈ keys d.
Proof.
  induction d as [|[k' v'] d IH]; simpl.
  - rewrite list_elem_of_singleton, elem_of_nil. naive_solver.
  - destruct (decide (k = k')) as [->|Hne]; simpl;
      rewrite !elem_of_cons; [|rewrite IH]; naive_solver.
Qed.

Lemma dict_set_NoDup k v d : NoDup (keys d) → NoDup (keys (dict_set k v d)).
Proof.
  induction d as [|[k' v'] d IH]; simpl; intros Hnd.
  - apply NoDup_singleton.
  - apply NoDup_cons in Hnd as [Hk' Hnd].
    destruct (decide (k = k')) as [->|Hne]; simpl.
    + by apply NoDup_cons.
    + apply NoDup_cons. split; [|by apply IH].
      rewrite keys_dict_set. naive_solver.
Qed.

Lemma dict_get_set_eq k v d : dict_get k (dict_set k v d) = Some v.
Proof.
  induction d as [|[k' v'] d IH]; simpl.
  - by rewrite decide_True.
  - destruct (decide (k = k')) as [->|Hne]; simpl.
    + by rewrite decide_True.
    + by rewrite decide_False.
Qed.

Lemma dict_get_set_ne k k0 v d :
  k0 ≠ k → dict_get k0 (dict_set k v d) = dict_get k0 d.
Proof.
  intros Hne. induction d as [|[k' v'] d IH]; simpl.
  - by rewrite decide_False.
  - destruct (decide (k = k')) as [->|Hne']; simpl.
    + by rewrite !decide_False.
    + destruct (decide (k0 = k')); [done|apply IH].
Qed.

Lemma dict_get_Some_elem k v d : dict_get k d = Some v → (k, v) ∈ d.
Proof.
  induction d as [|[k' v'] d IH]; simpl; [done|].
  destruct (decide (k = k')) as [->|Hne].
  - intros [= ->]. left.
  - intros H. right. by apply IH.
Qed.

Lemma dict_get_None k d : dict_get k d = None ↔ k ∉ keys d.
Proof.
  induction d as [|[k' v'] d IH]; simpl.
  - split; [intros _; apply not_elem_of_nil|done].
  - destruct (decide (k = k')) as [->|Hne].
    + split; [done|]. intros H. exfalso. apply H. left.
    + rewrite IH, not_elem_of_cons. naive_solver.
Qed.

Lemma dict_get_NoDup_elem k v d :
  NoDup (keys d) → (k, v) ∈ d → dict_get k d = Some v.
Proof.
  induction d as [|[k' v'] d IH]; simpl; intros Hnd Hin.
  - by apply elem_of_nil in Hin.
  - apply NoDup_cons in Hnd as [Hk' Hnd].
    apply elem_of_cons in Hin as [[= <- <-]|Hin].
    + by rewrite decide_True.
    + destruct (decide (k = k')) as [->|Hne]; [|by apply IH].
      exfalso. apply Hk'. by apply (list_elem_of_fmap_2 fst _ (k', v)).
Qed.

(** Filling a dictionary under keys that are new and pairwise distinct
    appends the items in order. *)
Lemma foldl_dict_set_fresh {I} (kf : I → string) (vf : I → V) (l : list I) d :
  NoDup (keys d ++ (kf <$> l)) →
  foldl (λ acc i, dict_set (kf i) (vf i) acc) d l
  = d ++ ((λ i, (kf i, vf i)) <$> l).
Proof.
  revert d. induction l as [|i l IH]; intros d Hnd; simpl.
  - by rewrite app_nil_r.
  - assert (kf i ∉ keys d) as Hfresh.
    { apply NoDup_app in Hnd as (_ & Hdisj & _).
      intros Hin. apply (Hdisj _ Hin). left. }
    rewrite dict_set_fresh by done.
    rewrite IH.
    + by rewrite <- app_assoc.
    + unfold keys in *. rewrite fmap_app. simpl.
      rewrite <- app_assoc. simpl.
      by rewrite fmap_cons in Hnd.
Qed.

End DictFacts.

(** ** Pagination *)

Section PaginationFacts.
Import Pagination.

Lemma div_up_small step : 0 < step → (0 + step - 1) `div` step = 0.
Proof. intros. apply Nat.div_small. lia. Qed.

Lemma div_up_step a step :
  0 < step → 0 < a →
  (a + step - 1) `div` step = S ((a - step + step - 1) `div` step).
Proof.
  intros Hstep Ha. destruct (decide (step ≤ a)) as [Hle|Hgt].
  - replace (a + step - 1) with ((a - step + step - 1) + 1 * step) by lia.
    rewrite Nat.div_add by lia. lia.
  - replace (a - step) with 0 by lia. rewrite div_up_small by done.
    replace (a + step - 1) with ((a - 1) + 1 * step) by lia.
    rewrite Nat.div_add by lia. rewrite Nat.div_small by lia. done.
Qed.

Lemma range_from_spec fuel i stop step :
  0 < step → stop ≤ i + fuel →
  range_from fuel i stop step
  = (λ k, i + k * step) <$> seq 0 ((stop - i + step - 1) `div` step).
Proof.
  intros Hstep. revert i. induction fuel as [|fuel IH]; intros i Hfuel; simpl.
  - replace (stop - i) with 0 by lia. by rewrite div_up_small.
  - destruct (Nat.ltb_spec i stop) as [Hlt|Hge].
    + rewrite IH by lia.
      rewrite (div_up_step (stop - i)) by lia.
      replace (stop - i - step) with (stop - (i + step)) by lia.
      simpl. f_equal; [lia|].
      rewrite <- fmap_S_seq, <- list_fmap_compose.
      apply list_fmap_ext. intros _ k _. simpl. lia.
    + replace (stop - i) with 0 by lia. by rewrite div_up_small.
Qed.

Lemma py_range_spec stop step :
  0 < step →
  py_range stop step
  = (λ k, k * step) <$> seq 0 ((stop + step - 1) `div` step).
Proof.
  intros Hstep. unfold py_range. rewrite range_from_spec by lia.
  by rewrite Nat.sub_0_r.
Qed.

Lemma range_down_from_spec fuel page :
  (page ≤ Z.of_nat fuel)%Z →
  range_down_from fuel page
  = (λ i : nat, (page - Z.of_nat i)%Z) <$> seq 0 (Z.to_nat page).
Proof.
  revert page. induction fuel as [|fuel IH]; intros page Hfuel; simpl.
  - by replace (Z.to_nat page) with 0 by lia.
  - destruct (Z.ltb_spec 0 page) as [Hpos|Hneg].
    + rewrite IH by lia.
      replace (Z.to_nat page) with (S (Z.to_nat (page - 1))) by lia.
      simpl. f_equal; [lia|].
      rewrite <- fmap_S_seq, <- list_fmap_compose.
      apply list_fmap_ext. intros _ k _. simpl. lia.
    + by replace (Z.to_nat page) with 0 by lia.
Qed.

Lemma py_range_down_spec max_page :
  py_range_down max_page
  = (λ i : nat, (max_page - Z.of_nat i)%Z) <$> seq 0 (Z.to_nat max_page).
Proof. apply range_down_from_spec. lia. Qed.

Example pages_down_5 : pages_down 5 = [5; 4; 3; 2; 1]%Z.
Proof. reflexivity. Qed.

Lemma pages_down_lookup max_page (i : nat) :
  (Z.of_nat i < max_page)%Z →
  pages_down max_page !! i = Some (max_page - Z.of_nat i)%Z.
Proof.
  intros Hi. unfold pages_down. rewrite list_lookup_fmap.
  rewrite lookup_seq_lt by lia. done.
Qed.

(** Cutting a list into slices of [n] and joining them gives it back. *)
Lemma concat_slices {A} (n c : nat) (l : list A) :
  length l ≤ c * n →
  concat ((λ k, take n (drop (k * n) l)) <$> seq 0 c) = l.
Proof.
  revert l. induction c as [|c IH]; intros l Hlen; simpl.
  - destruct l; simpl in *; [done|lia].
  - rewrite <- fmap_S_seq, <- list_fmap_compose.
    transitivity (take n l ++ drop n l); [|apply take_drop]. f_equal.
    rewrite <- (IH (drop n l)) by (rewrite length_drop; lia).
    f_equal. apply list_fmap_ext. intros _ k _. simpl.
    rewrite drop_drop. do 2 f_equal; lia.
Qed.

#[local] Instance pretty_S_inj : Inj (=) (=) (λ k : nat, pretty (S k)).
Proof. intros k1 k2 Heq. apply (inj pretty) in Heq. lia. Qed.

(** The dictionary built by the comprehension of line 21. *)
Lemma batches_spec (all_urls : list string) :
  foldl (λ batches i,
           dict_set (pretty (i `div` batch_size + 1))
                    (slice i (i + batch_size) all_urls) batches)
        [] (py_range (length all_urls) batch_size)
  = (λ k, (pretty (S k), take 10 (drop (k * 10) all_urls)))
    <$> seq 0 ((length all_urls + 9) `div` 10).
Proof.
  unfold batch_size. rewrite py_range_spec by lia.
  replace (length all_urls + 10 - 1) with (length all_urls + 9) by lia.
  rewrite (foldl_dict_set_fresh
             (λ i, pretty (i `div` 10 + 1))
             (λ i, slice i (i + 10) all_urls)).
  - rewrite app_nil_l, <- list_fmap_compose.
    apply list_fmap_ext. intros _ k _. unfold compose, slice.
    rewrite Nat.div_mul by lia.
    f_equal; [f_equal; lia|]. f_equal. lia.
  - unfold keys. rewrite fmap_nil, app_nil_l, <- list_fmap_compose.
    rewrite (list_fmap_ext _ (λ k, pretty (S k)) (seq 0 _)).
    + apply (NoDup_fmap_2 _), NoDup_seq.
    + intros _ k _. unfold compose. rewrite Nat.div_mul by lia.
      f_equal. lia.
Qed.

End PaginationFacts.

Section PaginationClaim.
Import Pagination Scenarios.

(** C5.  For every template and every [max_page] below 1,
    [create_pagination_batches] returns the empty dictionary and no
    error, whatever the formatter would do.  For [max_page >= 1] and a
    template that the formatter accepts, [all_urls] being the URLs of the
    pages [max_page, max_page - 1, ..., 1] in this order, the function
    returns a dictionary [batches] such that: the number of batches is
    [ceil(max_page / 10)], that is [(max_page + 9) / 10], the one [n]
    with [10 * (n - 1) < max_page <= 10 * n]; no batch has more than 10
    URLs; the batches joined in key order are [all_urls], so the pages
    go down from [max_page] to 1; the keys are ["1"], ["2"], ... in
    order; and key ["1"] holds the first (at most) ten URLs, those of
    the highest pages. *)
Theorem create_pagination_batches_partition
  (format : string → Z → option string) (url_template : string)
  (max_page : Z) :
  ((max_page < 1)%Z →
   create_pagination_batches format url_template max_page = Some [])
  ∧ ((1 ≤ max_page)%Z →
     ∀ all_urls,
       mapM (format url_template) (pages_down max_page) = Some all_urls →
       ∃ batches,
         create_pagination_batches format url_template max_page = Some batches
         ∧ Z.of_nat (length batches) = ((max_page + 9) / 10)%Z
         ∧ (10 * (Z.of_nat (length batches) - 1) < max_page
            ≤ 10 * Z.of_nat (length batches))%Z
         ∧ Forall (λ b, length b.2 ≤ 10) batches
         ∧ concat batches.*2 = all_urls
         ∧ keys batches = (λ k, pretty (S k)) <$> seq 0 (length batches)
         ∧ dict_get "1" batches = Some (take 10 all_urls)).
Proof.
  unfold create_pagination_batches. split.
  - intros Hlt. by rewrite (proj2 (Z.ltb_lt _ _) Hlt).
  - intros Hge all_urls Hurls.
    rewrite (proj2 (Z.ltb_ge _ _) Hge).
    rewrite py_range_down_spec. fold (pages_down max_page).
    rewrite Hurls. simpl. rewrite batches_spec.
    assert (length all_urls = Z.to_nat max_page) as Hlen.
    { apply length_mapM in Hurls. unfold pages_down in Hurls.
      by rewrite length_fmap, length_seq in Hurls. }
    set (c := (length all_urls + 9) `div` 10).
    assert (Z.of_nat c = ((max_page + 9) / 10)%Z) as Hc.
    { unfold c. rewrite Hlen. div_lia. }
    eexists. split; [reflexivity|].
    rewrite length_fmap, length_seq.
    split; [done|]. split; [rewrite Hc; div_lia|].
    split; [|split; [|split]].
    + apply Forall_fmap, Forall_forall. intros k _. simpl.
      rewrite length_take. lia.
    + rewrite <- list_fmap_compose. apply concat_slices.
      unfold c. div_lia.
    + unfold keys. rewrite <- list_fmap_compose. done.
    + assert (c = S (pred c)) as -> by (unfold c; div_lia).
      reflexivity.
Qed.

(** Twelve pages of [example_template]: two batches, ["1"] with the
    pages 12 to 3 and ["2"] with the pages 2 and 1. *)
Lemma create_pagination_batches_partition_witness :
  (1 ≤ 12)%Z
  ∧ mapM (format_page example_template) (pages_down 12) = Some example_urls
  ∧ create_pagination_batches format_page example_template 0 = Some []
  ∧ ∃ batches,
      create_pagination_batches format_page example_template 12 = Some batches
      ∧ length batches = 2
      ∧ concat batches.*2 = example_urls
      ∧ dict_get "1" batches = Some (take 10 example_urls).
Proof.
  destruct (create_pagination_batches_partition format_page example_template 12)
    as [_ Hge].
  destruct (create_pagination_batches_partition format_page example_template 0)
    as [Hlt _].
  destruct (Hge ltac:(lia) example_urls eq_refl)
    as (batches & Hb & Hn & _ & _ & Hcat & _ & Hfirst).
  split; [lia|]. split; [reflexivity|]. split; [apply Hlt; lia|].
  exists batches. repeat split; try done.
  change ((12 + 9) / 10)%Z with 2%Z in Hn. lia.
Defined.

End PaginationClaim.

(** ** The challenge code *)

Section CaptchaFacts.
Import Captcha.

#[local] Arguments String.append !_ _ / : simpl nomatch.

Lemma append_assoc (a b c : string) : (a +:+ b) +:+ c = a +:+ b +:+ c.
Proof. induction a as [|x a IH]; simpl; [done|by f_equal]. Qed.

Lemma space_not_code_char c : py_isspace c = true → is_code_char c = false.
Proof.
  unfold py_isspace, is_code_char. generalize (nat_of_ascii c). intros n H.
  repeat match goal with
         | |- context [?a <=? ?b] => destruct (Nat.leb_spec a b)
         | H : context [?a <=? ?b] |- _ => destruct (Nat.leb_spec a b)
         | H : context [?a =? ?b] |- _ => destruct (Nat.eqb_spec a b)
         end; simpl in *; try done; lia.
Qed.

Lemma match_here_Some n s m :
  match_here n s = Some m
  ↔ String.length m = n ∧ code_chars m = true ∧ ∃ post, s = m +:+ post.
Proof.
  revert s m. induction n as [|n IH]; intros s m; simpl.
  - split.
    + intros [= <-]. repeat split. by exists s.
    + intros (Hlen & _ & _). destruct m; [done|simpl in Hlen; lia].
  - destruct s as [|c t].
    + split; [done|]. intros (Hlen & _ & post & Hs).
      destruct m; simpl in *; [lia|done].
    + destruct (is_code_char c) eqn:Hc.
      * split.
        -- destruct (match_here n t) as [m'|] eqn:Hm; [|done].
           intros [= <-]. apply IH in Hm as (Hlen & Hrun & post & ->).
           simpl. rewrite Hc, Hrun, Hlen. repeat split. by exists post.
        -- intros (Hlen & Hrun & post & Hs).
           destruct m as [|c' m']; simpl in *; [lia|].
           injection Hs as <- ->.
           apply andb_true_iff in Hrun as [_ Hrun].
           assert (match_here n (m' +:+ post) = Some m') as ->; [|done].
           apply IH. repeat split; [lia|done|by exists post].
      * split; [done|]. intros (Hlen & Hrun & post & Hs).
        destruct m as [|c' m']; simpl in *; [lia|].
        injection Hs as <- ->. by rewrite Hc in Hrun.
Qed.

(** What [re.search] returns is a code of the text, and no code of the
    text starts further left. *)
Lemma re_search_Some s code :
  re_search s = Some code →
  ∃ pre, has_code_at s pre code
         ∧ ∀ pre' code', has_code_at s pre' code' →
                         String.length pre ≤ String.length pre'.
Proof.
  revert code. induction s as [|c t IH]; intros code.
  - simpl. done.
  - cbn [re_search]. destruct (match_here 6 (String c t)) as [m|] eqn:Hm.
    + intros [= <-]. exists "". split.
      * apply match_here_Some in Hm as (? & ? & ?). by repeat split.
      * intros pre' code' _. simpl. lia.
    + intros Ht. apply IH in Ht as (pre & (Hlen & Hrun & post & ->) & Hleft).
      exists (String c pre). split.
      * repeat split; [done..|]. by exists post.
      * intros pre' code' (Hlen' & Hrun' & post' & Hs).
        destruct pre' as [|c' pre'].
        -- simpl in Hs. exfalso.
           assert (match_here 6 (String c (pre +:+ code +:+ post)) = Some code')
             as Hc; [|by rewrite Hc in Hm].
           apply match_here_Some. repeat split; [done..|].
           exists post'. by rewrite Hs.
        -- simpl in Hs. injection Hs as <- Hs. simpl.
           apply le_n_S, (Hleft pre' code'). repeat split; [done..|].
           by exists post'.
Qed.

Lemma re_search_None s :
  re_search s = None ↔ ¬ ∃ pre code, has_code_at s pre code.
Proof.
  split.
  - induction s as [|c t IH]; cbn [re_search].
    + intros _ (pre & code & Hlen & _ & post & Hs).
      destruct pre, code; simpl in *; try done; lia.
    + destruct (match_here 6 (String c t)) as [m|] eqn:Hm; [done|].
      intros Ht (pre & code & Hlen & Hrun & post & Hs).
      destruct pre as [|c' pre]; simpl in Hs.
      * assert (match_here 6 (String c t) = Some code) as Hc;
          [|by rewrite Hc in Hm].
        apply match_here_Some. repeat split; [done..|]. by exists post.
      * injection Hs as <- ->. apply (IH Ht).
        exists pre, code. repeat split; [done..|]. by exists post.
  - intros Hno. destruct (re_search s) as [code|] eqn:Hs; [|done].
    exfalso. apply Hno. apply re_search_Some in Hs as (pre & Hat & _).
    by exists pre, code.
Qed.

(** Stripping neither adds nor removes a code, nor changes which one
    comes first. *)
Lemma re_search_lstrip s : re_search (lstrip_with py_isspace s) = re_search s.
Proof.
  induction s as [|c t IH]; [done|].
  cbn [lstrip_with]. destruct (py_isspace c) eqn:Hsp; [|done].
  rewrite IH. cbn [re_search match_here].
  by rewrite (space_not_code_char c Hsp).
Qed.

Lemma match_here_rstrip n s :
  match_here n (rstrip_with py_isspace s) = match_here n s.
Proof.
  revert n. induction s as [|c t IH]; intros n; [done|].
  cbn [rstrip_with]. destruct n as [|n]; [by destruct (rstrip_with _ t), (py_isspace c)|].
  destruct (rstrip_with py_isspace t) as [|c' t'] eqn:Ht.
  - destruct (py_isspace c) eqn:Hsp; cbn [match_here].
    + by rewrite (space_not_code_char c Hsp).
    + by rewrite <- IH.
  - cbn [match_here]. by rewrite <- IH.
Qed.

Lemma re_search_rstrip s : re_search (rstrip_with py_isspace s) = re_search s.
Proof.
  induction s as [|c t IH]; [done|].
  cbn [re_search]. rewrite <- (match_here_rstrip 6 (String c t)).
  cbn [rstrip_with].
  destruct (rstrip_with py_isspace t) as [|c' t'] eqn:Ht.
  - destruct (py_isspace c) eqn:Hsp.
    + by rewrite <- IH.
    + cbn [re_search]. by rewrite <- IH.
  - cbn [re_search]. by rewrite <- IH.
Qed.

Lemma extract_code_eq content : extract_code content = re_search content.
Proof.
  unfold extract_code, clean_captcha_text, strip.
  by rewrite re_search_rstrip, re_search_lstrip.
Qed.

End CaptchaFacts.

Section CaptchaClaim.
Import Captcha Scenarios.

Lemma solve_captcha_None_turn attempt_count io :
  solve_captcha (solver io) = None →
  login_turn attempt_count io = count_failure attempt_count.
Proof.
  intros Hsolve. unfold login_turn. rewrite Hsolve.
  by destruct (login_page io) as [[]|], (captcha_saved io).
Qed.

Lemma count_failure_cases attempt_count :
  (attempt_count + 1 < max_attempts
   ∧ count_failure attempt_count = Retry (attempt_count + 1) false)
  ∨ (max_attempts ≤ attempt_count + 1
     ∧ count_failure attempt_count = Retry 0 true).
Proof.
  unfold count_failure.
  destruct (Nat.leb_spec max_attempts (attempt_count + 1)); [right|left]; done.
Qed.

(** C6 as stated fails.  The answer ["ABC123 XYZ789"] holds two runs of
    six characters of [[A-Z0-9]] and is accepted, with the first of them
    as the code; the answer ["ABCDEFGH"] holds no run of six (its one run
    has eight characters) and is accepted too. *)
Lemma extract_code_accepts_several_runs :
  six_runs "ABC123 XYZ789" = ["ABC123"; "XYZ789"]
  ∧ extract_code "ABC123 XYZ789" = Some "ABC123"
  ∧ six_runs "ABCDEFGH" = []
  ∧ extract_code "ABCDEFGH" = Some "ABCDEF".
Proof. repeat split; reflexivity. Qed.

(** C6, amended.  The extraction rule accepts an answer of the vision
    service whenever six characters of [[A-Z0-9]] stand next to each
    other somewhere in it, and the code it returns is the leftmost such
    six characters; further codes or longer runs in the answer do not
    make it fail.  When the answer has no six such characters in a row,
    [solve_captcha] returns [None] and the turn of the login loop ends as
    a counted, retried failure: the attempt counter goes up by one, or
    back to zero after the cooldown when it reaches [max_attempts], and
    the loop goes on with the next turn. *)
Theorem extract_code_leftmost (answer : string) :
  (∀ code,
     extract_code answer = Some code →
     ∃ pre, has_code_at answer pre code
            ∧ ∀ pre' code', has_code_at answer pre' code' →
                            String.length pre ≤ String.length pre')
  ∧ ((∃ pre code, has_code_at answer pre code) →
     is_Some (extract_code answer))
  ∧ ((¬ ∃ pre code, has_code_at answer pre code) →
     extract_code answer = None
     ∧ ∀ attempt_count io,
         service_answer (solver io) = Some answer →
         solve_captcha (solver io) = None
         ∧ login_turn attempt_count io = count_failure attempt_count
         ∧ ((attempt_count + 1 < max_attempts
             ∧ count_failure attempt_count = Retry (attempt_count + 1) false
             ∧ ∀ rest, login_to_tor_website attempt_count (io :: rest)
                       = login_to_tor_website (attempt_count + 1) rest)
            ∨ (max_attempts ≤ attempt_count + 1
               ∧ count_failure attempt_count = Retry 0 true
               ∧ ∀ rest, login_to_tor_website attempt_count (io :: rest)
                         = login_to_tor_website 0 rest))).
Proof.
  rewrite extract_code_eq. split; [|split].
  - intros code. apply re_search_Some.
  - intros Hcode. destruct (re_search answer) eqn:Hs; [done|].
    by apply re_search_None in Hs.
  - intros Hno. apply re_search_None in Hno. split; [done|].
    intros attempt_count io Hanswer.
    assert (solve_captcha (solver io) = None) as Hsolve.
    { unfold solve_captcha. rewrite Hanswer, extract_code_eq, Hno.
      by destruct (resize_ok (solver io)),
                  (base64_image (solver io)) as [[]|]. }
    pose proof (solve_captcha_None_turn attempt_count io Hsolve) as Hturn.
    split; [done|]. split; [done|].
    destruct (count_failure_cases attempt_count) as [[Hlt Hc]|[Hge Hc]];
      [left|right]; (split; [done|]); (split; [done|]); intros rest;
      simpl; by rewrite Hturn, Hc.
Qed.

(** The answer of [turn_without_code] has five characters of the class
    in a row at most: on the ninth failure in a row the turn is counted
    and the loop cools down, although the server's reply would have
    passed for a successful login. *)
Lemma extract_code_leftmost_witness :
  (¬ ∃ pre code, has_code_at "Sorry, I can only read AB12F" pre code)
  ∧ extract_code "Sorry, I can only read AB12F" = None
  ∧ login_turn 8 turn_without_code = Retry 0 true
  ∧ login_turn 3 turn_without_code = Retry 4 false.
Proof.
  assert (¬ ∃ pre code, has_code_at "Sorry, I can only read AB12F" pre code)
    as Hno by (by apply re_search_None).
  destruct (extract_code_leftmost "Sorry, I can only read AB12F")
    as (_ & _ & Hfail).
  destruct (Hfail Hno) as [Hnone Hturn].
  destruct (Hturn 8 turn_without_code eq_refl) as (_ & H8 & _).
  destruct (Hturn 3 turn_without_code eq_refl) as (_ & H3 & _).
  repeat split; done.
Defined.

End CaptchaClaim.

(** ** The listing scan *)

Section ListingFacts.
Import Marketplace.

Lemma set_marketplace_posts_id db :
  set_marketplace_posts db (marketplace_posts db) = db.
Proof. by destruct db. Qed.

Lemma new_post_Some scan_id timestamp p :
  new_post scan_id timestamp p = Some (post_row scan_id timestamp p).
Proof. reflexivity. Qed.

Lemma same_post_row scan_id timestamp p :
  same_post scan_id timestamp p (post_row scan_id timestamp p) = true.
Proof. unfold same_post. by rewrite bool_decide_eq_true. Qed.

Lemma same_post_key scan_id timestamp p r :
  same_post scan_id timestamp p r = true → post_key r = (scan_id, timestamp).
Proof.
  unfold same_post, post_key. rewrite bool_decide_eq_true.
  by intros (-> & -> & _).
Qed.

(** A key that is unique in a list picks at most one element. *)
Lemma NoDup_fmap_eq {A B} (f : A → B) (l : list A) x y :
  NoDup (f <$> l) → x ∈ l → y ∈ l → f x = f y → x = y.
Proof.
  induction l as [|a l IH]; simpl; intros Hnd Hx Hy Hf.
  - by apply elem_of_nil in Hx.
  - apply NoDup_cons in Hnd as [Ha Hnd].
    apply elem_of_cons in Hx as [->|Hx], Hy as [->|Hy]; [done|..].
    + exfalso. apply Ha. rewrite Hf. by apply list_elem_of_fmap_2.
    + exfalso. apply Ha. rewrite <- Hf. by apply list_elem_of_fmap_2.
    + by apply IH.
Qed.

Lemma filter_none {A} (p : A → bool) (l : list A) :
  (∀ x, x ∈ l → p x = false) → List.filter p l = [].
Proof.
  induction l as [|a l IH]; simpl; intros Hp; [done|].
  rewrite (Hp a) by left. apply IH. intros x Hx. apply Hp. by right.
Qed.

Lemma filter_unique {A B} (f : A → B) (p : A → bool) (l : list A) b :
  NoDup (f <$> l) → (∀ x, x ∈ l → p x = true → f x = b) →
  length (List.filter p l) ≤ 1.
Proof.
  induction l as [|a l IH]; simpl; intros Hnd Hp; [lia|].
  apply NoDup_cons in Hnd as [Ha Hnd].
  destruct (p a) eqn:Hpa.
  - rewrite filter_none; [simpl; lia|].
    intros x Hx. destruct (p x) eqn:Hpx; [|done].
    exfalso. apply Ha.
    rewrite (Hp a) by (done || left). rewrite <- (Hp x) by (done || by right).
    by apply list_elem_of_fmap_2.
  - apply IH; [done|]. intros x Hx. apply Hp. by right.
Qed.

Lemma filter_some {A} (p : A → bool) (l : list A) x :
  x ∈ l → p x = true → 1 ≤ length (List.filter p l).
Proof.
  induction l as [|a l IH]; simpl; intros Hx Hp.
  - by apply elem_of_nil in Hx.
  - apply elem_of_cons in Hx as [<-|Hx].
    + rewrite Hp. simpl. lia.
    + destruct (p a); simpl; [lia|by apply IH].
Qed.

Lemma existsb_elem {A} (p : A → bool) (l : list A) :
  existsb p l = true ↔ ∃ x, x ∈ l ∧ p x = true.
Proof.
  rewrite existsb_exists. setoid_rewrite list_elem_of_In. done.
Qed.

Lemma existsb_none {A} (p : A → bool) (l : list A) :
  existsb p l = false ↔ ∀ x, x ∈ l → p x = false.
Proof.
  rewrite <- not_true_iff_false, existsb_elem. split.
  - intros Hno x Hx. destruct (p x) eqn:Hp; [|done]. exfalso. eauto.
  - intros Hall (x & Hx & Hp). by rewrite (Hall x Hx) in Hp.
Qed.

(** *** Saving a batch *)

Lemma pending_posts_Some rows scan_id posts_data :
  ∃ pending,
    pending_posts rows scan_id posts_data = Some pending
    ∧ (∀ r, r ∈ pending →
            ∃ ts p, (ts, p) ∈ posts_data ∧ r = post_row scan_id ts p
                    ∧ existsb (same_post scan_id ts p) rows = false)
    ∧ (∀ ts p, (ts, p) ∈ posts_data →
               existsb (same_post scan_id ts p) rows = true
               ∨ post_row scan_id ts p ∈ pending).
Proof.
  induction posts_data as [|[ts p] d (pending & Hp & Hin & Hall)];
    cbn [pending_posts].
  - exists []. split; [done|]. split; by intros * ?%elem_of_nil.
  - destruct (existsb (same_post scan_id ts p) rows) eqn:Hdup.
    + exists pending. split; [done|]. split.
      * intros r Hr. destruct (Hin r Hr) as (ts' & p' & ? & ? & ?).
        exists ts', p'. split; [by right|done].
      * intros ts' p' [[= -> ->]|Hd]%elem_of_cons; [by left|by apply Hall].
    + rewrite new_post_Some, Hp. simpl.
      exists (post_row scan_id ts p :: pending). split; [done|]. split.
      * intros r [->|Hr]%elem_of_cons.
        -- exists ts, p. split; [left|done].
        -- destruct (Hin r Hr) as (ts' & p' & ? & ? & ?).
           exists ts', p'. split; [by right|done].
      * intros ts' p' [[= -> ->]|Hd]%elem_of_cons.
        -- right. left.
        -- destruct (Hall ts' p' Hd); [by left|right; by right].
Qed.

Lemma pending_posts_all_stored rows scan_id posts_data :
  (∀ ts p, (ts, p) ∈ posts_data →
           existsb (same_post scan_id ts p) rows = true) →
  pending_posts rows scan_id posts_data = Some [].
Proof.
  induction posts_data as [|[ts p] d IH]; cbn [pending_posts]; intros Hall;
    [done|].
  rewrite Hall by left. apply IH. intros ts' p' Hd. apply Hall. by right.
Qed.

Lemma flush_Some rows pending rows' :
  flush rows pending = Some rows' → rows' = rows ++ pending.
Proof.
  revert rows. induction pending as [|r pending IH]; simpl; intros rows.
  - intros [= <-]. by rewrite app_nil_r.
  - destruct (existsb _ rows); [done|]. intros ->%IH.
    by rewrite <- app_assoc.
Qed.

Lemma flush_uix rows pending rows' :
  uix_scan_timestamp rows → flush rows pending = Some rows' →
  uix_scan_timestamp rows'.
Proof.
  unfold uix_scan_timestamp.
  revert rows. induction pending as [|r pending IH]; simpl; intros rows Hnd.
  - by intros [= <-].
  - destruct (existsb _ rows) eqn:Hclash; [done|]. apply IH.
    rewrite fmap_app. simpl. apply NoDup_app. split; [done|]. split.
    + intros k Hk [->|[]%elem_of_nil]%elem_of_cons.
      apply list_elem_of_fmap in Hk as (r' & Hkey & Hr').
      rewrite existsb_none in Hclash.
      specialize (Hclash r' Hr'). by rewrite bool_decide_eq_false in Hclash.
    + apply NoDup_singleton.
Qed.

Lemma flush_clash rows pending r r' :
  r ∈ pending → r' ∈ rows → post_key r' = post_key r →
  flush rows pending = None.
Proof.
  revert rows. induction pending as [|x pending IH]; simpl; intros rows Hr Hr' Hk.
  - by apply elem_of_nil in Hr.
  - destruct (existsb _ rows) eqn:Hclash; [done|].
    apply elem_of_cons in Hr as [->|Hr].
    + rewrite existsb_none in Hclash. specialize (Hclash r' Hr').
      by rewrite bool_decide_eq_false in Hclash.
    + apply IH; [done| |done]. apply elem_of_app. by left.
Qed.

(** A batch leaves the constraint in force, whether it commits or is
    rolled back. *)
Lemma save_posts_uix db scan_id posts_data :
  uix_scan_timestamp (marketplace_posts db) →
  uix_scan_timestamp (marketplace_posts (save_posts db scan_id posts_data).1).
Proof.
  intros Huix. unfold save_posts.
  destruct (pending_posts_Some (marketplace_posts db) scan_id posts_data)
    as (pending & -> & _).
  destruct (flush _ pending) as [rows'|] eqn:Hflush; simpl; [|done].
  by apply (flush_uix (marketplace_posts db) pending).
Qed.

(** Saving the same posts a second time stores nothing and raises
    nothing, and each of them is in the table once. *)
Lemma save_posts_idempotent db scan_id posts_data db1 :
  uix_scan_timestamp (marketplace_posts db) →
  save_posts db scan_id posts_data = (db1, BatchOk) →
  save_posts db1 scan_id posts_data = (db1, BatchOk)
  ∧ ∀ ts p, (ts, p) ∈ posts_data →
            length (List.filter (same_post scan_id ts p)
                                (marketplace_posts db1)) = 1.
Proof.
  intros Huix. unfold save_posts.
  destruct (pending_posts_Some (marketplace_posts db) scan_id posts_data)
    as (pending & -> & Hin & Hall).
  destruct (flush _ pending) as [rows1|] eqn:Hflush; [|done].
  intros [= <-]. simpl.
  pose proof (flush_uix _ _ _ Huix Hflush) as Huix1.
  apply flush_Some in Hflush as ->.
  assert (∀ ts p, (ts, p) ∈ posts_data →
                  ∃ r, r ∈ marketplace_posts db ++ pending
                       ∧ same_post scan_id ts p r = true) as Hstored.
  { intros ts p Hd. destruct (Hall ts p Hd) as [Hdup|Hnew].
    - apply existsb_elem in Hdup as (r & Hr & Hsame).
      exists r. split; [|done]. apply elem_of_app. by left.
    - exists (post_row scan_id ts p). split; [|apply same_post_row].
      apply elem_of_app. by right. }
  split.
  - rewrite pending_posts_all_stored.
    + simpl. by destruct db.
    + intros ts p Hd. apply existsb_elem. by apply Hstored.
  - intros ts p Hd. apply Nat.le_antisymm.
    + apply (filter_unique post_key _ _ (scan_id, ts)); [done|].
      intros r _. apply same_post_key.
    + destruct (Hstored ts p Hd) as (r & Hr & Hsame).
      by apply (filter_some _ _ r).
Qed.

(** A stored row with the scan and timestamp of a scraped post, but
    another title or link, makes the batch fail at commit. *)
Lemma save_posts_clash db scan_id posts_data ts p r :
  uix_scan_timestamp (marketplace_posts db) →
  (ts, p) ∈ posts_data → r ∈ marketplace_posts db →
  post_key r = (scan_id, ts) → same_post scan_id ts p r = false →
  save_posts db scan_id posts_data = (db, BatchRaised IntegrityError).
Proof.
  intros Huix Hd Hr Hkey Hdiff. unfold save_posts.
  destruct (pending_posts_Some (marketplace_posts db) scan_id posts_data)
    as (pending & -> & _ & Hall).
  destruct (Hall ts p Hd) as [Hdup|Hnew].
  - apply existsb_elem in Hdup as (r' & Hr' & Hsame). exfalso.
    assert (r' = r) as ->; [|by rewrite Hsame in Hdiff].
    apply (NoDup_fmap_eq post_key (marketplace_posts db)); [done..|].
    by rewrite Hkey, (same_post_key _ _ _ _ Hsame).
  - by rewrite (flush_clash _ _ _ r Hnew Hr).
Qed.

(** *** Scraping a batch *)

Lemma scrape_rows_inr posts rows posts' :
  scrape_rows posts rows = inr posts' →
  posts' = foldl set_entry posts (omap row_entry rows).
Proof.
  revert posts. induction rows as [|row rows IH]; simpl; intros posts.
  - by intros [= <-].
  - unfold scrape_row, row_entry.
    destruct (td_title row), (td_author row), (td_timestamp row),
             (td_link row); simpl; try done; apply IH.
Qed.

Lemma visited_rows_cons fetch url urls :
  visited_rows fetch (url :: urls)
  = take 10 (default [] (fetch url)) ++ visited_rows fetch urls.
Proof. reflexivity. Qed.

Lemma scrape_pages_inr fetch posts urls posts' :
  scrape_pages fetch posts urls = inr posts' →
  posts' = foldl set_entry posts (omap row_entry (visited_rows fetch urls)).
Proof.
  revert posts. induction urls as [|url urls IH]; intros posts.
  - by intros [= <-].
  - cbn [scrape_pages]. rewrite visited_rows_cons, omap_app, foldl_app.
    destruct (fetch url) as [table_rows|]; simpl; [|apply IH].
    destruct (scrape_rows posts (take 10 table_rows)) as [|posts1] eqn:Hrows;
      [done|].
    apply scrape_rows_inr in Hrows as ->. apply IH.
Qed.

Lemma scrape_pages_first_ten fetch posts urls :
  scrape_pages (λ url, take 10 <$> fetch url) posts urls
  = scrape_pages fetch posts urls.
Proof.
  revert posts. induction urls as [|url urls IH]; simpl; intros posts; [done|].
  destruct (fetch url) as [table_rows|]; simpl; [|apply IH].
  rewrite take_take, Nat.min_id.
  destruct (scrape_rows posts (take 10 table_rows)); [done|apply IH].
Qed.

Lemma foldl_set_entry_NoDup (posts : dict post) entries :
  NoDup (keys posts) → NoDup (keys (foldl set_entry posts entries)).
Proof.
  revert posts. induction entries as [|e entries IH]; simpl; intros posts Hnd;
    [done|].
  apply IH. by apply dict_set_NoDup.
Qed.

(** Among the entries written under a key, the last one stays. *)
Lemma foldl_set_entry_get (posts : dict post) entries ts :
  dict_get ts (foldl set_entry posts entries)
  = match last (filter (λ e, e.1 = ts) entries) with
    | Some e => Some e.2
    | None => dict_get ts posts
    end.
Proof.
  revert posts. induction entries as [|[k v] entries IH]; simpl; intros posts;
    [done|].
  rewrite IH, filter_cons. unfold set_entry at 1. simpl.
  destruct (decide (k = ts)) as [->|Hne].
  - rewrite last_cons, dict_get_set_eq.
    by destruct (last (filter _ entries)).
  - rewrite dict_get_set_ne by done. done.
Qed.

End ListingFacts.

Section ListingClaims.
Import Marketplace Scenarios.

(** C10.  Let a listing batch scrape [posts] from its pages, the stored
    rows obeying [uix_scan_timestamp].  Then: [posts] is a mapping with
    one entry per timestamp, and the entry under a timestamp is the last
    row scraped with it; rows after the tenth of a page are not read (the
    result is the same on the site whose pages are cut after ten rows);
    the batch inserts from that mapping alone (every row it adds is the
    entry of [posts] under the row's timestamp); and the table enforces
    uniqueness on [(scan_id, timestamp)] alone: after the batch no two
    rows agree on both, and a post whose scan and timestamp are stored
    with another title is not stored -- the commit raises and the batch
    is rolled back. *)
Theorem listing_keyed_by_timestamp
  (fetch : string → page_reply) (py_eval : string → option (dict post))
  (nfkc_ascii : string → string) (db : Db) (urls : list string)
  (scan_id : nat) (posts : dict post) :
  uix_scan_timestamp (marketplace_posts db) →
  scrape_posts fetch urls = inr (JsonText posts) →
  NoDup (keys posts)
  ∧ (∀ ts, dict_get ts posts
           = snd <$> last (filter (λ e, e.1 = ts)
                             (omap row_entry (visited_rows fetch urls))))
  ∧ scrape_posts (λ url, take 10 <$> fetch url) urls = scrape_posts fetch urls
  ∧ ∃ db' outcome,
      sync_scrape_batch fetch py_eval nfkc_ascii db urls scan_id
      = (db', outcome, [json_loads_call (JsonText posts)])
      ∧ uix_scan_timestamp (marketplace_posts db')
      ∧ (∀ r1 r2, r1 ∈ marketplace_posts db' → r2 ∈ marketplace_posts db' →
                  mp_scan_id r1 = mp_scan_id r2 →
                  mp_timestamp r1 = mp_timestamp r2 → r1 = r2)
      ∧ (∀ r, r ∈ marketplace_posts db' →
              r ∈ marketplace_posts db
              ∨ ∃ p, dict_get (mp_timestamp r) posts = Some p
                     ∧ r = post_row scan_id (mp_timestamp r) p)
      ∧ (∀ ts p r, (ts, p) ∈ posts → r ∈ marketplace_posts db →
                   mp_scan_id r = scan_id → mp_timestamp r = ts →
                   mp_title r ≠ title p →
                   outcome = BatchRaised IntegrityError ∧ db' = db).
Proof.
  intros Huix Hscrape.
  assert (scrape_pages fetch [] urls = inr posts) as Hpages.
  { unfold scrape_posts in Hscrape.
    destruct (scrape_pages fetch [] urls); by simplify_eq. }
  pose proof (scrape_pages_inr _ _ _ _ Hpages) as Hposts.
  assert (NoDup (keys posts)) as Hnd.
  { rewrite Hposts. apply foldl_set_entry_NoDup. apply NoDup_nil_2. }
  split; [done|]. split; [|split].
  - intros ts. rewrite Hposts, foldl_set_entry_get.
    by destruct (last _).
  - unfold scrape_posts. by rewrite scrape_pages_first_ten.
  - destruct (save_posts db scan_id posts) as [db' outcome] eqn:Hsave.
    exists db', outcome.
    pose proof (save_posts_uix db scan_id posts Huix) as Huix'.
    rewrite Hsave in Huix'. simpl in Huix'.
    split; [|split; [done|split; [|split]]].
    + unfold sync_scrape_batch, sync_scrape_batch_from.
      rewrite Hscrape. simpl. by rewrite Hsave.
    + intros r1 r2 Hr1 Hr2 Hs Ht.
      apply (NoDup_fmap_eq post_key (marketplace_posts db')); [done..|].
      unfold post_key. by rewrite Hs, Ht.
    + intros r Hr. unfold save_posts in Hsave.
      destruct (pending_posts_Some (marketplace_posts db) scan_id posts)
        as (pending & Hp & Hin & _).
      rewrite Hp in Hsave.
      destruct (flush _ pending) as [rows'|] eqn:Hflush;
        injection Hsave as <- <-; [|by left].
      apply flush_Some in Hflush as ->. simpl in Hr.
      apply elem_of_app in Hr as [Hr|Hr]; [by left|right].
      destruct (Hin r Hr) as (ts & p & Hd & -> & _).
      exists p. simpl. split; [|done]. by apply dict_get_NoDup_elem.
    + intros ts p r Hd Hr Hs Ht Htitle.
      rewrite (save_posts_clash db scan_id posts ts p r) in Hsave.
      * by injection Hsave as <- <-.
      * done.
      * done.
      * done.
      * unfold post_key. by rewrite Hs, Ht.
      * unfold same_post. rewrite bool_decide_eq_false. naive_solver.
Qed.

(** The first batch of [listing_site] on an empty table: of the two rows
    of page 12 with one timestamp the second is kept, the eleventh row
    of page 11 is not read, and eleven rows are stored. *)
Lemma listing_keyed_by_timestamp_witness :
  uix_scan_timestamp (marketplace_posts (listing_db RUNNING None (Some "session=abc")))
  ∧ scrape_posts listing_site (take 10 example_urls)
    = inr (JsonText first_batch_posts)
  ∧ NoDup (keys first_batch_posts)
  ∧ dict_get "2025-07-01 10:00" first_batch_posts
    = Some {| title := "RDP access, EU retailer (v2)"; author := "alice";
              link := "/post/42" |}
  ∧ dict_get "2025-07-02 09:20" first_batch_posts = None.
Proof.
  assert (uix_scan_timestamp
            (marketplace_posts (listing_db RUNNING None (Some "session=abc"))))
    as Huix by apply NoDup_nil_2.
  destruct (listing_keyed_by_timestamp listing_site literal_eval ascii_only
              (listing_db RUNNING None (Some "session=abc"))
              (take 10 example_urls) 7 first_batch_posts Huix eq_refl)
    as (Hnd & Hlast & _).
  split; [done|]. split; [reflexivity|]. split; [done|].
  split; reflexivity.
Defined.

End ListingClaims.

(** ** The life of a listing scan *)

Section ListingScanFacts.
Import Marketplace Scenarios.

Lemma find_update_first {A} (p : A → bool) (f : A → A) (l : list A) :
  (∀ x, p (f x) = p x) →
  find p (update_first p f l) = f <$> find p l.
Proof.
  intros Hp. induction l as [|x l IH]; simpl; [done|].
  destruct (p x) eqn:Hx; simpl.
  - by rewrite Hp, Hx.
  - by rewrite Hx.
Qed.

Lemma save_posts_scans db scan_id posts_data :
  marketplace_post_scans (save_posts db scan_id posts_data).1
  = marketplace_post_scans db.
Proof.
  unfold save_posts.
  destruct (pending_posts _ _ _) as [pending|]; [|done].
  by destruct (flush _ pending).
Qed.

Lemma sync_scrape_batch_scans fetch py_eval nfkc_ascii db urls scan_id :
  marketplace_post_scans
    (sync_scrape_batch fetch py_eval nfkc_ascii db urls scan_id).1.1
  = marketplace_post_scans db.
Proof.
  unfold sync_scrape_batch, sync_scrape_batch_from.
  destruct (scrape_posts fetch urls) as [e|raw]; [done|].
  destruct (parse_posts_data py_eval nfkc_ascii raw) as [calls [d|]]; [|done].
  pose proof (save_posts_scans db scan_id d) as Hs.
  by destruct (save_posts db scan_id d).
Qed.

Lemma gather_scans fetch py_eval nfkc_ascii db scan_id batches :
  marketplace_post_scans
    (gather fetch py_eval nfkc_ascii db scan_id batches).1
  = marketplace_post_scans db.
Proof.
  unfold gather.
  enough (∀ results,
            marketplace_post_scans
              (foldl (λ '(db, results) '(batch_key, urls),
                        let '(db', outcome, _) :=
                          sync_scrape_batch fetch py_eval nfkc_ascii db urls
                            scan_id in
                        (db', results ++ [outcome]))
                     (db, results) batches).1
            = marketplace_post_scans db) as Hall by apply Hall.
  revert db. induction batches as [|[key urls] batches IH]; intros db results;
    [done|].
  cbn [foldl].
  pose proof (sync_scrape_batch_scans fetch py_eval nfkc_ascii db urls scan_id)
    as Hs.
  destruct (sync_scrape_batch fetch py_eval nfkc_ascii db urls scan_id)
    as [[db' outcome] calls].
  rewrite IH. done.
Qed.

(** Whatever the batches returned, a listing scan whose row is there
    ends [COMPLETED]. *)
Lemma scrape_batches_completed fetch py_eval nfkc_ascii db scan_id batches now s :
  find (has_id scan_id) (marketplace_post_scans db) = Some s →
  find (has_id scan_id)
       (marketplace_post_scans
          (scrape_batches fetch py_eval nfkc_ascii db scan_id batches now).1)
  = Some (finish_scan COMPLETED now s).
Proof.
  intros Hfind. unfold scrape_batches.
  pose proof (gather_scans fetch py_eval nfkc_ascii db scan_id batches) as Hs.
  destruct (gather fetch py_eval nfkc_ascii db scan_id batches)
    as [db1 results].
  simpl in Hs. rewrite Hs, Hfind. simpl.
  rewrite find_update_first by done. by rewrite Hfind.
Qed.

(** The start of a listing scan either is refused and changes nothing,
    or finds the scan not running, a bot of the purpose with a session
    that is not NULL, and a pagination scan with batches, and moves the
    scan to [RUNNING]. *)
Lemma start_post_scan_cases db scan_id now :
  (∃ status_code detail,
     start_post_scan db scan_id now = (db, HTTPException status_code detail))
  ∨ (∃ s b pg,
       find (has_id scan_id) (marketplace_post_scans db) = Some s
       ∧ mps_status s ≠ RUNNING
       ∧ b ∈ bot_profiles db ∧ bot_purpose b = SCRAPE_MARKETPLACE
       ∧ bot_session b ≠ None
       ∧ find (λ p, bool_decide (pgs_scan_name p = mps_pagination_scan_name s))
              (marketplace_pagination_scans db) = Some pg
       ∧ default [] (pgs_batches pg) ≠ []
       ∧ start_post_scan db scan_id now
         = (set_marketplace_post_scans db
              (update_first (has_id scan_id) (run_scan now)
                 (marketplace_post_scans db)),
            JSONResponse 200 "Post scan started")
       ∧ status_of (start_post_scan db scan_id now).1 scan_id = Some RUNNING).
Proof.
  unfold start_post_scan, status_of.
  destruct (find (has_id scan_id) _) as [s|] eqn:Hfind; [|left; eauto].
  destruct (decide (mps_status s = RUNNING)); [left; eauto|].
  destruct (active_bots db) as [|b bots] eqn:Hbots; [left; eauto|].
  destruct (find _ (marketplace_pagination_scans db)) as [pg|] eqn:Hpg;
    [|left; eauto].
  destruct (default [] (pgs_batches pg)) as [|batch batches] eqn:Hbatches;
    [left; eauto|].
  right. exists s, b, pg.
  assert (b ∈ active_bots db) as Hb by (rewrite Hbots; left).
  apply list_elem_of_filter in Hb as [(? & ?) ?].
  repeat split; try done.
  - by rewrite Hbatches.
  - simpl. rewrite find_update_first by done. by rewrite Hfind.
Qed.

End ListingScanFacts.

(** ** The post-detail scan *)

Section DetailFacts.
Import Posts.

Context (scrape_post_details : string → scrape_reply)
        (detect : string → option string)
        (translate_string : string → option translation)
        (iab_classify : string → iab_reply)
        (nfkc_ascii : string → string)
        (batch_raises : string → bool).

#[local] Abbreviation enrich := (enrich scrape_post_details detect translate_string
                      iab_classify nfkc_ascii).
#[local] Abbreviation scrape_one := (scrape_one scrape_post_details detect translate_string
                          iab_classify nfkc_ascii).
#[local] Abbreviation sync_scrape_post :=
  (sync_scrape_post scrape_post_details detect translate_string iab_classify
     nfkc_ascii).
#[local] Abbreviation run_batches :=
  (run_batches scrape_post_details detect translate_string iab_classify
     nfkc_ascii batch_raises).
#[local] Abbreviation gather := (gather scrape_post_details detect translate_string
                      iab_classify nfkc_ascii batch_raises).
#[local] Abbreviation scrape_post_batches :=
  (scrape_post_batches scrape_post_details detect translate_string
     iab_classify nfkc_ascii batch_raises).

(** The class has no attribute [classification]: the constructor call
    of line 378 raises. *)
Lemma constructor_refuses_classification :
  declarative_constructor MarketplacePostDetails_columns
    MarketplacePostDetails_kwargs = false.
Proof. reflexivity. Qed.

(** An item that is not a duplicate is therefore never stored. *)
Lemma store_cases rows scan_id batch_name e :
  (existsb (same_details scan_id (e_timestamp e) batch_name) rows = true
   ∧ store rows scan_id batch_name e = inr rows)
  ∨ (existsb (same_details scan_id (e_timestamp e) batch_name) rows = false
     ∧ store rows scan_id batch_name e = inl (ProcessingError (e_link e))).
Proof.
  unfold store, store_in. rewrite constructor_refuses_classification.
  destruct (existsb _ rows); [by left|right].
  destruct (e_iab e) as [iab|]; [|done]. by destruct (scores iab).
Qed.

(** With a table that has all the attributes named in the call, storing
    an item twice leaves one row for its key. *)
Lemma store_in_idempotent columns rows scan_id batch_name e rows1 :
  declarative_constructor columns MarketplacePostDetails_kwargs = true →
  uix_scan_timestamp_batch rows →
  store_in columns rows scan_id batch_name e = inr rows1 →
  store_in columns rows1 scan_id batch_name e = inr rows1
  ∧ uix_scan_timestamp_batch rows1
  ∧ length (List.filter (same_details scan_id (e_timestamp e) batch_name)
                        rows1) = 1.
Proof.
  intros Hctor Huix. unfold store_in. rewrite Hctor. simpl.
  assert (∀ r, same_details scan_id (e_timestamp e) batch_name r = true →
               details_key r = (scan_id, e_timestamp e, batch_name)) as Hkey.
  { intros r. unfold same_details, details_key.
    rewrite bool_decide_eq_true. by intros (-> & -> & ->). }
  assert (∀ iab, same_details scan_id (e_timestamp e) batch_name
                    (details_row scan_id batch_name e iab) = true) as Hnew.
  { intros iab. unfold same_details. by rewrite bool_decide_eq_true. }
  destruct (existsb _ rows) eqn:Hdup.
  - intros [= <-]. rewrite Hdup. split; [done|]. split; [done|].
    apply existsb_elem in Hdup as (r & Hr & Hsame).
    apply Nat.le_antisymm.
    + apply (filter_unique details_key _ _ (scan_id, e_timestamp e, batch_name));
        [done|]. intros x _. apply Hkey.
    + by apply (filter_some _ _ r).
  - destruct (e_iab e) as [iab|]; [|done].
    destruct (scores iab) eqn:Hscores; try done.
    all: intros [= <-].
    all: assert (uix_scan_timestamp_batch
                   (rows ++ [details_row scan_id batch_name e iab])) as Huix1.
    all: try (unfold uix_scan_timestamp_batch in *; rewrite fmap_app; simpl;
              apply NoDup_app; split; [done|]; split; [|apply NoDup_singleton];
              intros k Hk [->|[]%elem_of_nil]%elem_of_cons;
              apply list_elem_of_fmap in Hk as (r & Hk & Hr);
              rewrite existsb_none in Hdup; specialize (Hdup r Hr);
              unfold same_details in Hdup;
              rewrite bool_decide_eq_false in Hdup;
              apply Hdup; unfold details_key in Hk; by simplify_eq).
    all: assert (existsb (same_details scan_id (e_timestamp e) batch_name)
                   (rows ++ [details_row scan_id batch_name e iab]) = true)
        as ->
        by (apply existsb_elem; eexists; split;
            [apply elem_of_app; right; left|done]).
    all: split; [done|]; split; [done|].
    all: apply Nat.le_antisymm;
      [apply (filter_unique details_key _ _
                (scan_id, e_timestamp e, batch_name)); [done|];
       intros x _; apply Hkey
      |apply (filter_some _ _ (details_row scan_id batch_name e iab));
       [apply elem_of_app; right; left|done]].
Qed.

(** What one post does to the state: the rows stay, and [scan_errors]
    grows by at most one entry. *)
Lemma scrape_one_cases scan_id batch_name site_url iab_prompt st item :
  (scrape_one scan_id batch_name site_url iab_prompt st item = st
   ∧ ∃ en, enrich site_url iab_prompt item.1 item.2 = inr en)
  ∨ ∃ e, scrape_one scan_id batch_name site_url iab_prompt st item
         = (st.1, st.2 ++ [e])
         ∧ (enrich site_url iab_prompt item.1 item.2 = inl e
            ∨ ∃ en, enrich site_url iab_prompt item.1 item.2 = inr en
                    ∧ e = ProcessingError (e_link en)).
Proof.
  destruct st as [rows errors], item as [post_link post_timestamp].
  unfold Posts.scrape_one. simpl.
  destruct (enrich site_url iab_prompt post_link post_timestamp) as [e|en].
  - right. exists e. split; [done|by left].
  - destruct (store_cases rows scan_id batch_name en) as [[_ ->]|[_ ->]].
    + left. split; [done|by exists en].
    + right. eexists. split; [done|]. right. by exists en.
Qed.

Lemma scrape_one_rows scan_id batch_name site_url iab_prompt st item :
  (scrape_one scan_id batch_name site_url iab_prompt st item).1 = st.1.
Proof.
  destruct (scrape_one_cases scan_id batch_name site_url iab_prompt st item)
    as [[-> _]|(e & -> & _)]; done.
Qed.

Lemma scrape_one_errors scan_id batch_name site_url iab_prompt st item e :
  e ∈ st.2 → e ∈ (scrape_one scan_id batch_name site_url iab_prompt st item).2.
Proof.
  intros He.
  destruct (scrape_one_cases scan_id batch_name site_url iab_prompt st item)
    as [[-> _]|(e' & -> & _)]; [done|].
  simpl. apply elem_of_app. by left.
Qed.

Lemma scrape_one_failure scan_id batch_name site_url iab_prompt st item e :
  enrich site_url iab_prompt item.1 item.2 = inl e →
  scrape_one scan_id batch_name site_url iab_prompt st item
  = (st.1, st.2 ++ [e]).
Proof.
  intros He. destruct st as [rows errors], item as [link ts].
  unfold Posts.scrape_one. simpl in *. by rewrite He.
Qed.

Lemma sync_scrape_post_rows scan_id batch_name site_url iab_prompt st items :
  (sync_scrape_post scan_id batch_name site_url iab_prompt st items).1 = st.1.
Proof.
  unfold Posts.sync_scrape_post.
  revert st. induction items as [|item items IH]; intros st; [done|].
  simpl. rewrite IH. apply scrape_one_rows.
Qed.

Lemma sync_scrape_post_errors scan_id batch_name site_url iab_prompt st items e :
  e ∈ st.2 →
  e ∈ (sync_scrape_post scan_id batch_name site_url iab_prompt st items).2.
Proof.
  unfold Posts.sync_scrape_post.
  revert st. induction items as [|item items IH]; intros st He; [done|].
  simpl. apply IH. by apply scrape_one_errors.
Qed.

Lemma sync_scrape_post_failure scan_id batch_name site_url iab_prompt st items
  item e :
  item ∈ items → enrich site_url iab_prompt item.1 item.2 = inl e →
  e ∈ (sync_scrape_post scan_id batch_name site_url iab_prompt st items).2.
Proof.
  unfold Posts.sync_scrape_post.
  revert st. induction items as [|x items IH]; intros st Hin He.
  - by apply elem_of_nil in Hin.
  - simpl. apply elem_of_cons in Hin as [<-|Hin].
    + apply (sync_scrape_post_errors scan_id batch_name site_url iab_prompt).
      rewrite (scrape_one_failure _ _ _ _ _ _ _ He). simpl.
      apply elem_of_app. right. left.
    + by apply IH.
Qed.

Lemma gather_run_batches scan_id site_url iab_prompt st batches :
  gather scan_id site_url iab_prompt st batches
  = ((run_batches scan_id site_url iab_prompt st batches).1,
     (run_batches scan_id site_url iab_prompt st batches).2
     ++ (BatchFailed <$> filter (λ n, batch_raises n = true) batches.*1)).
Proof.
  unfold Posts.gather. by destruct (run_batches _ _ _ st batches).
Qed.

Lemma run_batches_rows scan_id site_url iab_prompt st batches :
  (run_batches scan_id site_url iab_prompt st batches).1 = st.1.
Proof.
  unfold Posts.run_batches.
  revert st. induction batches as [|[name items] batches IH]; intros st;
    [done|].
  simpl. rewrite IH. destruct (batch_raises name); [done|].
  apply sync_scrape_post_rows.
Qed.

Lemma run_batches_errors scan_id site_url iab_prompt st batches e :
  e ∈ st.2 → e ∈ (run_batches scan_id site_url iab_prompt st batches).2.
Proof.
  unfold Posts.run_batches.
  revert st. induction batches as [|[name items] batches IH]; intros st He;
    [done|].
  simpl. apply IH. destruct (batch_raises name); [done|].
  by apply sync_scrape_post_errors.
Qed.

Lemma run_batches_failure scan_id site_url iab_prompt st batches name items
  item e :
  (name, items) ∈ batches → batch_raises name = false → item ∈ items →
  enrich site_url iab_prompt item.1 item.2 = inl e →
  e ∈ (run_batches scan_id site_url iab_prompt st batches).2.
Proof.
  revert st. induction batches as [|[n its] batches IH];
    intros st Hb Hrun Hitem He.
  - by apply elem_of_nil in Hb.
  - simpl. apply elem_of_cons in Hb as [[= <- <-]|Hb].
    + rewrite Hrun.
      apply (run_batches_errors scan_id site_url iab_prompt).
      by apply (sync_scrape_post_failure _ _ _ _ _ _ item).
    + by apply IH.
Qed.

Lemma scrape_one_unstored scan_id batch_name site_url iab_prompt st item en :
  enrich site_url iab_prompt item.1 item.2 = inr en →
  existsb (same_details scan_id (e_timestamp en) batch_name) st.1 = false →
  scrape_one scan_id batch_name site_url iab_prompt st item
  = (st.1, st.2 ++ [ProcessingError (e_link en)]).
Proof.
  intros Hen Hnew. destruct st as [rows errors], item as [link ts].
  unfold Posts.scrape_one. simpl in *. rewrite Hen.
  destruct (store_cases rows scan_id batch_name en) as [[Hdup _]|[_ ->]];
    [|done].
  by rewrite Hdup in Hnew.
Qed.

(** One turn of the loop by what became of the item: a duplicate leaves
    the state as it is, and everything else appends one entry and stores
    nothing. *)
Lemma scrape_one_turn scan_id batch_name site_url iab_prompt st item :
  (∃ en, enrich site_url iab_prompt item.1 item.2 = inr en
         ∧ existsb (same_details scan_id (e_timestamp en) batch_name) st.1
           = true
         ∧ scrape_one scan_id batch_name site_url iab_prompt st item = st)
  ∨ ∃ e, scrape_one scan_id batch_name site_url iab_prompt st item
         = (st.1, st.2 ++ [e])
         ∧ (enrich site_url iab_prompt item.1 item.2 = inl e
            ∨ ∃ en, enrich site_url iab_prompt item.1 item.2 = inr en
                    ∧ existsb (same_details scan_id (e_timestamp en)
                                 batch_name) st.1 = false
                    ∧ e = ProcessingError (e_link en)).
Proof.
  destruct st as [rows errors], item as [post_link post_timestamp].
  unfold Posts.scrape_one. simpl.
  destruct (enrich site_url iab_prompt post_link post_timestamp) as [e|en].
  - right. exists e. split; [done|by left].
  - destruct (store_cases rows scan_id batch_name en) as [[Hdup ->]|[Hnew ->]].
    + left. by exists en.
    + right. eexists. split; [done|]. right. by exists en.
Qed.

Lemma sync_scrape_post_unstored scan_id batch_name site_url iab_prompt st items
  item en :
  item ∈ items → enrich site_url iab_prompt item.1 item.2 = inr en →
  existsb (same_details scan_id (e_timestamp en) batch_name) st.1 = false →
  ProcessingError (e_link en)
  ∈ (sync_scrape_post scan_id batch_name site_url iab_prompt st items).2.
Proof.
  unfold Posts.sync_scrape_post.
  revert st. induction items as [|x items IH]; intros st Hin Hen Hnew.
  - by apply elem_of_nil in Hin.
  - simpl. apply elem_of_cons in Hin as [<-|Hin].
    + apply (sync_scrape_post_errors scan_id batch_name site_url iab_prompt).
      rewrite (scrape_one_unstored _ _ _ _ _ _ _ Hen Hnew). simpl.
      apply elem_of_app. right. left.
    + apply IH; [done..|]. by rewrite scrape_one_rows.
Qed.

Lemma run_batches_unstored scan_id site_url iab_prompt st batches name items
  item en :
  (name, items) ∈ batches → batch_raises name = false → item ∈ items →
  enrich site_url iab_prompt item.1 item.2 = inr en →
  existsb (same_details scan_id (e_timestamp en) name) st.1 = false →
  ProcessingError (e_link en)
  ∈ (run_batches scan_id site_url iab_prompt st batches).2.
Proof.
  revert st. induction batches as [|[n its] batches IH];
    intros st Hb Hrun Hitem Hen Hnew.
  - by apply elem_of_nil in Hb.
  - simpl. apply elem_of_cons in Hb as [[= <- <-]|Hb].
    + rewrite Hrun.
      apply (run_batches_errors scan_id site_url iab_prompt).
      by apply (sync_scrape_post_unstored _ _ _ _ _ _ item).
    + apply IH; [done..|]. destruct (batch_raises n); [done|].
      by rewrite sync_scrape_post_rows.
Qed.

(** The task ends with the rows as they were, and with the scan's row
    marked by whether [scan_errors] is empty. *)
Lemma scrape_post_batches_final db scan_id site_url iab_prompt batches now s :
  find (has_id scan_id) (post_detail_scans db) = Some s →
  marketplace_post_details
    (scrape_post_batches db scan_id site_url iab_prompt batches now).1
  = marketplace_post_details db
  ∧ find (has_id scan_id)
         (post_detail_scans
            (scrape_post_batches db scan_id site_url iab_prompt batches now).1)
    = Some (finish_scan
              (final_status
                 (scrape_post_batches db scan_id site_url iab_prompt batches
                    now).2)
              now s)
  ∧ (scrape_post_batches db scan_id site_url iab_prompt batches now).2
    = (gather scan_id site_url iab_prompt (marketplace_post_details db, [])
         batches).2.
Proof.
  intros Hfind. unfold Posts.scrape_post_batches.
  rewrite gather_run_batches.
  pose proof (run_batches_rows scan_id site_url iab_prompt
                (marketplace_post_details db, []) batches) as Hrows.
  destruct (run_batches _ _ _ _ batches) as [rows errors]. simpl in *.
  subst rows. rewrite Hfind. simpl.
  rewrite find_update_first by done. rewrite Hfind. by destruct db.
Qed.

End DetailFacts.

Section DetailScanFacts.
Import Posts.

(** The start of a post-detail scan either is refused and changes
    nothing, or finds the scan not running, both services active, a bot
    of the purpose whose session is neither NULL nor empty, the source
    scan completed with posts, a site address and a batch size other than
    zero, and moves the scan to [RUNNING]. *)
Lemma detail_start_cases db scan_id now :
  (∃ status_code detail,
     start_post_scan db scan_id now = (db, HTTPException status_code detail))
  ∨ (∃ s b source_scan,
       find (has_id scan_id) (post_detail_scans db) = Some s
       ∧ pds_status s ≠ RUNNING
       ∧ is_Some (active_api db "translation_api")
       ∧ is_Some (active_api db "iab_api")
       ∧ b ∈ bot_profiles db ∧ bot_purpose b = SCRAPE_POST
       ∧ (∃ token, bot_session b = Some token ∧ token ≠ "")
       ∧ source_scan_of db s = Some source_scan
       ∧ filter (λ p, mp_scan_id p = mps_id source_scan) (marketplace_posts db)
         ≠ []
       ∧ pds_site_url s ≠ "" ∧ pds_batch_size s ≠ 0%Z
       ∧ start_post_scan db scan_id now
         = (set_post_detail_scans db
              (update_first (has_id scan_id) (run_scan now)
                 (post_detail_scans db)),
            JSONResponse 200 "Post detail scan started")
       ∧ status_of (start_post_scan db scan_id now).1 scan_id = Some RUNNING).
Proof.
  unfold start_post_scan, status_of.
  destruct (find (has_id scan_id) _) as [s|] eqn:Hfind; [|left; eauto].
  destruct (decide (pds_status s = RUNNING)); [left; eauto|].
  destruct (active_api db "translation_api") as [tr|] eqn:Htr; [|left; eauto].
  destruct (active_api db "iab_api") as [iab|] eqn:Hiab; [|left; eauto].
  destruct (active_bots db) as [|b bots] eqn:Hbots; [left; eauto|].
  destruct (source_scan_of db s) as [source_scan|] eqn:Hsrc; [|left; eauto].
  destruct (filter _ (marketplace_posts db)) as [|p posts] eqn:Hposts;
    [left; eauto|].
  destruct (decide (pds_site_url s = "")); [left; eauto|].
  destruct (decide (pds_batch_size s = 0%Z)); [left; eauto|].
  right. exists s, b, source_scan.
  assert (b ∈ active_bots db) as Hb by (rewrite Hbots; left).
  apply list_elem_of_filter in Hb as [(? & ? & ?) ?].
  repeat split; try done.
  - destruct (bot_session b) as [token|] eqn:Hs; [|done].
    exists token. split; [done|]. congruence.
  - by rewrite Hposts.
  - simpl. rewrite find_update_first by done. by rewrite Hfind.
Qed.

End DetailScanFacts.

(** ** Claims on the life of a scan *)

Section ScanClaims.
Import Scenarios.

(** C1, on the listing path.  Whatever the batches of a listing scan
    return -- [asyncio.gather] hands back their exceptions as values and
    line 348 drops them -- the scan is marked [COMPLETED] with its
    completion time: a failed batch does not lead to [STOPPED] there.
    The post-detail path looks at what its batches returned and does what
    the claim says ([scrape_post_batches_final]). *)
Theorem listing_scan_completed_whatever_the_results
  (fetch : string → Marketplace.page_reply)
  (py_eval : string → option (dict Marketplace.post))
  (nfkc_ascii : string → string) (db : Db) (scan_id : nat)
  (batches : dict (list string)) (now : datetime) (s : MarketplacePostScan) :
  find (Marketplace.has_id scan_id) (marketplace_post_scans db) = Some s →
  let result :=
    Marketplace.scrape_batches fetch py_eval nfkc_ascii db scan_id batches now in
  Marketplace.status_of result.1 scan_id = Some COMPLETED
  ∧ (mps_completion_date <$>
       find (Marketplace.has_id scan_id) (marketplace_post_scans result.1))
    = Some (Some now)
  ∧ ∀ e, Marketplace.BatchRaised e ∈ result.2 →
         Marketplace.status_of result.1 scan_id ≠ Some STOPPED.
Proof.
  intros Hfind result.
  pose proof (scrape_batches_completed fetch py_eval nfkc_ascii db scan_id
                batches now s Hfind) as Hdone.
  fold result in Hdone. unfold Marketplace.status_of. rewrite Hdone.
  by repeat split.
Qed.

(** The second batch of [listing_site] fails at commit
    ([IntegrityError]: its post has the timestamp of a post of the first
    batch and another title); the scan is [COMPLETED], with the eleven
    posts of the first batch stored. *)
Lemma listing_scan_completed_whatever_the_results_witness :
  let result :=
    Marketplace.scrape_batches listing_site literal_eval ascii_only
      (listing_db RUNNING None (Some "session=abc")) 7 listing_batches 200%Z in
  result.2 = [Marketplace.BatchOk;
              Marketplace.BatchRaised Marketplace.IntegrityError]
  ∧ length (marketplace_posts result.1) = 11
  ∧ Marketplace.status_of result.1 7 = Some COMPLETED.
Proof.
  intros result.
  destruct (listing_scan_completed_whatever_the_results listing_site
              literal_eval ascii_only
              (listing_db RUNNING None (Some "session=abc")) 7 listing_batches
              200%Z (listing_scan RUNNING None) eq_refl) as (Hdone & _).
  split; [reflexivity|]. split; [reflexivity|]. exact Hdone.
Defined.

(** C2, on the listing path.  The filter of lines 230-233 asks for a
    session that is not NULL and nothing more: when every bot for listing
    scans holds NULL or the empty text, and one of them holds the empty
    text, the start is accepted all the same and the scan moves to
    [RUNNING].  On the post-detail path the start needs a session that is
    neither NULL nor empty ([detail_start_cases]). *)
Theorem listing_scan_starts_with_empty_session
  (db : Db) (scan_id : nat) (now : datetime) (s : MarketplacePostScan)
  (pg : MarketplacePaginationScan) (b : BotProfile) :
  find (Marketplace.has_id scan_id) (marketplace_post_scans db) = Some s →
  mps_status s ≠ RUNNING →
  find (λ p, bool_decide (pgs_scan_name p = mps_pagination_scan_name s))
       (marketplace_pagination_scans db) = Some pg →
  default [] (pgs_batches pg) ≠ [] →
  (∀ b', b' ∈ bot_profiles db → bot_purpose b' = SCRAPE_MARKETPLACE →
         bot_session b' = None ∨ bot_session b' = Some "") →
  b ∈ bot_profiles db → bot_purpose b = SCRAPE_MARKETPLACE →
  bot_session b = Some "" →
  (Marketplace.start_post_scan db scan_id now).2
  = JSONResponse 200 "Post scan started"
  ∧ Marketplace.status_of (Marketplace.start_post_scan db scan_id now).1 scan_id
    = Some RUNNING.
Proof.
  intros Hfind Hrun Hpg Hbatches _ Hb Hpurpose Hsession.
  assert (b ∈ Marketplace.active_bots db) as Hactive.
  { apply list_elem_of_filter. split; [|done]. split; [done|].
    by rewrite Hsession. }
  unfold Marketplace.status_of, Marketplace.start_post_scan.
  rewrite Hfind, decide_False, Hpg by done.
  destruct (Marketplace.active_bots db); [by apply elem_of_nil in Hactive|].
  destruct (default [] (pgs_batches pg)); [done|]. simpl.
  split; [done|]. rewrite find_update_first by done. by rewrite Hfind.
Qed.

(** A stopped listing scan whose only bot holds the empty text as its
    session is started. *)
Lemma listing_scan_starts_with_empty_session_witness :
  bot_session <$> bot_profiles (listing_db STOPPED None (Some "")) = [Some ""]
  ∧ (Marketplace.start_post_scan (listing_db STOPPED None (Some "")) 7 150%Z).2
    = JSONResponse 200 "Post scan started"
  ∧ Marketplace.status_of
      (Marketplace.start_post_scan (listing_db STOPPED None (Some "")) 7
         150%Z).1 7
    = Some RUNNING.
Proof.
  split; [reflexivity|].
  apply (listing_scan_starts_with_empty_session
           (listing_db STOPPED None (Some "")) 7 150%Z
           (listing_scan STOPPED None) pages_scan (market_bot (Some ""))).
  - reflexivity.
  - done.
  - reflexivity.
  - done.
  - intros b' [->|[]%elem_of_nil]%elem_of_cons _. by right.
  - left.
  - reflexivity.
  - reflexivity.
Defined.

(** C3 as stated fails: a completed listing scan and a completed
    post-detail scan are both moved back to [RUNNING] by a start
    request, in place. *)
Lemma completed_scan_restarted :
  Marketplace.status_of (listing_db COMPLETED (Some 90%Z) (Some "session=abc")) 7
  = Some COMPLETED
  ∧ Marketplace.status_of
      (Marketplace.start_post_scan
         (listing_db COMPLETED (Some 90%Z) (Some "session=abc")) 7 150%Z).1 7
    = Some RUNNING
  ∧ Posts.status_of (detail_db COMPLETED (Some 350%Z) [post_42]) 3
    = Some COMPLETED
  ∧ Posts.status_of
      (Posts.start_post_scan (detail_db COMPLETED (Some 350%Z) [post_42]) 3
         500%Z).1 3
    = Some RUNNING.
Proof. vm_compute. by repeat split. Qed.

(** C3, amended.  A start request is refused on account of the scan's
    status only while the scan is [RUNNING]: the answer is the conflict
    "Scan is already running" and nothing changes.  In every other
    status, [COMPLETED] included, the request goes through when the
    remaining conditions hold -- for a listing scan a bot of the purpose
    and a pagination scan with batches; for a post-detail scan the two
    active services, an eligible bot, the completed source scan with
    posts, a site address and a batch size other than zero -- and the
    scan is moved to [RUNNING] in place. *)
Theorem start_post_scan_refuses_only_running (db : Db) (scan_id : nat)
  (now : datetime) :
  (∀ s, find (Marketplace.has_id scan_id) (marketplace_post_scans db) = Some s →
        (mps_status s = RUNNING →
         Marketplace.start_post_scan db scan_id now
         = (db, HTTPException 400 "Scan is already running"))
        ∧ (mps_status s ≠ RUNNING →
           Marketplace.active_bots db ≠ [] →
           (∃ pg, find (λ p, bool_decide (pgs_scan_name p
                                          = mps_pagination_scan_name s))
                       (marketplace_pagination_scans db) = Some pg
                  ∧ default [] (pgs_batches pg) ≠ []) →
           (Marketplace.start_post_scan db scan_id now).2
           = JSONResponse 200 "Post scan started"
           ∧ find (Marketplace.has_id scan_id)
                  (marketplace_post_scans
                     (Marketplace.start_post_scan db scan_id now).1)
             = Some (Marketplace.run_scan now s)))
  ∧ (∀ s, find (Posts.has_id scan_id) (post_detail_scans db) = Some s →
          (pds_status s = RUNNING →
           Posts.start_post_scan db scan_id now
           = (db, HTTPException 400 "Scan is already running"))
          ∧ (pds_status s ≠ RUNNING →
             is_Some (Posts.active_api db "translation_api") →
             is_Some (Posts.active_api db "iab_api") →
             Posts.active_bots db ≠ [] →
             (∃ source_scan,
                Posts.source_scan_of db s = Some source_scan
                ∧ filter (λ p, mp_scan_id p = mps_id source_scan)
                         (marketplace_posts db) ≠ []) →
             pds_site_url s ≠ "" → pds_batch_size s ≠ 0%Z →
             (Posts.start_post_scan db scan_id now).2
             = JSONResponse 200 "Post detail scan started"
             ∧ find (Posts.has_id scan_id)
                    (post_detail_scans
                       (Posts.start_post_scan db scan_id now).1)
               = Some (Posts.run_scan now s))).
Proof.
  split; intros s Hfind.
  - unfold Marketplace.start_post_scan. rewrite Hfind. split.
    + intros Hrun. by rewrite decide_True.
    + intros Hrun Hbots (pg & Hpg & Hbatches).
      rewrite decide_False by done. rewrite Hpg.
      destruct (Marketplace.active_bots db); [done|].
      destruct (default [] (pgs_batches pg)); [done|]. simpl.
      split; [done|]. rewrite find_update_first by done. by rewrite Hfind.
  - unfold Posts.start_post_scan. rewrite Hfind. split.
    + intros Hrun. by rewrite decide_True.
    + intros Hrun [tr Htr] [iab Hiab] Hbots (src & Hsrc & Hposts) Hurl Hsize.
      rewrite decide_False by done. rewrite Htr, Hiab, Hsrc.
      destruct (Posts.active_bots db); [done|].
      destruct (filter _ (marketplace_posts db)); [done|].
      rewrite !decide_False by done. simpl.
      split; [done|]. rewrite find_update_first by done. by rewrite Hfind.
Qed.

(** A running listing scan is refused; the same scan, completed, is
    started again. *)
Lemma start_post_scan_refuses_only_running_witness :
  Marketplace.start_post_scan
    (listing_db RUNNING None (Some "session=abc")) 7 150%Z
  = (listing_db RUNNING None (Some "session=abc"),
     HTTPException 400 "Scan is already running")
  ∧ find (Marketplace.has_id 7)
         (marketplace_post_scans
            (Marketplace.start_post_scan
               (listing_db COMPLETED (Some 90%Z) (Some "session=abc")) 7
               150%Z).1)
    = Some (Marketplace.run_scan 150%Z (listing_scan COMPLETED (Some 90%Z)))
  ∧ find (Posts.has_id 3)
         (post_detail_scans
            (Posts.start_post_scan
               (detail_db COMPLETED (Some 350%Z) [post_42]) 3 500%Z).1)
    = Some (Posts.run_scan 500%Z (detail_scan COMPLETED (Some 350%Z))).
Proof.
  destruct (start_post_scan_refuses_only_running
              (listing_db RUNNING None (Some "session=abc")) 7 150%Z)
    as [Hrunning _].
  destruct (start_post_scan_refuses_only_running
              (listing_db COMPLETED (Some 90%Z) (Some "session=abc")) 7 150%Z)
    as [Hlisting _].
  destruct (start_post_scan_refuses_only_running
              (detail_db COMPLETED (Some 350%Z) [post_42]) 3 500%Z)
    as [_ Hdetail].
  split; [|split].
  - by apply (Hrunning (listing_scan RUNNING None) eq_refl).
  - apply (Hlisting (listing_scan COMPLETED (Some 90%Z)) eq_refl); [done|done|].
    exists pages_scan. by split.
  - apply (Hdetail (detail_scan COMPLETED (Some 350%Z)) eq_refl); try done.
    exists (listing_scan COMPLETED (Some 200%Z)). by split.
Defined.

End ScanClaims.

(** ** Claims on the items of a post-detail scan *)

Section DetailClaims.
Import Posts Scenarios.

(** C4 as stated fails.  A detail scan over one post whose page shows
    another timestamp than the listing recorded: no batch raises, the
    item is skipped, its mismatch is the only entry of [scan_errors], and
    the scan ends [STOPPED]. *)
Lemma timestamp_mismatch_stops_scan :
  let db := detail_db RUNNING None [post_100] in
  let '(db', scan_errors) :=
    scrape_post_batches forum_post detect_english translate_marked
      classify_positive ascii_only no_batch_raises db 3 "http://forum.onion/"
      (api_prompt iab_api) (batches_of db (detail_scan RUNNING None)) 400%Z in
  batches_of db (detail_scan RUNNING None)
  = [("batch_001", [("/post/100", "2025-07-02 09:10")])]
  ∧ scan_errors = [TimestampMismatch "http://forum.onion/post/100"
                     "2025-07-02 09:10" "2025-07-02 09:30"]
  ∧ marketplace_post_details db' = []
  ∧ post_detail_scans db' = [detail_scan STOPPED (Some 400%Z)].
Proof. vm_compute. by repeat split. Qed.

(** C4, amended.  In a post-detail scan a failure below batch
    granularity -- among them the mismatch between the timestamp on the
    post's page and the one the listing recorded -- skips that item alone:
    nothing is stored for it, the failure is appended to [scan_errors],
    and the batch goes on with the next item.  That holds for every turn
    of the loop: it stores nothing, and it leaves [scan_errors] as it is
    exactly when the item passed every check and its key is already
    stored; every other item adds one entry, an item that fails while it
    is stored (a processing error) like one that fails before.  A
    duplicate is thus the only skip that leaves no entry.  At the end the
    scan is [STOPPED] exactly when [scan_errors] is not empty and
    [COMPLETED] exactly when it is empty, so a failed item stops the scan
    as a failed batch does. *)
Theorem item_failures_stop_the_scan
  (scrape_post_details : string → scrape_reply)
  (detect : string → option string)
  (translate_string : string → option translation)
  (iab_classify : string → iab_reply) (nfkc_ascii : string → string)
  (batch_raises : string → bool)
  (db : Db) (scan_id : nat) (site_url iab_prompt : string)
  (batches : list (string * list (string * string))) (now : datetime)
  (s : PostDetailScan) :
  find (has_id scan_id) (post_detail_scans db) = Some s →
  let enrich := enrich scrape_post_details detect translate_string
                  iab_classify nfkc_ascii site_url iab_prompt in
  let result := scrape_post_batches scrape_post_details detect translate_string
                  iab_classify nfkc_ascii batch_raises db scan_id site_url
                  iab_prompt batches now in
  (∀ post_link post_timestamp scraped_data t c a ts,
     scrape_post_details
       (rstrip_char "/" site_url +:+ "/" +:+ lstrip_char "/" post_link)
     = Json scraped_data →
     dict_get "error" scraped_data = None →
     dict_get "title" scraped_data = Some t →
     dict_get "content" scraped_data = Some c →
     dict_get "author" scraped_data = Some a →
     dict_get "timestamp" scraped_data = Some ts →
     ts ≠ post_timestamp →
     enrich post_link post_timestamp
     = inl (TimestampMismatch
              (rstrip_char "/" site_url +:+ "/" +:+ lstrip_char "/" post_link)
              post_timestamp ts))
  ∧ (∀ st batch_name item rest e,
       enrich item.1 item.2 = inl e →
       sync_scrape_post scrape_post_details detect translate_string
         iab_classify nfkc_ascii scan_id batch_name site_url iab_prompt st
         (item :: rest)
       = sync_scrape_post scrape_post_details detect translate_string
           iab_classify nfkc_ascii scan_id batch_name site_url iab_prompt
           (st.1, st.2 ++ [e]) rest)
  ∧ (∀ batch_name items item e,
       (batch_name, items) ∈ batches → batch_raises batch_name = false →
       item ∈ items → enrich item.1 item.2 = inl e →
       e ∈ result.2 ∧ status_of result.1 scan_id = Some STOPPED)
  ∧ (∀ batch_name items,
       (batch_name, items) ∈ batches → batch_raises batch_name = true →
       BatchFailed batch_name ∈ result.2
       ∧ status_of result.1 scan_id = Some STOPPED)
  ∧ (status_of result.1 scan_id = Some STOPPED ↔ result.2 ≠ [])
  ∧ (status_of result.1 scan_id = Some COMPLETED ↔ result.2 = [])
  ∧ (∀ st batch_name item,
       let st' :=
         scrape_one scrape_post_details detect translate_string iab_classify
           nfkc_ascii scan_id batch_name site_url iab_prompt st item in
       st'.1 = st.1
       ∧ (st'.2 = st.2 ∨ ∃ e, st'.2 = st.2 ++ [e])
       ∧ (st'.2 = st.2
          ↔ ∃ en, enrich item.1 item.2 = inr en
                  ∧ existsb (same_details scan_id (e_timestamp en) batch_name)
                            st.1 = true)
       ∧ (∀ en, enrich item.1 item.2 = inr en →
            existsb (same_details scan_id (e_timestamp en) batch_name) st.1
            = false →
            st'.2 = st.2 ++ [ProcessingError (e_link en)])
       ∧ ∀ rest,
           sync_scrape_post scrape_post_details detect translate_string
             iab_classify nfkc_ascii scan_id batch_name site_url iab_prompt
             st (item :: rest)
           = sync_scrape_post scrape_post_details detect translate_string
               iab_classify nfkc_ascii scan_id batch_name site_url iab_prompt
               st' rest)
  ∧ (∀ batch_name items item en,
       (batch_name, items) ∈ batches → batch_raises batch_name = false →
       item ∈ items → enrich item.1 item.2 = inr en →
       existsb (same_details scan_id (e_timestamp en) batch_name)
               (marketplace_post_details db) = false →
       ProcessingError (e_link en) ∈ result.2
       ∧ status_of result.1 scan_id = Some STOPPED)
  ∧ marketplace_post_details result.1 = marketplace_post_details db.
Proof.
  intros Hfind enrich0 result.
  destruct (scrape_post_batches_final scrape_post_details detect
              translate_string iab_classify nfkc_ascii batch_raises
              db scan_id site_url iab_prompt batches now s Hfind)
    as (Hrows & Hscan & Herrors).
  fold result in Hrows, Hscan, Herrors.
  assert (status_of result.1 scan_id = Some (final_status result.2)) as Hstatus.
  { unfold status_of. by rewrite Hscan. }
  assert (∀ e, e ∈ result.2 → status_of result.1 scan_id = Some STOPPED)
    as Hstopped.
  { intros e He. rewrite Hstatus.
    destruct result.2; [by apply elem_of_nil in He|done]. }
  split_and!.
  - intros post_link post_timestamp d t c a ts Hreply Herr Ht Hc Ha Hts Hne.
    unfold enrich0, Posts.enrich. rewrite Hreply, Herr, Ht, Hc, Ha, Hts.
    by rewrite decide_True.
  - intros st batch_name item rest e He. unfold Posts.sync_scrape_post.
    simpl. f_equal. by apply scrape_one_failure.
  - intros batch_name items item e Hb Hrun Hitem He.
    assert (e ∈ result.2) as Hin; [|split; [done|by apply (Hstopped e)]].
    rewrite Herrors, gather_run_batches. simpl. apply elem_of_app. left.
    by apply (run_batches_failure _ _ _ _ _ _ _ _ _ _ _ batch_name items item).
  - intros batch_name items Hb Hraise.
    assert (BatchFailed batch_name ∈ result.2) as Hin;
      [|split; [done|by apply (Hstopped (BatchFailed batch_name))]].
    rewrite Herrors, gather_run_batches. simpl. apply elem_of_app. right.
    apply list_elem_of_fmap_2, list_elem_of_filter. split; [done|].
    by apply (list_elem_of_fmap_2 fst _ (batch_name, items)).
  - rewrite Hstatus. by destruct result.2.
  - rewrite Hstatus. by destruct result.2.
  - intros st batch_name item st'. subst st'.
    assert (∀ (l : list scan_error) e, l ++ [e] ≠ l) as Hgrows.
    { intros l e Heq. apply (f_equal length) in Heq.
      rewrite length_app in Heq. simpl in Heq. lia. }
    match goal with
    | |- ?A ∧ ?B ∧ ?C ∧ ?D ∧ ?E =>
        assert E as Hnext by done;
        cut (A ∧ B ∧ C ∧ D); [intros (? & ? & ? & ?); by split_and!|]
    end.
    clear Hnext.
    destruct (scrape_one_turn scrape_post_details detect translate_string
                iab_classify nfkc_ascii scan_id batch_name site_url
                iab_prompt st item)
      as [(en & Hen & Hdup & ->)|(e & -> & He)]; cbn [fst snd].
    + split_and!; [done|by left| |].
      * split; [|done]. intros _. by exists en.
      * intros en' Hen' Hnew. unfold enrich0 in *. congruence.
    + split_and!; [done|right; by exists e| |].
      * split; [by intros ?%Hgrows|].
        intros (en & Hen & Hdup). unfold enrich0 in *.
        destruct He as [He|(en' & Hen' & Hnew & _)]; congruence.
      * intros en Hen Hnew. unfold enrich0 in *.
        destruct He as [He|(en' & Hen' & _ & ->)]; congruence.
  - intros batch_name items item en Hb Hrun Hitem Hen Hnew.
    assert (ProcessingError (e_link en) ∈ result.2) as Hin;
      [|split; [done|by apply (Hstopped (ProcessingError (e_link en)))]].
    rewrite Herrors, gather_run_batches. simpl. apply elem_of_app. left.
    by apply (run_batches_unstored _ _ _ _ _ _ _ _ _ _ _ batch_name items
                item).
  - exact Hrows.
Qed.

(** The scan over [post_100]: the mismatch is in [scan_errors] and the
    scan is [STOPPED]. *)
Lemma item_failures_stop_the_scan_witness :
  let db := detail_db RUNNING None [post_100] in
  let result :=
    scrape_post_batches forum_post detect_english translate_marked
      classify_positive ascii_only no_batch_raises db 3 "http://forum.onion/"
      (api_prompt iab_api) [("batch_001", [("/post/100", "2025-07-02 09:10")])]
      400%Z in
  find (has_id 3) (post_detail_scans db) = Some (detail_scan RUNNING None)
  ∧ TimestampMismatch "http://forum.onion/post/100" "2025-07-02 09:10"
      "2025-07-02 09:30" ∈ result.2
  ∧ status_of result.1 3 = Some STOPPED.
Proof.
  intros db result.
  destruct (item_failures_stop_the_scan forum_post detect_english
              translate_marked classify_positive ascii_only no_batch_raises
              db 3 "http://forum.onion/" (api_prompt iab_api)
              [("batch_001", [("/post/100", "2025-07-02 09:10")])] 400%Z
              (detail_scan RUNNING None) eq_refl)
    as (_ & _ & Hitem & _).
  split; [reflexivity|].
  apply (Hitem "batch_001" [("/post/100", "2025-07-02 09:10")]
           ("/post/100", "2025-07-02 09:10")).
  - left.
  - reflexivity.
  - left.
  - reflexivity.
Defined.

(** C7, on the post-detail path.  The constructor call of line 378
    names [classification], which is not an attribute of
    [MarketplacePostDetails], and raises: a post-detail scan stores no
    row at all.  An item that passes every check of the pipeline and has
    no row yet is recorded as a processing error, the first time and
    every time after, and its key has not one row but none.  The listing
    path does what the claim says ([save_posts_idempotent]), and so would
    this one with the column in place ([store_in_idempotent]). *)
Theorem detail_item_never_stored
  (scrape_post_details : string → scrape_reply)
  (detect : string → option string)
  (translate_string : string → option translation)
  (iab_classify : string → iab_reply) (nfkc_ascii : string → string)
  (batch_raises : string → bool)
  (db : Db) (scan_id : nat) (site_url iab_prompt : string)
  (batches : list (string * list (string * string))) (now : datetime) :
  let result := scrape_post_batches scrape_post_details detect translate_string
                  iab_classify nfkc_ascii batch_raises db scan_id site_url
                  iab_prompt batches now in
  marketplace_post_details result.1 = marketplace_post_details db
  ∧ ∀ batch_name items item en,
      (batch_name, items) ∈ batches → batch_raises batch_name = false →
      item ∈ items →
      enrich scrape_post_details detect translate_string iab_classify
        nfkc_ascii site_url iab_prompt item.1 item.2 = inr en →
      existsb (same_details scan_id (e_timestamp en) batch_name)
              (marketplace_post_details db) = false →
      ProcessingError (e_link en) ∈ result.2
      ∧ length (List.filter (same_details scan_id (e_timestamp en) batch_name)
                            (marketplace_post_details result.1)) = 0.
Proof.
  intros result.
  assert (marketplace_post_details result.1 = marketplace_post_details db
          ∧ result.2 = (gather scrape_post_details detect translate_string
                          iab_classify nfkc_ascii batch_raises scan_id site_url
                          iab_prompt (marketplace_post_details db, [])
                          batches).2) as [Hrows Herrors].
  { unfold result, scrape_post_batches. rewrite gather_run_batches.
    pose proof (run_batches_rows scrape_post_details detect translate_string
                  iab_classify nfkc_ascii batch_raises scan_id site_url
                  iab_prompt (marketplace_post_details db, []) batches)
      as Hrun.
    destruct (run_batches _ _ _ _ _ _ _ _ _ _ batches) as [rows errors].
    simpl in *. subst rows.
    destruct (find _ _); simpl; by destruct db. }
  split; [done|].
  intros batch_name items item en Hb Hrun Hitem Hen Hnew. split.
  - rewrite Herrors, gather_run_batches. simpl. apply elem_of_app. left.
    by apply (run_batches_unstored _ _ _ _ _ _ _ _ _ _ _ batch_name items
                item).
  - rewrite Hrows.
    by rewrite filter_none by (by apply existsb_none).
Qed.

(** Post 42 passes every check of the pipeline; the scan over it is run
    twice, and both times the item ends as a processing error with no
    row stored. *)
Lemma detail_item_never_stored_witness :
  let run db :=
    scrape_post_batches forum_post detect_english translate_marked
      classify_positive ascii_only no_batch_raises db 3 "http://forum.onion/"
      (api_prompt iab_api) [("batch_001", [("/post/42", "2025-07-01 10:00")])]
      400%Z in
  let first := run (detail_db RUNNING None [post_42]) in
  let second := run first.1 in
  (∃ en, enrich forum_post detect_english translate_marked classify_positive
           ascii_only "http://forum.onion/" (api_prompt iab_api)
           "/post/42" "2025-07-01 10:00" = inr en)
  ∧ first.2 = [ProcessingError "http://forum.onion/post/42"]
  ∧ second.2 = [ProcessingError "http://forum.onion/post/42"]
  ∧ marketplace_post_details second.1 = [].
Proof.
  intros run first second.
  destruct (detail_item_never_stored forum_post detect_english
              translate_marked classify_positive ascii_only no_batch_raises
              first.1 3 "http://forum.onion/" (api_prompt iab_api)
              [("batch_001", [("/post/42", "2025-07-01 10:00")])] 400%Z)
    as [Hrows _].
  split; [by eexists|]. split; [reflexivity|]. split; [reflexivity|].
  fold (run first.1) in Hrows. fold second in Hrows. rewrite Hrows.
  reflexivity.
Defined.

(** C8 as stated fails.  A post with an empty title and a blank text,
    and a detector that would answer "ru" for any text (or raise on any
    text): the detector is not asked, both languages are ["en"] and not
    ["unknown"], and the translation is skipped. *)
Lemma blank_text_counts_as_english :
  is_blank "" = true ∧ is_blank "   " = true
  ∧ detect_languages detect_russian "" "   " = ("en", "en")
  ∧ detect_languages detect_raises "" "   " = ("en", "en")
  ∧ translations detect_russian translate_marked
      "http://forum.onion/post/55" "" "   "
    = inr (untranslated "", untranslated "   ").
Proof. by repeat split. Qed.

(** C8, amended.  The languages of title and content both become
    ["unknown"] whenever a call of the detector raises, and ["unknown"]
    forces the translation.  A blank title or content is not given to the
    detector and counts as ["en"], the canonical language.  The
    translation is skipped exactly when both languages are ["en"],
    detected or taken for blank; the entries written then carry
    [translated = false] and the same text as original and as
    translation.  In every other case the translation service is called,
    for the title and then for the content. *)
Theorem detect_languages_defaults
  (detect : string → option string)
  (translate_string : string → option translation)
  (full_url title content : string) :
  let language text := if is_blank text then Some "en" else detect text in
  (language title = None ∨ language content = None →
   detect_languages detect title content = ("unknown", "unknown"))
  ∧ (∀ title_lang content_lang,
       language title = Some title_lang →
       language content = Some content_lang →
       detect_languages detect title content = (title_lang, content_lang))
  ∧ (is_blank title = true → is_blank content = true →
     detect_languages detect title content = ("en", "en"))
  ∧ (detect_languages detect title content = ("en", "en") →
     translations detect translate_string full_url title content
     = inr (untranslated title, untranslated content)
     ∧ translated (untranslated content) = false
     ∧ translated_text (untranslated content)
       = Some (original_text (untranslated content)))
  ∧ (detect_languages detect title content ≠ ("en", "en") →
     translations detect translate_string full_url title content
     = match translate_string title with
       | None => inl (TranslationJsonError full_url "title")
       | Some title_trans =>
           match translate_string content with
           | None => inl (TranslationJsonError full_url "content")
           | Some content_trans => inr (title_trans, content_trans)
           end
       end).
Proof.
  intros language. unfold translations, detect_languages.
  change (if is_blank title then Some "en" else detect title)
    with (language title).
  change (if is_blank content then Some "en" else detect content)
    with (language content).
  assert (is_blank title = true → language title = Some "en") as Hbt
    by (unfold language; by intros ->).
  assert (is_blank content = true → language content = Some "en") as Hbc
    by (unfold language; by intros ->).
  destruct (language title) as [tl|], (language content) as [cl|].
  - split; [by intros [|]|]. split; [by intros ? ? [= ->] [= ->]|].
    split; [intros [= ->]%Hbt [= ->]%Hbc; done|].
    split.
    + intros [= -> ->]. by rewrite decide_True.
    + intros Hne. rewrite decide_False; [done|]. by intros [-> ->].
  - split; [done|]. split; [done|].
    split; [by intros _ ?%Hbc|]. split; [done|]. intros _.
    rewrite decide_False; [done|]. by intros [? _].
  - split; [done|]. split; [done|].
    split; [by intros ?%Hbt|]. split; [done|]. intros _.
    rewrite decide_False; [done|]. by intros [? _].
  - split; [done|]. split; [done|].
    split; [by intros ?%Hbt|]. split; [done|]. intros _.
    rewrite decide_False; [done|]. by intros [? _].
Qed.

(** A post whose title the detector reads as English and on whose text
    the detector raises: both languages are ["unknown"] and the
    translation service is called; with both read as English it is
    not. *)
Lemma detect_languages_defaults_witness :
  detect_languages
    (λ text, if decide (text = "Selling access") then Some "en" else None)
    "Selling access" "0day" = ("unknown", "unknown")
  ∧ translations
      (λ text, if decide (text = "Selling access") then Some "en" else None)
      translate_marked "http://forum.onion/post/9" "Selling access" "0day"
    = inr (default (untranslated "") (translate_marked "Selling access"),
           default (untranslated "") (translate_marked "0day"))
  ∧ translations detect_english translate_marked "http://forum.onion/post/9"
      "Selling access" "0day"
    = inr (untranslated "Selling access", untranslated "0day").
Proof.
  destruct (detect_languages_defaults
              (λ text, if decide (text = "Selling access") then Some "en"
                       else None)
              translate_marked "http://forum.onion/post/9" "Selling access"
              "0day") as (Hraise & _ & _ & _ & Hcall).
  destruct (detect_languages_defaults detect_english translate_marked
              "http://forum.onion/post/9" "Selling access" "0day")
    as (_ & _ & _ & Hskip & _).
  split; [|split].
  - apply Hraise. by right.
  - rewrite Hcall; [done|]. rewrite Hraise; [done|by right].
  - by apply Hskip.
Defined.

(** The handler of lines 284-303 taken by itself, from a text that
    [json.loads] rejects: a text that is not empty would be given to
    [eval] (line 290), and what [eval] makes of it stored like scraped
    posts, with the titles reduced to ASCII.  [sync_scrape_batch] never
    hands it such a text: what it parses is what [json.dumps] wrote. *)
Lemma malformed_text_is_evaluated
  (py_eval : string → option (dict Marketplace.post))
  (nfkc_ascii : string → string) (db : Db) (scan_id : nat) (text : string) :
  text ≠ "" →
  let result :=
    Marketplace.sync_scrape_batch_from py_eval nfkc_ascii db scan_id
      (inr (Marketplace.OtherText text)) in
  result.2 = [Marketplace.json_loads_call (Marketplace.OtherText text);
              Marketplace.eval_call text]
  ∧ (∀ raw_dict,
       py_eval text = Some raw_dict →
       result.1
       = Marketplace.save_posts db scan_id
           (Marketplace.sanitize nfkc_ascii raw_dict))
  ∧ (py_eval text = None →
     result.1 = (db, Marketplace.BatchRaised Marketplace.SanitizeError)).
Proof.
  intros Htext result. unfold result, Marketplace.sync_scrape_batch_from,
    Marketplace.parse_posts_data.
  rewrite decide_False by done.
  destruct (py_eval text) as [raw_dict|]; simpl.
  - destruct (Marketplace.save_posts db scan_id _) as [db' outcome] eqn:Hsave.
    split; [done|]. split; [|done]. intros ? [= <-]. by rewrite Hsave.
  - by repeat split.
Qed.

(** A text that is a Python literal and not JSON: it goes through
    [eval], and the post it evaluates to is stored without an error. *)
Lemma malformed_text_is_evaluated_witness :
  let result :=
    Marketplace.sync_scrape_batch_from literal_eval ascii_only
      (listing_db RUNNING None (Some "session=abc")) 7
      (inr (Marketplace.OtherText literal_text)) in
  literal_text ≠ ""
  ∧ result.2
    = [Marketplace.json_loads_call (Marketplace.OtherText literal_text);
       Marketplace.eval_call literal_text]
  ∧ result.1.2 = Marketplace.BatchOk
  ∧ marketplace_posts result.1.1
    = [{| mp_scan_id := 7; mp_timestamp := "2025-07-03 08:00";
          mp_title := "Shell on mail server"; mp_author := "dave";
          mp_link := "/post/9" |}].
Proof.
  intros result.
  assert (literal_text ≠ "") as Htext by done.
  destruct (malformed_text_is_evaluated literal_eval ascii_only
              (listing_db RUNNING None (Some "session=abc")) 7 literal_text
              Htext) as (Hcalls & _ & _).
  split; [done|]. split; [exact Hcalls|]. split; reflexivity.
Defined.



End DetailClaims.

(** ** Searching and cutting texts *)

Section TextFacts.
Import PyText.

#[local] Arguments String.append !_ _ / : simpl nomatch.

Lemma length_append (a b : string) :
  String.length (a +:+ b) = String.length a + String.length b.
Proof. induction a as [|c a IH]; simpl; [done|]. by rewrite IH. Qed.

Lemma prefix_app (a b : string) : String.prefix a (a +:+ b) = true.
Proof.
  induction a as [|c a IH]; [by destruct b|]. simpl.
  by destruct (Ascii.ascii_dec c c).
Qed.

Lemma prefix_inv (a s : string) :
  String.prefix a s = true → ∃ t, s = a +:+ t.
Proof.
  revert s. induction a as [|c a IH]; intros s H.
  - by exists s.
  - destruct s as [|d s]; [done|]. simpl in H.
    destruct (Ascii.ascii_dec c d) as [->|]; [|done].
    destruct (IH _ H) as [t ->]. by exists t.
Qed.

Lemma prefix_length (a s : string) :
  String.prefix a s = true → String.length a ≤ String.length s.
Proof.
  intros [t ->]%prefix_inv. rewrite length_append. lia.
Qed.

Lemma take_chars_app (a b : string) : take_chars (String.length a) (a +:+ b) = a.
Proof.
  induction a as [|c a IH]; simpl; [by destruct b|]. by rewrite IH.
Qed.

Lemma drop_chars_app (a b : string) : drop_chars (String.length a) (a +:+ b) = b.
Proof. induction a as [|c a IH]; simpl; [by destruct b|]. done. Qed.

Lemma take_chars_length (n : nat) (s : string) :
  String.length (take_chars n s) = n `min` String.length s.
Proof.
  revert s. induction n as [|n IH]; intros [|c s]; simpl; try done.
  by rewrite IH.
Qed.

Lemma take_drop_chars (n : nat) (s : string) :
  take_chars n s +:+ drop_chars n s = s.
Proof.
  revert s. induction n as [|n IH]; intros [|c s]; simpl; try done.
  by rewrite IH.
Qed.

Lemma take_chars_all (n : nat) (s : string) :
  String.length s ≤ n → take_chars n s = s.
Proof.
  revert s. induction n as [|n IH]; intros [|c s]; simpl; try done; [lia|].
  intros ?. rewrite IH; [done|lia].
Qed.

(** [find] answers an index at which the text occurs, and the least. *)
Lemma find_Some (sub s : string) (i : nat) :
  find sub s = Some i →
  String.prefix sub (drop_chars i s) = true
  ∧ i + String.length sub ≤ String.length s
  ∧ ∀ j, j < i → String.prefix sub (drop_chars j s) = false.
Proof.
  revert i. induction s as [|c s IH]; intros i.
  - cbn [find]. destruct (String.prefix sub "") eqn:Hp; [|done].
    intros [= <-]. split_and!; [done| |lia].
    apply prefix_length in Hp. simpl in *. lia.
  - cbn [find]. destruct (String.prefix sub (String c s)) eqn:Hp.
    + intros [= <-]. split_and!; [done| |lia].
      apply prefix_length in Hp. lia.
    + destruct (find sub s) as [k|] eqn:Hf; [|done].
      intros [= <-]. destruct (IH k eq_refl) as (H1 & H2 & H3).
      split_and!; [done|simpl; lia|].
      intros [|j] ?; [done|]. apply H3. lia.
Qed.

Lemma find_None (sub s : string) :
  find sub s = None ↔ contains sub s = false.
Proof.
  induction s as [|c s IH]; cbn [find contains].
  - destruct (String.prefix sub ""); naive_solver.
  - destruct (String.prefix sub (String c s)); [naive_solver|].
    rewrite orb_false_l, <- IH. destruct (find sub s); naive_solver.
Qed.

Lemma contains_has_char (c : ascii) (s : string) :
  contains (String c "") s = has_char c s.
Proof.
  induction s as [|d s IH]; [done|].
  cbn [contains has_char String.prefix]. rewrite IH.
  destruct (Ascii.ascii_dec c d) as [->|Hne].
  - rewrite bool_decide_eq_true_2 by done. by destruct s.
  - rewrite bool_decide_eq_false_2 by congruence. done.
Qed.

(** A text that begins with a character is found behind any text that
    lacks the character. *)
Lemma find_behind (c : ascii) (sub pre post : string) :
  has_char c pre = false →
  find (String c sub) (pre +:+ String c sub +:+ post)
  = Some (String.length pre).
Proof.
  induction pre as [|d pre IH]; intros Hpre.
  - change ("" +:+ ?x) with x. pose proof (prefix_app (String c sub) post) as Hp.
    destruct post; simpl in Hp |- *; by rewrite Hp.
  - simpl in Hpre. apply orb_false_iff in Hpre as [Hd Hpre].
    apply bool_decide_eq_false in Hd.
    change (String d pre +:+ ?x) with (String d (pre +:+ x)).
    cbn [find String.prefix].
    destruct (Ascii.ascii_dec c d); [congruence|].
    by rewrite IH.
Qed.

Lemma before_no_char (c : ascii) (s : string) :
  has_char c (before (String c "") s) = false.
Proof.
  unfold before. induction s as [|d s IH]; [done|].
  cbn [find String.prefix].
  destruct (Ascii.ascii_dec c d) as [->|Hne].
  { by destruct s. }
  destruct (find (String c "") s) as [i|] eqn:Hf; simpl.
  - rewrite bool_decide_eq_false_2 by congruence. done.
  - rewrite bool_decide_eq_false_2 by congruence. simpl.
    apply find_None in Hf. by rewrite contains_has_char in Hf.
Qed.

Lemma before_id (sep s : string) :
  sep ≠ "" → before sep s = s ↔ contains sep s = false.
Proof.
  intros Hsep. unfold before. destruct (find sep s) as [i|] eqn:Hf.
  - split.
    + intros Heq. apply find_Some in Hf as (_ & Hlen & _).
      apply (f_equal String.length) in Heq.
      rewrite take_chars_length in Heq.
      destruct sep; [done|]. simpl in Hlen. lia.
    + intros Hc%find_None. congruence.
  - by rewrite <- find_None.
Qed.

(** The first piece of a split is the text in front of the first
    separator. *)
Lemma split_from_head (fuel : nat) (sep s : string) :
  sep ≠ "" → 0 < fuel ∨ s = "" →
  head (split_from fuel sep s) = Some (before sep s).
Proof.
  intros Hsep Hfuel. unfold before. destruct fuel as [|fuel].
  - destruct Hfuel as [?| ->]; [lia|]. simpl.
    destruct sep; [done|]. done.
  - simpl. by destruct (find sep s).
Qed.

(** Behind a first piece without the separator, the second piece of a
    split is the text up to the next separator. *)

(** Behind a first piece without the separator, the second piece of a
    split is the text up to the next separator. *)
Lemma split_char_second (c : ascii) (a rest : string) :
  has_char c a = false →
  split (String c "") (a +:+ String c rest) !! 1
  = Some (before (String c "") rest).
Proof.
  intros Ha. unfold split.
  replace (String.length (a +:+ String c rest))
    with (S (String.length a + String.length rest))
    by (rewrite length_append; simpl; lia).
  cbn [split_from].
  pose proof (find_behind c "" a rest Ha) as Hfind.
  change (String c "" +:+ rest) with (String c rest) in Hfind.
  rewrite Hfind. cbn [String.length].
  match goal with
  | |- (_ :: ?l) !! 1 = ?r => change (l !! 0 = r)
  end.
  rewrite <- head_lookup.
  replace (drop_chars (String.length a + 1) (a +:+ String c rest)) with rest.
  2:{ rewrite <- (drop_chars_app (a +:+ String c "") rest) at 1.
      rewrite length_append, append_assoc. done. }
  apply split_from_head; [done|].
  destruct rest; [by right|left; simpl; lia].
Qed.

End TextFacts.

Section SessionCookieFacts.
Import PyText SessionCookie.

#[local] Arguments String.append !_ _ / : simpl nomatch.

(** X1.  The cookie that [perform_bot_login] stores as
    ["session=" + cookie] comes back whole from the watchlist's reader,
    whereas the reader of the listing and detail scans returns the part of
    the cookie in front of its first [=]: it gives the cookie back exactly
    when the cookie holds no [=].  Neither subscript is ever out of
    range. *)
Theorem session_cookie_cut_at_equals (cookie : string) :
  profile_session_cookie (stored_session cookie) = Some cookie
  ∧ session_cookie (stored_session cookie) = Some (before "=" cookie)
  ∧ has_char "=" (before "=" cookie) = false
  ∧ (session_cookie (stored_session cookie) = Some cookie
     ↔ has_char "=" cookie = false).
Proof.
  assert (Hcut : session_cookie (stored_session cookie)
                 = Some (before "=" cookie)).
  { unfold session_cookie, stored_session.
    replace (contains "=" ("session=" +:+ cookie)) with true
      by (by destruct cookie).
    apply (split_char_second "=" "session" cookie). done. }
  split_and!; [|done|apply before_no_char|].
  - unfold profile_session_cookie, stored_session, split_once.
    replace (contains "session=" ("session=" +:+ cookie)) with true
      by (by destruct cookie).
    replace (find "session=" ("session=" +:+ cookie)) with (Some 0)
      by (by destruct cookie).
    rewrite bool_decide_eq_true_2 by (simpl; congruence). done.
  - rewrite Hcut. rewrite <- contains_has_char.
    rewrite <- (before_id "=" cookie) by done.
    split; [by intros [= ?]|congruence].
Qed.

End SessionCookieFacts.

(** ** Stripping *)

Section StripFacts.
Import PyText.

#[local] Arguments String.append !_ _ / : simpl nomatch.

Lemma rstrip_with_idemp (p : ascii → bool) (s : string) :
  rstrip_with p (rstrip_with p s) = rstrip_with p s.
Proof.
  induction s as [|c t IH]; [done|]. cbn [rstrip_with].
  destruct (rstrip_with p t) as [|d r] eqn:Hr.
  - destruct (p c) eqn:Hc; [done|]. cbn [rstrip_with]. by rewrite Hc.
  - change (rstrip_with p (String c (String d r)))
      with (match rstrip_with p (String d r) with
            | "" => if p c then "" else String c ""
            | String x y => String c (String x y)
            end).
    by rewrite IH.
Qed.

(** The text that [rstrip] takes off. *)
Lemma rstrip_with_prefix (p : ascii → bool) (s : string) :
  ∃ b, s = rstrip_with p s +:+ b.
Proof.
  induction s as [|c t [b IH]]; [by exists ""|]. cbn [rstrip_with].
  destruct (rstrip_with p t) as [|d r] eqn:Hr.
  - destruct (p c).
    + by exists (String c t).
    + exists t. done.
  - exists b. simpl in IH |- *. by rewrite <- IH.
Qed.

Lemma rstrip_with_head (p : ascii → bool) (c : ascii) (t : string) :
  p c = false → ∃ t', rstrip_with p (String c t) = String c t'.
Proof.
  intros Hc. cbn [rstrip_with]. destruct (rstrip_with p t).
  - rewrite Hc. by exists "".
  - by eexists.
Qed.

Lemma lstrip_with_cases (p : ascii → bool) (s : string) :
  lstrip_with p s = ""
  ∨ ∃ c t, lstrip_with p s = String c t ∧ p c = false.
Proof.
  induction s as [|c t IH]; [by left|]. cbn [lstrip_with].
  destruct (p c) eqn:Hc; [done|]. right. by exists c, t.
Qed.

Lemma lstrip_with_suffix (p : ascii → bool) (s : string) :
  ∃ a, s = a +:+ lstrip_with p s.
Proof.
  induction s as [|c t [a IH]]; [by exists ""|]. cbn [lstrip_with].
  destruct (p c); [|by exists ""].
  exists (String c a). simpl. by rewrite <- IH.
Qed.

(** [strip] does nothing to a text it produced. *)
Lemma strip_idemp (s : string) : strip (strip s) = strip s.
Proof.
  unfold strip.
  destruct (lstrip_with_cases py_isspace s) as [->|(c & t & -> & Hc)].
  { done. }
  destruct (rstrip_with_head py_isspace c t Hc) as [t' Ht].
  rewrite Ht. cbn [lstrip_with]. rewrite Hc, <- Ht.
  apply rstrip_with_idemp.
Qed.

Lemma strip_parts (s : string) : ∃ a b, s = a +:+ strip s +:+ b.
Proof.
  unfold strip.
  destruct (lstrip_with_suffix py_isspace s) as [a Ha].
  destruct (rstrip_with_prefix py_isspace (lstrip_with py_isspace s))
    as [b Hb].
  exists a, b. by rewrite <- Hb.
Qed.

(** An occurrence in a part of a text is an occurrence in the text. *)
Lemma contains_app_l (sub a b : string) :
  contains sub a = true → contains sub (a +:+ b) = true.
Proof.
  induction a as [|c a IH]; intros H.
  - cbn [contains] in H. rewrite orb_false_r in H.
    apply prefix_inv in H as [t Ht]. destruct sub; [|done].
    by destruct b.
  - change (String c a +:+ b) with (String c (a +:+ b)).
    cbn [contains] in H |- *.
    apply orb_true_iff in H as [Hp|Hc]; apply orb_true_iff.
    + left. apply prefix_inv in Hp as [t Ht].
      replace (String c (a +:+ b)) with (sub +:+ (t +:+ b));
        [apply prefix_app|].
      rewrite <- append_assoc, <- Ht. done.
    + right. by apply IH.
Qed.

Lemma contains_app_r (sub a b : string) :
  contains sub b = true → contains sub (a +:+ b) = true.
Proof.
  intros Hb. induction a as [|c a IH]; [done|].
  change (String c a +:+ b) with (String c (a +:+ b)).
  cbn [contains]. apply orb_true_iff. by right.
Qed.

Lemma contains_strip (sub s : string) :
  contains sub s = false → contains sub (strip s) = false.
Proof.
  intros Hs. destruct (strip_parts s) as (a & b & Heq).
  destruct (contains sub (strip s)) eqn:Hc; [|done].
  rewrite Heq in Hs. rewrite contains_app_r in Hs; [done|].
  by apply contains_app_l.
Qed.

(** The text in front of the first occurrence holds none. *)
Lemma prefix_take_chars (sub s : string) (n : nat) :
  String.prefix sub (take_chars n s) = true → String.prefix sub s = true.
Proof.
  intros [t Ht]%prefix_inv.
  rewrite <- (take_drop_chars n s), Ht, append_assoc. apply prefix_app.
Qed.

Lemma drop_take_chars (i j : nat) (s : string) :
  drop_chars j (take_chars i s) = take_chars (i - j) (drop_chars j s).
Proof.
  revert j s. induction i as [|i IH]; intros [|j] [|c s]; simpl; try done.
  by destruct (i - j).
Qed.

Lemma contains_before (sep s : string) :
  sep ≠ "" → contains sep (before sep s) = false.
Proof.
  intros Hsep. unfold before.
  destruct (find sep s) as [i|] eqn:Hf; [|by apply find_None].
  apply find_Some in Hf as (_ & _ & Hmin).
  apply find_None. destruct (find sep (take_chars i s)) as [j|] eqn:Hj; [|done].
  apply find_Some in Hj as (Hp & Hlen & _).
  rewrite take_chars_length in Hlen.
  rewrite drop_take_chars in Hp. apply prefix_take_chars in Hp.
  rewrite Hmin in Hp; [done|]. destruct sep; [done|]. simpl in Hlen. lia.
Qed.

End StripFacts.

(** ** The post page, the translation and the classification *)

Section PostScraperFacts.
Import PyText Posts PostScraper.

#[local] Arguments String.append !_ _ / : simpl nomatch.

Lemma find_no_char (c : ascii) (sub s : string) :
  has_char c s = false → find (String c sub) s = None.
Proof.
  induction s as [|d s IH]; [done|]. cbn [has_char find String.prefix].
  intros [Hd Hs]%orb_false_iff. apply bool_decide_eq_false in Hd.
  destruct (Ascii.ascii_dec c d); [congruence|]. by rewrite IH.
Qed.

Lemma find_at_start (sub t : string) : find sub (sub +:+ t) = Some 0.
Proof.
  pose proof (prefix_app sub t) as Hp.
  destruct (sub +:+ t); unfold find; fold find; by rewrite Hp.
Qed.

Lemma find_cons (sub : string) (c : ascii) (t : string) :
  find sub (String c t)
  = if String.prefix sub (String c t) then Some 0 else S <$> find sub t.
Proof. done. Qed.

(** A text of two different leading characters is found right behind a
    text that lacks the second one, whatever stands in front. *)
Lemma find_after_gap (c1 c2 x : ascii) (r body post : string) :
  c1 ≠ c2 → has_char c2 body = false →
  find (String c1 (String c2 r))
       (String x (body +:+ String c1 (String c2 r) +:+ post))
  = Some (S (String.length body)).
Proof.
  intros Hne. revert x. induction body as [|d body IH]; intros x Hbody.
  - change ("" +:+ ?t) with t.
    change (String c1 (String c2 r) +:+ post)
      with (String c1 (String c2 (r +:+ post))).
    cbn [find String.prefix].
    destruct (Ascii.ascii_dec c1 x) as [->|].
    + destruct (Ascii.ascii_dec c2 x); [congruence|].
      destruct (Ascii.ascii_dec x x); [|done].
      destruct (Ascii.ascii_dec c2 c2); [|done].
      pose proof (prefix_app r post) as ->. done.
    + destruct (Ascii.ascii_dec c1 c1); [|done].
      destruct (Ascii.ascii_dec c2 c2); [|done].
      pose proof (prefix_app r post) as ->. done.
  - cbn [has_char] in Hbody. apply orb_false_iff in Hbody as [Hd Hbody].
    apply bool_decide_eq_false in Hd.
    change (String d body +:+ ?t) with (String d (body +:+ t)).
    rewrite find_cons, (IH d Hbody).
    replace (String.prefix (String c1 (String c2 r))
               (String x (String d (body +:+ String c1 (String c2 r) +:+ post))))
      with false; [done|].
    cbn [String.prefix]. destruct (Ascii.ascii_dec c1 x); [|done].
    destruct (Ascii.ascii_dec c2 d); [congruence|done].
Qed.

(** The dictionary that [scrape_post_details] returns always has the
    four fields that its caller requires. *)
Lemma scrape_post_details_fields (fetched : page_fetch) :
  ∃ t ts a c,
    dict_get "title" (as_texts (scrape_post_details fetched)) = Some t
    ∧ dict_get "timestamp" (as_texts (scrape_post_details fetched)) = Some ts
    ∧ dict_get "author" (as_texts (scrape_post_details fetched)) = Some a
    ∧ dict_get "content" (as_texts (scrape_post_details fetched)) = Some c.
Proof.
  destruct fetched as [m|m|[t [[l a d]|]]]; [by eexists _, _, _, _..| |];
    [destruct d as [| | |[[|n]|]]|]; by eexists _, _, _, _.
Qed.

Lemma drop_chars_add (n m : nat) (s : string) :
  drop_chars (n + m) s = drop_chars m (drop_chars n s).
Proof.
  revert s. induction n as [|n IH]; intros [|c s]; simpl; try done.
  by destruct m.
Qed.

(** Behind an opening fence with no backquote in front, the slice starts
    at the line feed that ends the fence and runs to the first closing
    fence from there. *)
Lemma fenced_json_found (pre rest : string) (j : nat) :
  has_char "`" pre = false →
  find closing_fence (LF +:+ rest) = Some j →
  fenced_json (pre +:+ opening_fence +:+ rest)
  = Some (take_chars j (LF +:+ rest)).
Proof.
  intros Hpre Hj. unfold fenced_json.
  pose proof (find_behind "`" ("``json" +:+ LF) pre rest Hpre) as Hfind.
  change (String "`" ("``json" +:+ LF)) with opening_fence in Hfind.
  rewrite Hfind. cbn [mbind option_bind]. unfold index_from.
  assert (Hdrop : drop_chars (String.length pre + 7)
                    (pre +:+ opening_fence +:+ rest) = LF +:+ rest).
  { rewrite drop_chars_add, drop_chars_app. done. }
  rewrite Hdrop, Hj.
  replace (String.length (pre +:+ opening_fence +:+ rest)
           <? String.length pre + 7) with false.
  2:{ symmetry. apply Nat.ltb_ge. rewrite !length_append. simpl. lia. }
  cbn [fmap option_fmap option_map mbind option_bind]. unfold str_slice.
  rewrite Hdrop. do 2 f_equal. lia.
Qed.

(** What [enrich] can report when the three calls are the functions of
    [post_scraper.py]. *)
Lemma enrich_wired_errors (site : string → page_fetch)
  (detect : string → option string) (deepl : string → option (string * string))
  (claude : string → option string)
  (json_loads : string → option (option iab_result))
  (nfkc_ascii : string → string)
  (site_url iab_prompt post_link post_timestamp : string) (e : scan_error) :
  enrich (detail_scraper site) detect (translator deepl)
    (classifier claude json_loads) nfkc_ascii
    site_url iab_prompt post_link post_timestamp = inl e →
  (∃ url error, e = ScrapingError url error)
  ∨ (∃ url expected got, e = TimestampMismatch url expected got)
  ∨ (∃ url, e = ProcessingError url).
Proof.
  unfold enrich, detail_scraper.
  set (full_url := rstrip_char "/" site_url +:+ "/" +:+ lstrip_char "/" post_link).
  destruct (scrape_post_details_fields (site full_url))
    as (t & ts & a & c & -> & -> & -> & ->).
  destruct (dict_get "error" _) as [error|]; [intros [= <-]; left; eauto|].
  case_decide; [intros [= <-]; right; left; eauto|].
  unfold translations, translator.
  destruct (detect_languages detect _ _) as [title_lang content_lang].
  case_decide.
  - unfold classifier, iab_classify.
    destruct (claude _) as [content|]; [|intros [= <-]; eauto].
    destruct (fenced_json content) as [text|]; [|intros [= <-]; eauto].
    destruct (json_loads text) as [[r|]|]; [done|done|intros [= <-]; eauto].
  - unfold classifier, iab_classify.
    destruct (claude _) as [content|]; [|intros [= <-]; eauto].
    destruct (fenced_json content) as [text|]; [|intros [= <-]; eauto].
    destruct (json_loads text) as [[r|]|]; [done|done|intros [= <-]; eauto].
Qed.

(** A turn of the loop with the three calls wired: the state is left as
    it is, or one entry of the three kinds is appended. *)
Lemma wired_scrape_one_cases (site : string → page_fetch)
  (detect : string → option string) (deepl : string → option (string * string))
  (claude : string → option string)
  (json_loads : string → option (option iab_result))
  (nfkc_ascii : string → string) (scan_id : nat)
  (batch_name site_url iab_prompt : string) (st : scan_state)
  (item : string * string) :
  let st' := wired_scrape_one site detect deepl claude json_loads nfkc_ascii
               scan_id batch_name site_url iab_prompt st item in
  st' = st
  ∨ ∃ e, st' = (st.1, st.2 ++ [e])
         ∧ ((∃ url error, e = ScrapingError url error)
            ∨ (∃ url expected got, e = TimestampMismatch url expected got)
            ∨ (∃ url, e = ProcessingError url)).
Proof.
  intros st'. subst st'. unfold wired_scrape_one.
  assert (∀ other,
            other
            = scrape_one (detail_scraper site) detect (translator deepl)
                (classifier claude json_loads) nfkc_ascii scan_id batch_name
                site_url iab_prompt st item →
            other = st
            ∨ ∃ e, other = (st.1, st.2 ++ [e])
                   ∧ ((∃ url error, e = ScrapingError url error)
                      ∨ (∃ url expected got,
                           e = TimestampMismatch url expected got)
                      ∨ (∃ url, e = ProcessingError url))) as Hother.
  { intros other ->.
    destruct (scrape_one_cases (detail_scraper site) detect (translator deepl)
                (classifier claude json_loads) nfkc_ascii
                scan_id batch_name site_url iab_prompt st item)
      as [[-> _]|(e & -> & He)]; [by left|].
    right. exists e. split; [done|].
    destruct He as [He|(en & _ & ->)]; [|eauto].
    by apply enrich_wired_errors in He. }
  destruct (dict_get "timestamp" _) as [[ts|]|]; [by apply Hother| |by apply Hother].
  right. eexists. split; [done|]. right. left. eauto.
Qed.

End PostScraperFacts.

Section PostScraperClaims.
Import PyText Posts PostScraper.

#[local] Arguments String.append !_ _ / : simpl nomatch.

Lemma has_char_app (c : ascii) (a b : string) :
  has_char c (a +:+ b) = has_char c a || has_char c b.
Proof.
  induction a as [|d a IH]; [done|]. simpl. by rewrite IH, orb_assoc.
Qed.

(** X2.  [iab_classify] cuts the classifier's answer from seven
    characters behind the start of the eight-character opening fence: the
    text handed to [json.loads] begins with the line feed that ends the
    fence and stops in front of the first closing fence.  When the
    closing fence follows the opening one at once, the two share that
    line feed and the text is empty; an answer without a backquote has no
    fence and gives no text. *)
Theorem fenced_json_slice (pre body post : string) :
  has_char "`" pre = false → has_char "`" body = false →
  fenced_json (pre +:+ opening_fence +:+ body +:+ closing_fence +:+ post)
  = Some (LF +:+ body)
  ∧ fenced_json (pre +:+ "```json" +:+ closing_fence +:+ post) = Some ""
  ∧ fenced_json (pre +:+ body) = None.
Proof.
  intros Hpre Hbody. split_and!.
  - rewrite (fenced_json_found pre (body +:+ closing_fence +:+ post)
               (S (String.length body)) Hpre).
    + change (LF +:+ ?x) with (String (ascii_of_nat 10) x).
      cbn [take_chars]. by rewrite take_chars_app.
    + apply (find_after_gap (ascii_of_nat 10) "`" (ascii_of_nat 10) "``"
               body post); [done|done].
  - change (pre +:+ "```json" +:+ closing_fence +:+ post)
      with (pre +:+ opening_fence +:+ "```" +:+ post).
    rewrite (fenced_json_found pre ("```" +:+ post) 0 Hpre); [done|].
    change (LF +:+ "```" +:+ post) with (closing_fence +:+ post).
    apply find_at_start.
  - unfold fenced_json.
    rewrite (find_no_char "`" ("``json" +:+ LF)); [done|].
    by rewrite has_char_app, Hpre, Hbody.
Qed.

Lemma fenced_json_slice_witness :
  has_char "`" ("Result:" +:+ LF) = false ∧ has_char "`" "{}" = false
  ∧ fenced_json (("Result:" +:+ LF) +:+ opening_fence +:+ "{}"
                 +:+ closing_fence +:+ "")
    = Some (LF +:+ "{}").
Proof.
  split_and!; [reflexivity..|].
  apply (fenced_json_slice ("Result:" +:+ LF) "{}" ""); reflexivity.
Defined.

(** X3.  With [scrape_post_details], [translate_string] and
    [iab_classify] as [post_scraper.py] defines them, a batch only ever
    appends three kinds of entries to [scan_errors]: a scraping error, a
    timestamp mismatch, a processing error.  The entries for no data, for
    text that is not JSON, for missing fields, and for translation or
    classification answers that are not JSON are never written: the
    scraper always returns a JSON object with the four fields, the
    translation always returns JSON, and a failed classification comes
    back as a [dict], which fails in [json.loads] with a [TypeError].  A
    timestamp that the scraper returns as a list is a timestamp
    mismatch. *)
Theorem detail_batch_error_kinds (site : string → page_fetch)
  (detect : string → option string) (deepl : string → option (string * string))
  (claude : string → option string)
  (json_loads : string → option (option iab_result))
  (nfkc_ascii : string → string) (scan_id : nat)
  (batch_name site_url iab_prompt : string) (st : scan_state)
  (batch_posts : list (string * string)) :
  ∃ added,
    wired_sync_scrape_post site detect deepl claude json_loads nfkc_ascii
      scan_id batch_name site_url iab_prompt st batch_posts
    = (st.1, st.2 ++ added)
    ∧ Forall (λ e, (∃ url error, e = ScrapingError url error)
                   ∨ (∃ url expected got,
                        e = TimestampMismatch url expected got)
                   ∨ (∃ url, e = ProcessingError url)) added.
Proof.
  unfold wired_sync_scrape_post. revert st.
  induction batch_posts as [|item items IH]; intros st.
  { exists []. rewrite app_nil_r. by destruct st. }
  cbn [foldl].
  destruct (wired_scrape_one_cases site detect deepl claude json_loads
              nfkc_ascii scan_id batch_name site_url iab_prompt st item)
    as [->|(e & -> & He)]; [apply IH|].
  destruct (IH (st.1, st.2 ++ [e])) as (added & -> & Hadded).
  exists (e :: added). cbn [fst snd]. rewrite <- app_assoc. split; [done|].
  by constructor.
Qed.

(** X4.  The dictionary that [scrape_post_details] returns always has
    the four fields [title], [timestamp], [author] and [content].  Title,
    author and content are texts without blanks at either end, and the
    content never holds the text ["Posted by:"].  The timestamp is such a
    text too, or the empty list: that is what it is exactly when the date
    is followed by an element whose first descendant named [strip] holds
    no element.  The dictionary has an [error] entry exactly when the
    request or the parsing failed, or the date is followed by an element
    that has no descendant named [strip] or whose first such descendant
    holds elements; the four fields are then empty texts. *)
Theorem scrape_post_details_result (fetched : page_fetch) :
  let result := scrape_post_details fetched in
  ∃ t ts a c,
    dict_get "title" result = Some (FieldText t)
    ∧ dict_get "timestamp" result = Some ts
    ∧ dict_get "author" result = Some (FieldText a)
    ∧ dict_get "content" result = Some (FieldText c)
    ∧ strip t = t ∧ strip a = a ∧ strip c = c
    ∧ (ts = FieldEmptyList ∨ ∃ text, ts = FieldText text ∧ strip text = text)
    ∧ contains "Posted by:" c = false
    ∧ (dict_get "error" result ≠ None →
       t = "" ∧ ts = FieldText "" ∧ a = "" ∧ c = "")
    ∧ (dict_get "error" result = None ↔
       ∃ p, fetched = Page p
            ∧ ∀ k strip_tags,
                page_card p = Some k → card_date k = SiblingTag strip_tags →
                strip_tags = Some 0)
    ∧ (ts = FieldEmptyList ↔
       ∃ p k, fetched = Page p ∧ page_card p = Some k
              ∧ card_date k = SiblingTag (Some 0)).
Proof.
  assert (Hopt : ∀ o : option string,
            strip (default "" (strip <$> o)) = default "" (strip <$> o)).
  { intros [s|]; [apply strip_idemp|done]. }
  assert (Hcontent : ∀ lines,
            let c := match split "Posted by:" lines with
                     | [] => ""
                     | part :: _ => strip part
                     end in
            strip c = c ∧ contains "Posted by:" c = false).
  { intros lines.
    pose proof (split_from_head (String.length lines) "Posted by:" lines)
      as Hhead.
    fold (split "Posted by:" lines) in Hhead.
    destruct (split "Posted by:" lines) as [|part rest]; [done|].
    simpl. split; [apply strip_idemp|].
    apply contains_strip.
    assert (part = before "Posted by:" lines) as ->.
    { destruct lines; [|by apply (inj Some), Hhead; [|left; simpl; lia]].
      by apply (inj Some), Hhead; [|right]. }
    by apply contains_before. }
  destruct fetched as [m|m|[t [[l a d]|]]]; cbn zeta.
  - exists "", (FieldText ""), "", "". split_and!; try done.
    + right. by exists "".
    + split; [done|]. by intros (p & ? & _).
    + split; [done|]. by intros (p & k & ? & _).
  - exists "", (FieldText ""), "", "". split_and!; try done.
    + right. by exists "".
    + split; [done|]. by intros (p & ? & _).
    + split; [done|]. by intros (p & k & ? & _).
  - destruct (Hcontent l) as [Hc1 Hc2].
    destruct d as [| |text|[[|n]|]].
    + eexists _, (FieldText ""), _, _.
      split_and!; try done; try apply Hopt.
      * right. by exists "".
      * split; [|done]. intros _. eexists. split; [done|].
        by intros k st [= <-].
      * split; [done|]. by intros (p & k & [= <-] & [= <-] & ?).
    + eexists _, (FieldText ""), _, _.
      split_and!; try done; try apply Hopt.
      * right. by exists "".
      * split; [|done]. intros _. eexists. split; [done|].
        by intros k st [= <-].
      * split; [done|]. by intros (p & k & [= <-] & [= <-] & ?).
    + eexists _, (FieldText _), _, _.
      split_and!; try done; try apply Hopt.
      * right. eexists. split; [done|]. apply strip_idemp.
      * split; [|done]. intros _. eexists. split; [done|].
        by intros k st [= <-].
      * split; [done|]. by intros (p & k & [= <-] & [= <-] & ?).
    + eexists _, FieldEmptyList, _, _.
      split_and!; try done; try apply Hopt.
      * by left.
      * split; [|done]. intros _. eexists. split; [done|].
        by intros k st [= <-] [= <-].
      * split; [|done]. intros _. by eexists _, _.
    + exists "", (FieldText ""), "", "". split_and!; try done.
      * right. by exists "".
      * split; [done|]. intros (p & [= <-] & Hp).
        by pose proof (Hp _ _ eq_refl eq_refl).
      * split; [done|]. by intros (p & k & [= <-] & [= <-] & ?).
    + exists "", (FieldText ""), "", "". split_and!; try done.
      * right. by exists "".
      * split; [done|]. intros (p & [= <-] & Hp).
        by pose proof (Hp _ _ eq_refl eq_refl).
      * split; [done|]. by intros (p & k & [= <-] & [= <-] & ?).
  - eexists _, (FieldText ""), "", "".
    split_and!; try done; try apply Hopt.
    + right. by exists "".
    + split; [|done]. intros _. eexists. split; [done|]. by intros k st.
    + split; [done|]. by intros (p & k & [= <-] & ? & ?).
Qed.

End PostScraperClaims.

(** ** The login loop *)

Section LoginLoopFacts.
Import Captcha LoginLoop.

(** How a turn ends does not depend on the counter; only the new value
    of the counter does. *)
Lemma login_turn_kind (attempt_count : nat) (io : attempt_io) :
  login_turn attempt_count io
  = match login_turn 0 io with
    | Retry _ _ => count_failure attempt_count
    | r => r
    end.
Proof.
  unfold login_turn.
  destruct (login_page io) as [[]|]; try done.
  destruct (captcha_saved io); try done.
  destruct (solve_captcha (solver io)); try done.
  destruct (login_reply io) as [text|]; try done.
  by repeat case_match.
Qed.

Lemma login_turn_fails (attempt_count : nat) (io : attempt_io) :
  turn_fails io = true →
  login_turn attempt_count io = count_failure attempt_count.
Proof.
  unfold turn_fails. rewrite (login_turn_kind attempt_count).
  by destruct (login_turn 0 io).
Qed.

Lemma login_run_result (attempt_count sleeps : nat) (turns : list attempt_io) :
  (login_run attempt_count sleeps turns).2
  = login_to_tor_website attempt_count turns.
Proof.
  revert attempt_count sleeps.
  induction turns as [|io rest IH]; intros n s; [done|].
  simpl. destruct (login_turn n io); [apply IH|done..].
Qed.

Lemma login_run_failures (n s : nat) (turns : list attempt_io) :
  n < max_attempts → Forall (λ io, turn_fails io = true) turns →
  login_run n s turns
  = ((n + length turns) `mod` max_attempts,
     s + (n + length turns) `div` max_attempts, None).
Proof.
  intros Hn Hturns. revert n s Hn.
  induction Hturns as [|io rest Hio _ IH]; intros n s Hn.
  - cbn [login_run length].
    rewrite Nat.add_0_r, Nat.mod_small, Nat.div_small by done.
    by rewrite Nat.add_0_r.
  - cbn [login_run]. rewrite (login_turn_fails n io Hio).
    unfold max_attempts in *.
    destruct (count_failure_cases n) as [[Hlt ->]|[Hge ->]].
    + rewrite IH by done. cbn [length].
      replace (n + 1 + length rest) with (n + S (length rest)) by lia. done.
    + rewrite IH by lia. cbn [length]. unfold max_attempts in *.
      assert (n = 8) as -> by lia.
      replace (8 + S (length rest)) with (length rest + 1 * 9) by lia.
      rewrite Nat.Div0.mod_add, Nat.div_add by done.
      do 2 f_equal. simpl. lia.
Qed.

(** A turn either counts a failure before the form is submitted, or
    ends as the server's reply decides. *)
Lemma login_turn_cases (n : nat) (io : attempt_io) :
  login_turn n io = count_failure n
  ∨ ∃ code text,
      login_page io = Some true ∧ captcha_saved io = true
      ∧ solve_captcha (solver io) = Some code
      ∧ login_reply io = Some text
      ∧ login_turn n io
        = if contains "invalid username or password" (lower text)
          then ReturnNone
          else if contains "invalid captcha" (lower text)
          then count_failure n
          else if contains "profile" (lower text)
                  && contains "logout" (lower text)
          then ReturnSession
          else count_failure n.
Proof.
  unfold login_turn.
  destruct (login_page io) as [[]|]; [|by left..].
  destruct (captcha_saved io); [|by left]. cbn [negb].
  destruct (solve_captcha (solver io)) as [code|]; [|by left].
  destruct (login_reply io) as [text|]; [|by left].
  right. by exists code, text.
Qed.

Lemma count_failure_retries (n : nat) :
  ∃ m cooldown, count_failure n = Retry m cooldown.
Proof. unfold count_failure. case_match; eauto. Qed.

End LoginLoopFacts.

Section LoginLoopClaims.
Import Captcha LoginLoop Scenarios.

(** X5.  While every turn of [login_to_tor_website] fails, whatever the
    reason, the function does not return, the attempt counter stays below
    nine, and the loop sleeps five minutes once for every ninth failure
    in a row: after [k] failed turns from a counter [n] it has slept
    [(n + k) / 9] times and the counter stands at [(n + k) mod 9]. *)
Theorem login_cooldown_cadence (n : nat) (turns : list attempt_io) :
  n < max_attempts → Forall (λ io, turn_fails io = true) turns →
  login_run n 0 turns
  = ((n + length turns) `mod` max_attempts,
     (n + length turns) `div` max_attempts, None)
  ∧ (login_run n 0 turns).1.1 < max_attempts
  ∧ login_to_tor_website n turns = None.
Proof.
  intros Hn Hturns.
  pose proof (login_run_failures n 0 turns Hn Hturns) as Hrun.
  split_and!; [done| |].
  - rewrite Hrun. cbn [fst]. by apply Nat.mod_upper_bound.
  - by rewrite <- (login_run_result n 0), Hrun.
Qed.

Lemma login_cooldown_cadence_witness :
  login_run 0 0 (replicate 20 turn_without_code) = (2, 2, None)
  ∧ login_to_tor_website 0 (replicate 20 turn_without_code) = None.
Proof.
  destruct (login_cooldown_cadence 0 (replicate 20 turn_without_code))
    as (Hrun & _ & Hnone).
  - unfold max_attempts. lia.
  - repeat constructor.
  - split; [exact Hrun|exact Hnone].
Defined.

(** X6.  [login_to_tor_website] hands back a session only from a turn in
    which the login page showed the challenge, the challenge was solved,
    and the server's reply, in lower case, holds both ["profile"] and
    ["logout"] and neither ["invalid captcha"] nor ["invalid username or
    password"]; it gives up with [None] only on a reply that holds
    ["invalid username or password"], and that text decides even when the
    reply also holds ["profile"] and ["logout"]. *)
Theorem login_returns_on_reply (n : nat) (turns : list attempt_io)
  (r : turn_result) :
  login_to_tor_website n turns = Some r →
  ∃ io code text,
    io ∈ turns
    ∧ login_page io = Some true ∧ captcha_saved io = true
    ∧ solve_captcha (solver io) = Some code
    ∧ login_reply io = Some text
    ∧ ((r = ReturnNone
        ∧ contains "invalid username or password" (lower text) = true)
       ∨ (r = ReturnSession
          ∧ contains "invalid username or password" (lower text) = false
          ∧ contains "invalid captcha" (lower text) = false
          ∧ contains "profile" (lower text) = true
          ∧ contains "logout" (lower text) = true)).
Proof.
  revert n. induction turns as [|io rest IH]; intros n; [done|].
  cbn [login_to_tor_website].
  destruct (login_turn n io) as [m cooldown| |] eqn:Hturn.
  { intros H. destruct (IH _ H) as (io' & code & text & Hin & Hrest).
    exists io', code, text. split; [by right|done]. }
  all: intros [= <-];
    destruct (login_turn_cases n io)
      as [Hfail|(code & text & Hpage & Hsaved & Hcode & Hreply & Hreplied)];
    [destruct (count_failure_retries n) as (m & cooldown & Hretry);
     congruence|];
    exists io, code, text; (split_and!; [by left|done..|]);
    rewrite Hturn in Hreplied;
    destruct (count_failure_retries n) as (m & cooldown & Hretry);
    rewrite Hretry in Hreplied;
    destruct (contains "invalid username or password" (lower text));
    destruct (contains "invalid captcha" (lower text));
    destruct (contains "profile" (lower text));
    destruct (contains "logout" (lower text));
    simpl in Hreplied; try discriminate; auto 10.
Qed.

Lemma login_returns_on_reply_witness :
  login_to_tor_website 0
    [turn_without_code; LoginScenarios.turn_rejected;
     LoginScenarios.turn_logged_in] = Some ReturnNone
  ∧ ∃ io code text,
      io ∈ [turn_without_code; LoginScenarios.turn_rejected;
            LoginScenarios.turn_logged_in]
      ∧ login_page io = Some true ∧ captcha_saved io = true
      ∧ solve_captcha (solver io) = Some code
      ∧ login_reply io = Some text
      ∧ ((ReturnNone = ReturnNone
          ∧ contains "invalid username or password" (lower text) = true)
         ∨ (ReturnNone = ReturnSession
            ∧ contains "invalid username or password" (lower text) = false
            ∧ contains "invalid captcha" (lower text) = false
            ∧ contains "profile" (lower text) = true
            ∧ contains "logout" (lower text) = true)).
Proof.
  split; [reflexivity|].
  apply (login_returns_on_reply 0
           [turn_without_code; LoginScenarios.turn_rejected;
            LoginScenarios.turn_logged_in] ReturnNone).
  reflexivity.
Defined.

End LoginLoopClaims.

(** ** The routes of the listing scan *)

Section MarketRoutesFacts.
Import Routes Pagination Marketplace MarketRoutes.

Lemma foldr_max_le (ids : list nat) (i : nat) :
  i ∈ ids → i ≤ foldr max 0 ids.
Proof.
  induction ids as [|j ids IH]; [by intros ?%elem_of_nil|].
  intros [->|Hin]%elem_of_cons; simpl; [lia|]. specialize (IH Hin). lia.
Qed.

Lemma next_id_fresh {A} (key : A → nat) (rows : list A) (r : A) :
  r ∈ rows → key r ≠ next_id (key <$> rows).
Proof.
  intros Hr. unfold next_id.
  assert (key r ≤ foldr max 0 (key <$> rows)); [|lia].
  apply foldr_max_le, list_elem_of_fmap. eauto.
Qed.

(** A row behind rows that all fail the test is the first to pass it. *)
Lemma find_app_fresh {A} (p : A → bool) (rows : list A) (row : A) :
  (∀ r, r ∈ rows → p r = false) → p row = true →
  find p (rows ++ [row]) = Some row.
Proof.
  intros Hrows Hrow. induction rows as [|r rows IH]; simpl.
  - by rewrite Hrow.
  - rewrite (Hrows r) by left. apply IH. intros r' ?. apply Hrows. by right.
Qed.

Lemma find_app_old {A} (p : A → bool) (rows more : list A) (r : A) :
  find p rows = Some r → find p (rows ++ more) = Some r.
Proof.
  induction rows as [|x rows IH]; [done|]. simpl.
  destruct (p x); [done|]. apply IH.
Qed.

Lemma existsb_false_elem {A} (p : A → bool) (l : list A) (x : A) :
  existsb p l = false → x ∈ l → p x = false.
Proof.
  induction l as [|y l IH]; [by intros _ ?%elem_of_nil|]. simpl.
  intros [Hy Hl]%orb_false_iff [->|Hx]%elem_of_cons; [done|by apply IH].
Qed.

(** From one page on, the batches are not empty. *)
Lemma create_pagination_batches_nonempty
  (format : string → Z → option string) (url_template : string)
  (max_page : Z) (batches : dict (list string)) :
  create_pagination_batches format url_template max_page = Some batches →
  batches = [] ↔ (max_page < 1)%Z.
Proof.
  unfold create_pagination_batches.
  destruct (Z.ltb_spec max_page 1) as [Hlt|Hge].
  { intros [= <-]. done. }
  destruct (mapM _ _) as [all_urls|] eqn:Hurls; [|done].
  cbn [mbind option_bind]. intros [= <-]. rewrite batches_spec.
  apply length_mapM in Hurls. rewrite py_range_down_spec in Hurls.
  rewrite length_fmap, length_seq in Hurls.
  split; [|lia]. intros Hnil%(f_equal length).
  rewrite length_fmap, length_seq in Hnil. cbn [length] in Hnil.
  assert (1 ≤ length all_urls) as Hlen by lia.
  assert ((length all_urls + 9) `div` 10 ≠ 0); [|done].
  intros Hdiv. apply Nat.div_small_iff in Hdiv; lia.
Qed.

Lemma succ_div_mod (m n : nat) :
  0 < n →
  (S m `mod` n = S (m `mod` n) ∧ S m `div` n = m `div` n
   ∧ S (m `mod` n) < n)
  ∨ (S m `mod` n = 0 ∧ S m `div` n = S (m `div` n) ∧ S (m `mod` n) = n).
Proof.
  intros Hn.
  pose proof (Nat.div_mod_eq m n) as Hm.
  pose proof (Nat.mod_upper_bound m n ltac:(lia)) as Hlt.
  destruct (decide (S (m `mod` n) < n)) as [Hs|Hs]; [left|right].
  - assert (S m `div` n = m `div` n ∧ S m `mod` n = S (m `mod` n)) as [??];
      [|done].
    symmetry in Hm.
    split; [symmetry; apply (Nat.div_unique _ _ _ (S (m `mod` n)))
           |symmetry; apply (Nat.mod_unique _ _ (m `div` n))]; lia.
  - assert (S m `div` n = S (m `div` n) ∧ S m `mod` n = 0) as [??];
      [|split_and!; [done..|lia]].
    split; [symmetry; apply (Nat.div_unique _ _ _ 0)
           |symmetry; apply (Nat.mod_unique _ _ (S (m `div` n)))]; nia.
Qed.

Lemma count_slot (n m j : nat) :
  0 < n → j < n →
  length (filter (λ i, i `mod` n = j) (seq 0 m))
  = m `div` n + (if decide (j < m `mod` n) then 1 else 0).
Proof.
  intros Hn Hj. induction m as [|m IH].
  - rewrite Nat.Div0.div_0_l, Nat.Div0.mod_0_l. by case_decide; [lia|].
  - rewrite seq_S, filter_app, length_app, IH. cbn [plus].
    rewrite filter_cons, filter_nil.
    destruct (succ_div_mod m n Hn) as [(-> & -> & ?)|(-> & -> & ?)];
      repeat case_decide; simpl; lia.
Qed.

(** What the loop hands out from index [i] on. *)
Lemma assign_from_spec {B} (i : nat) (bots : list BotProfile)
  (batch_queue : list B) :
  bots ≠ [] →
  ∃ tasks,
    assign_from i bots batch_queue = Some tasks
    ∧ tasks.*2 = batch_queue
    ∧ (∀ k batch, batch_queue !! k = Some batch →
         ∃ bot, bots !! ((i + k) `mod` length bots) = Some bot
                ∧ tasks !! k = Some (bot, batch))
    ∧ (NoDup (bot_id <$> bots) →
       ∀ j bot, bots !! j = Some bot →
         length (tasks_of (bot_id bot) tasks)
         = length (filter (λ x, x `mod` length bots = j)
                     (seq i (length batch_queue)))).
Proof.
  intros Hbots.
  assert (0 < length bots) as Hn by (destruct bots; [done|simpl; lia]).
  revert i. induction batch_queue as [|batch rest IH]; intros i.
  { exists []. split_and!; try done. }
  destruct (IH (S i)) as (tasks & Htasks & Hsnd & Hat & Hcount).
  assert (is_Some (bots !! (i `mod` length bots))) as [bot0 Hbot0].
  { apply lookup_lt_is_Some. by apply Nat.mod_upper_bound, Nat.neq_0_lt_0. }
  exists ((bot0, batch) :: tasks). split_and!.
  - cbn [assign_from]. rewrite decide_False by lia.
    rewrite Hbot0. cbn [mbind option_bind]. by rewrite Htasks.
  - cbn [fmap list_fmap snd]. by rewrite <- Hsnd.
  - intros [|k] b Hk.
    + injection Hk as <-. exists bot0. by rewrite Nat.add_0_r.
    + destruct (Hat k b Hk) as (bot & Hbot & Hlook). exists bot.
      by replace (i + S k) with (S i + k) by lia.
  - intros Hdup j bot Hj. unfold tasks_of in *.
    cbn [length seq]. rewrite !filter_cons. cbn [fst].
    assert (bot_id bot0 = bot_id bot ↔ i `mod` length bots = j) as Hiff.
    { split.
      - intros Hid. eapply (NoDup_lookup _ _ _ (bot_id bot) Hdup).
        + rewrite list_lookup_fmap, Hbot0. simpl. by rewrite Hid.
        + by rewrite list_lookup_fmap, Hj.
      - intros Hi. rewrite Hi in Hbot0. congruence. }
    specialize (Hcount Hdup j bot Hj).
    repeat case_decide; cbn [length]; try (by rewrite Hcount); tauto.
Qed.

End MarketRoutesFacts.

Section MarketRoutesClaims.
Import Routes Pagination Marketplace MarketRoutes.

(** X7.  For a scan that is not in [marketplace_post_scans], the routes
    that read a listing scan ([get_post_scan_status], [get_scan_posts])
    answer with status 500: the [HTTPException] with status 404 that
    their body raises is caught by their own [except Exception].  The
    routes that change it ([start_post_scan], [delete_post_scan]) pass
    the 404 on.  The two reading routes never answer 404 at all. *)
Theorem missing_scan_status_codes (db : Db) (scan_id : nat) (now : datetime) :
  (find (has_id scan_id) (marketplace_post_scans db) = None →
   get_post_scan_status db scan_id = Failed 500 "Internal server error"
   ∧ get_scan_posts db scan_id = Failed 500 "Internal server error"
   ∧ delete_post_scan db scan_id = (db, Failed 404 "Post scan not found")
   ∧ start_post_scan db scan_id now
     = (db, HTTPException 404 "Post scan not found"))
  ∧ status_code_of (get_post_scan_status db scan_id) ≠ 404
  ∧ status_code_of (get_scan_posts db scan_id) ≠ 404.
Proof.
  unfold get_post_scan_status, get_scan_posts, delete_post_scan,
    start_post_scan.
  destruct (find (has_id scan_id) (marketplace_post_scans db)); by split.
Qed.

(** X8.  A pagination scan made by [enumerate_pages] and a listing scan
    made over it by [enumerate_posts] can be started when the pagination
    scan has at least one page: [start_post_scan] answers 200 and the
    scan, created as [STOPPED], is [RUNNING].  With [max_page] below one
    both scans are created all the same (status 201), and starting the
    listing scan is refused: the answer is 400, no batches. *)
Theorem listing_scan_pipeline (format : string → Z → option string)
  (db db1 db2 : Db) (pages : MarketplacePaginationScanCreate)
  (posts : MarketplacePostScanCreate) (created started : datetime)
  (message1 message2 : string) :
  enumerate_pages format db pages = (db1, Answered 201 message1) →
  new_pagination_scan_name posts = new_scan_name pages →
  enumerate_posts db1 posts created = (db2, Answered 201 message2) →
  let scan_id := next_id (mps_id <$> marketplace_post_scans db) in
  status_of db2 scan_id = Some STOPPED
  ∧ ((1 ≤ new_max_page pages)%Z →
     (start_post_scan db2 scan_id started).2
     = JSONResponse 200 "Post scan started"
     ∧ status_of (start_post_scan db2 scan_id started).1 scan_id
       = Some RUNNING)
  ∧ ((new_max_page pages < 1)%Z →
     start_post_scan db2 scan_id started
     = (db2, HTTPException 400 "No batches available")).
Proof.
  unfold enumerate_pages, enumerate_posts.
  destruct (existsb _ (marketplace_pagination_scans db)) eqn:Hfresh; [done|].
  destruct (create_pagination_batches _ _ _) as [batches|] eqn:Hbatches;
    [|done].
  intros [= <- _] Hname.
  cbn [marketplace_post_scans marketplace_pagination_scans
       set_marketplace_pagination_scans].
  destruct (existsb _ (marketplace_post_scans db)) eqn:Hfresh2; [done|].
  rewrite Hname.
  set (pg := {| pgs_id := _ |}).
  assert (Hpg : find (λ p, bool_decide (pgs_scan_name p = new_scan_name pages))
                  (marketplace_pagination_scans db ++ [pg]) = Some pg).
  { apply find_app_fresh; [|by apply bool_decide_eq_true_2].
    intros r Hr. apply (existsb_false_elem _ _ _ Hfresh Hr). }
  rewrite Hpg.
  destruct (active_bots _) as [|bot bots] eqn:Hactive; [done|].
  intros [= <- _]. cbn zeta.
  set (scan := {| mps_id := _ |}).
  set (scan_id := next_id (mps_id <$> marketplace_post_scans db)).
  assert (Hscan : find (has_id scan_id) (marketplace_post_scans db ++ [scan])
                  = Some scan).
  { apply find_app_fresh; [|by apply bool_decide_eq_true_2].
    intros r Hr. apply bool_decide_eq_false_2.
    by apply (next_id_fresh mps_id). }
  unfold status_of, start_post_scan.
  cbn [marketplace_post_scans set_marketplace_post_scans
       marketplace_pagination_scans].
  rewrite Hscan. split; [done|].
  cbn [mps_status scan]. rewrite decide_False by done.
  change (active_bots _) with
    (active_bots (set_marketplace_pagination_scans db
                    (marketplace_pagination_scans db ++ [pg]))).
  rewrite Hactive. cbn [mps_pagination_scan_name scan].
  change (marketplace_pagination_scans
            (set_marketplace_pagination_scans db ?l)) with l.
  rewrite Hpg.
  cbn [pgs_batches pg default from_option id].
  pose proof (create_pagination_batches_nonempty _ _ _ _ Hbatches) as Hnil.
  split.
  - intros Hpages. destruct batches as [|batch batches'].
    { assert (new_max_page pages < 1)%Z by by apply Hnil. lia. }
    cbn [fst snd marketplace_post_scans set_marketplace_post_scans].
    split; [done|].
    rewrite (find_update_first (has_id scan_id) (run_scan started)) by done.
    by rewrite Hscan.
  - intros Hpages. apply Hnil in Hpages as ->. done.
Qed.

Lemma listing_scan_pipeline_witness :
  let db1 :=
    (enumerate_pages format_page MarketScenarios.fresh_db
       (MarketScenarios.pages_request 12)).1 in
  let db2 :=
    (enumerate_posts db1 MarketScenarios.listing_request 50%Z).1 in
  enumerate_pages format_page MarketScenarios.fresh_db
    (MarketScenarios.pages_request 12)
  = (db1, Answered 201 "Pagination scan created")
  ∧ enumerate_posts db1 MarketScenarios.listing_request 50%Z
    = (db2, Answered 201 "Post scan created")
  ∧ status_of db2 1 = Some STOPPED
  ∧ (start_post_scan db2 1 60%Z).2 = JSONResponse 200 "Post scan started"
  ∧ status_of (start_post_scan db2 1 60%Z).1 1 = Some RUNNING.
Proof.
  cbv zeta.
  destruct (listing_scan_pipeline format_page MarketScenarios.fresh_db
              (enumerate_pages format_page MarketScenarios.fresh_db
                 (MarketScenarios.pages_request 12)).1
              (enumerate_posts
                 (enumerate_pages format_page MarketScenarios.fresh_db
                    (MarketScenarios.pages_request 12)).1
                 MarketScenarios.listing_request 50%Z).1
              (MarketScenarios.pages_request 12)
              MarketScenarios.listing_request 50%Z 60%Z
              "Pagination scan created" "Post scan created")
    as (Hstopped & Hstart & _); [reflexivity..|].
  destruct Hstart as [H200 Hrunning]; [simpl; lia|].
  split_and!; [reflexivity|reflexivity|exact Hstopped|exact H200
              |exact Hrunning].
Defined.

(** X9.  The batches of a scan are handed to the bots in turn, batch [i]
    to bot [i mod n] of the [n] active bots, each batch once and in
    order.  With the bots' keys distinct, the bot in place [j] gets
    [m / n] of the [m] batches and one more when [j < m mod n]: no bot
    gets more than one batch above any other. *)
Theorem assign_bots_round_robin {B} (bots : list BotProfile)
  (batch_queue : list B) :
  bots ≠ [] → NoDup (bot_id <$> bots) →
  ∃ tasks,
    assign_bots bots batch_queue = Some tasks
    ∧ tasks.*2 = batch_queue
    ∧ (∀ i batch, batch_queue !! i = Some batch →
         ∃ bot, bots !! (i `mod` length bots) = Some bot
                ∧ tasks !! i = Some (bot, batch))
    ∧ (∀ j bot, bots !! j = Some bot →
         length (tasks_of (bot_id bot) tasks)
         = length batch_queue `div` length bots
           + (if decide (j < length batch_queue `mod` length bots)
              then 1 else 0))
    ∧ (∀ b1 b2, b1 ∈ bots → b2 ∈ bots →
         length (tasks_of (bot_id b1) tasks)
         ≤ length (tasks_of (bot_id b2) tasks) + 1).
Proof.
  intros Hbots Hdup.
  assert (0 < length bots) as Hn by (destruct bots; [done|simpl; lia]).
  destruct (assign_from_spec 0 bots batch_queue Hbots)
    as (tasks & Htasks & Hsnd & Hat & Hcount).
  specialize (Hcount Hdup).
  assert (Hload : ∀ j bot, bots !! j = Some bot →
            length (tasks_of (bot_id bot) tasks)
            = length batch_queue `div` length bots
              + (if decide (j < length batch_queue `mod` length bots)
                 then 1 else 0)).
  { intros j bot Hj. rewrite (Hcount j bot Hj).
    apply count_slot; [done|]. by apply lookup_lt_Some in Hj. }
  exists tasks. split_and!; [|done|done|done|].
  - unfold assign_bots. by rewrite decide_False by lia.
  - intros b1 b2 [j1 H1]%list_elem_of_lookup [j2 H2]%list_elem_of_lookup.
    rewrite (Hload _ _ H1), (Hload _ _ H2). repeat case_decide; lia.
Qed.

Lemma assign_bots_round_robin_witness :
  MarketScenarios.three_bots ≠ [] ∧
  ∃ tasks,
    assign_bots MarketScenarios.three_bots ["1"; "2"; "3"; "4"; "5"; "6"; "7"]
    = Some tasks
    ∧ length (tasks_of 1 tasks) = 3 ∧ length (tasks_of 2 tasks) = 2
    ∧ length (tasks_of 3 tasks) = 2.
Proof.
  split; [done|].
  destruct (assign_bots_round_robin MarketScenarios.three_bots
              ["1"; "2"; "3"; "4"; "5"; "6"; "7"])
    as (tasks & Htasks & _ & _ & Hload & _).
  - done.
  - apply (bool_decide_unpack _). by vm_compute.
  - exists tasks. split; [exact Htasks|].
    split_and!; [apply (Hload 0 _ eq_refl)|apply (Hload 1 _ eq_refl)
                |apply (Hload 2 _ eq_refl)].
Defined.

End MarketRoutesClaims.

(** ** The registered services *)

Section CountFacts.
Context {A : Type}.
Implicit Types (P Q : A → Prop) (l : list A).

Lemma length_filter_le P Q `{∀ x, Decision (P x)} `{∀ x, Decision (Q x)} l :
  (∀ x, x ∈ l → P x → Q x) →
  length (filter P l) ≤ length (filter Q l).
Proof.
  induction l as [|x l IH]; intros HPQ; [done|].
  rewrite !filter_cons.
  assert (length (filter P l) ≤ length (filter Q l)) as Hle.
  { apply IH. intros y ?. apply HPQ. by right. }
  destruct (decide (P x)) as [HP|]; destruct (decide (Q x)) as [|HQ];
    simpl; try lia.
  destruct HQ. apply HPQ; [left|done].
Qed.

Lemma length_filter_fmap P `{∀ x, Decision (P x)} (g : A → A) l :
  (∀ x, x ∈ l → P (g x) ↔ P x) →
  length (filter P (g <$> l)) = length (filter P l).
Proof.
  induction l as [|x l IH]; intros Hg; [done|].
  rewrite fmap_cons, !filter_cons.
  assert (length (filter P (g <$> l)) = length (filter P l)) as Heq.
  { apply IH. intros y ?. apply Hg. by right. }
  pose proof (Hg x ltac:(left)) as Hx.
  destruct (decide (P (g x))), (decide (P x)); simpl; try lia; tauto.
Qed.

Lemma length_filter_key {K} `{EqDecision K} (key : A → K) (k : K) l :
  NoDup (key <$> l) → length (filter (λ r, key r = k) l) ≤ 1.
Proof.
  induction l as [|x l IH]; [simpl; lia|].
  rewrite fmap_cons, NoDup_cons, filter_cons. intros [Hx Hl].
  specialize (IH Hl). destruct (decide (key x = k)) as [<-|]; [|done].
  simpl. assert (filter (λ r, key r = key x) l = []) as ->; [|simpl; lia].
  destruct (filter _ l) as [|y ys] eqn:Hf; [done|].
  assert (y ∈ filter (λ r, key r = key x) l) as Hy by (rewrite Hf; left).
  apply list_elem_of_filter in Hy as [Hy ?]. destruct Hx.
  rewrite <- Hy. by apply list_elem_of_fmap_2.
Qed.

Lemma length_filter_filter P Q `{∀ x, Decision (P x)} `{∀ x, Decision (Q x)}
  l :
  length (filter P (filter Q l)) ≤ length (filter P l).
Proof.
  induction l as [|x l IH]; [done|]. rewrite !filter_cons.
  destruct (decide (Q x)); rewrite ?filter_cons;
    destruct (decide (P x)); simpl; lia.
Qed.

End CountFacts.

Section ManageApiFacts.
Import Routes ManageApi.

Context (str : raised → string).

Lemma next_id_not_in (ids : list nat) : next_id ids ∉ ids.
Proof.
  intros Hin%foldr_max_le. unfold next_id in Hin. lia.
Qed.

Lemma consistent_nil : consistent [].
Proof.
  split_and!; [constructor..|]. intros p. simpl. lia.
Qed.

Lemma create_consistent api_provider api_type message api_name api_key
  model max_tokens prompt rows :
  (api_provider = "deepl" ∧ api_type = "translation_api")
  ∨ (api_provider = "anthropic" ∧ api_type = "iab_api")
  ∨ (api_provider = "openai" ∧ api_type = "captcha_api") →
  consistent rows →
  consistent (create str api_provider api_type message api_name api_key
                model max_tokens prompt rows).1.
Proof.
  intros Htyped (Hids & Hnames & Hkinds & Hactive). unfold create.
  destruct (existsb _ rows) eqn:Hfresh; [done|]. cbn [fst].
  split_and!.
  - rewrite fmap_app. apply NoDup_app. split_and!; [done| |by apply NoDup_singleton].
    intros i Hi [->|[]%elem_of_nil]%elem_of_cons.
    by apply (next_id_not_in (row_id <$> rows)).
  - rewrite fmap_app. apply NoDup_app. split_and!; [done| |by apply NoDup_singleton].
    intros n [r [-> Hr]]%list_elem_of_fmap [Hn|[]%elem_of_nil]%elem_of_cons.
    apply (existsb_false_elem _ _ _ Hfresh) in Hr.
    by apply bool_decide_eq_false in Hr.
  - apply Forall_app. split; [done|]. by constructor.
  - intros p. unfold active_of_provider in *. rewrite filter_app.
    rewrite filter_cons, filter_nil. cbn [row_is_active].
    rewrite decide_False by (by intros [_ ?]).
    rewrite app_nil_r. apply Hactive.
Qed.

Lemma update_consistent rows api_id request :
  consistent rows → consistent (update_api str rows api_id request).1.
Proof.
  intros (Hids & Hnames & Hkinds & Hactive). unfold update_api.
  destruct (find _ rows) as [api|]; [|done].
  destruct (existsb _ rows) eqn:Hfresh; [done|]. cbn [fst].
  set (g := λ r, if has_id api_id r then updated request r else r).
  assert (Hid : ∀ r, row_id (g r) = row_id r).
  { intros r. unfold g. by destruct (has_id api_id r). }
  assert (Hprov : ∀ r, row_provider (g r) = row_provider r
                       ∧ row_type (g r) = row_type r
                       ∧ row_is_active (g r) = row_is_active r).
  { intros r. unfold g. by destruct (has_id api_id r). }
  assert (Hidsg : row_id <$> (g <$> rows) = row_id <$> rows).
  { rewrite <- list_fmap_compose. apply list_fmap_ext.
    intros _ r _. apply Hid. }
  split_and!.
  - by rewrite Hidsg.
  - apply NoDup_alt. intros i j n.
    rewrite !list_lookup_fmap.
    destruct (rows !! i) as [ri|] eqn:Hi; [|done].
    destruct (rows !! j) as [rj|] eqn:Hj; [|done].
    simpl. intros [= Hni] [= Hnj].
    assert (Hother : ∀ r, r ∈ rows → row_id r ≠ api_id →
                          row_name r ≠ up_api_name request).
    { intros r Hr Hne Hname.
      apply (existsb_false_elem _ _ _ Hfresh) in Hr.
      apply bool_decide_eq_false in Hr. by destruct Hr. }
    unfold g, has_id in Hni, Hnj.
    destruct (decide (row_id ri = api_id)) as [Hri|Hri];
      destruct (decide (row_id rj = api_id)) as [Hrj|Hrj].
    + eapply (NoDup_lookup _ _ _ api_id Hids);
        rewrite list_lookup_fmap; [by rewrite Hi; simpl; f_equal
                                  |by rewrite Hj; simpl; f_equal].
    + rewrite bool_decide_eq_true_2 in Hni by done.
      rewrite bool_decide_eq_false_2 in Hnj by done.
      destruct (Hother rj); [by eapply list_elem_of_lookup_2|done|].
      simpl in Hni. congruence.
    + rewrite bool_decide_eq_false_2 in Hni by done.
      rewrite bool_decide_eq_true_2 in Hnj by done.
      destruct (Hother ri); [by eapply list_elem_of_lookup_2|done|].
      simpl in Hnj. congruence.
    + rewrite bool_decide_eq_false_2 in Hni by done.
      rewrite bool_decide_eq_false_2 in Hnj by done.
      eapply (NoDup_lookup _ _ _ n Hnames);
        rewrite list_lookup_fmap; [by rewrite Hi; simpl; f_equal
                                  |by rewrite Hj; simpl; f_equal].
  - apply Forall_fmap. eapply Forall_impl; [exact Hkinds|].
    intros r Hr. unfold typed, compose in *.
    destruct (Hprov r) as (-> & -> & _). done.
  - intros p. unfold active_of_provider in *.
    rewrite length_filter_fmap; [apply Hactive|].
    intros r _. destruct (Hprov r) as (-> & _ & ->). done.
Qed.

Lemma delete_consistent rows api_id :
  consistent rows → consistent (delete_api str rows api_id).1.
Proof.
  intros (Hids & Hnames & Hkinds & Hactive). unfold delete_api.
  destruct (find _ rows) as [api|]; [|done]. cbn [fst].
  split_and!.
  - eapply sublist_NoDup; [exact Hids|]. apply fmap_sublist, sublist_filter.
  - eapply sublist_NoDup; [exact Hnames|]. apply fmap_sublist, sublist_filter.
  - apply Forall_forall. intros r [_ Hr]%list_elem_of_filter.
    by eapply Forall_forall in Hkinds.
  - intros p. unfold active_of_provider in *.
    etrans; [|apply (Hactive p)]. apply length_filter_filter.
Qed.

Lemma activate_consistent rows api_id :
  consistent rows → consistent (activate_api str rows api_id).1.
Proof.
  intros (Hids & Hnames & Hkinds & Hactive). unfold activate_api.
  destruct (find _ rows) as [api|] eqn:Hfind; [|done]. cbn [fst].
  apply find_some in Hfind as [Hapi Hapi_id].
  apply bool_decide_eq_true in Hapi_id. apply list_elem_of_In in Hapi.
  unfold set_active_api. rewrite <- list_fmap_compose.
  set (g := (λ r, if decide (row_id r = api_id) then set_active true r
                  else r)
            ∘ (λ r, if decide (row_provider r = row_provider api
                               ∧ row_id r ≠ api_id)
                    then set_active false r else r)).
  assert (Hsame : ∀ r, row_id (g r) = row_id r ∧ row_name (g r) = row_name r
                       ∧ row_provider (g r) = row_provider r
                       ∧ row_type (g r) = row_type r).
  { intros r. unfold g, compose. by repeat case_decide. }
  split_and!.
  - rewrite <- list_fmap_compose.
    rewrite (list_fmap_ext _ row_id rows); [done|].
    intros _ r _. apply Hsame.
  - rewrite <- list_fmap_compose.
    rewrite (list_fmap_ext _ row_name rows); [done|].
    intros _ r _. apply Hsame.
  - apply Forall_fmap. eapply Forall_impl; [exact Hkinds|].
    intros r Hr. unfold typed, compose in *.
    destruct (Hsame r) as (_ & _ & -> & ->). done.
  - intros p. unfold active_of_provider in *.
    destruct (decide (p = row_provider api)) as [->|Hp].
    + etrans; [|apply (length_filter_key row_id api_id (g <$> rows))].
      * apply length_filter_le. intros r Hr [Hprov Hact].
        apply list_elem_of_fmap in Hr as (r0 & -> & Hr0).
        destruct (Hsame r0) as (Hid0 & _ & Hprov0 & _).
        rewrite Hid0. rewrite Hprov0 in Hprov.
        destruct (decide (row_id r0 = api_id)) as [|Hne]; [done|].
        revert Hact. unfold g, compose.
        destruct (decide (row_provider r0 = row_provider api
                          ∧ row_id r0 ≠ api_id)) as [_|Hn];
          [|by destruct Hn].
        cbn [set_active row_id]. by rewrite decide_False by done.
      * rewrite <- list_fmap_compose.
        rewrite (list_fmap_ext _ row_id rows); [done|].
        intros _ r _. apply Hsame.
    + rewrite length_filter_fmap; [apply Hactive|].
      intros r Hr. destruct (Hsame r) as (_ & _ & -> & _).
      assert (row_provider r = p → row_id r ≠ api_id) as Hne.
      { intros Hprov Hid.
        assert (r = api) as ->; [|done].
        eapply (NoDup_fmap_eq row_id); eauto. congruence. }
      assert (row_provider r = p → g r = r) as Hgr.
      { intros Hprov. unfold g, compose.
        destruct (decide (row_provider r = row_provider api
                          ∧ row_id r ≠ api_id)) as [[? _]|_];
          [congruence|].
        by rewrite decide_False by auto. }
      split; intros [Hprov Hact]; (split; [done|]);
        by rewrite (Hgr Hprov) in *.
Qed.

Lemma handle_consistent rows req :
  consistent rows → consistent (handle str rows req).1.
Proof.
  destruct req; cbn [handle].
  - apply create_consistent. by left.
  - apply create_consistent. right. by left.
  - apply create_consistent. right. by right.
  - apply update_consistent.
  - apply delete_consistent.
  - apply activate_consistent.
Qed.

Lemma run_consistent requests : consistent (run str requests).
Proof.
  unfold run. generalize consistent_nil. generalize (@nil ApiRow).
  induction requests as [|req requests IH]; intros rows Hrows; [done|].
  cbn [foldl]. by apply IH, handle_consistent.
Qed.

End ManageApiFacts.

Section ManageApiClaims.
Import Routes ManageApi.

Context (str : raised → string).

Lemma find_fmap {A B} (p : B → bool) (f : A → B) (l : list A) :
  find p (f <$> l) = f <$> find (p ∘ f) l.
Proof.
  induction l as [|x l IH]; [done|]. simpl. unfold compose at 1.
  by destruct (p (f x)).
Qed.

Lemma find_singleton_filter {A} (P : A → Prop) `{∀ x, Decision (P x)}
  (l : list A) (r : A) :
  filter P l = [r] → find (λ x, bool_decide (P x)) l = Some r.
Proof.
  induction l as [|x l IH]; [done|]. rewrite filter_cons. simpl.
  destruct (decide (P x)) as [HP|HP].
  - intros [= -> _]. by rewrite bool_decide_eq_true_2.
  - rewrite bool_decide_eq_false_2 by done. apply IH.
Qed.

(** X10.  Whatever requests the routes of [manage_api.py] have served
    since the table was empty, the keys and the names of the rows are not
    repeated (so the unique index on [api_name] is never what makes a
    commit fail), and at most one row of each type is switched on: the
    service that [start_post_scan] looks up with [first()] is the only
    one that meets its filter. *)
Theorem registered_services_consistent (requests : list request)
  (api_type : string) (db : Db) :
  let rows := run str requests in
  NoDup (row_id <$> rows) ∧ NoDup (row_name <$> rows)
  ∧ length (active_of_type api_type rows) ≤ 1
  ∧ Posts.active_api (with_apis db rows) api_type
    = as_api <$> head (active_of_type api_type rows).
Proof.
  cbv zeta. destruct (run_consistent str requests)
    as (Hids & Hnames & Hkinds & Hactive).
  assert (Hone : length (active_of_type api_type (run str requests)) ≤ 1).
  { set (p := if decide (api_type = "translation_api") then "deepl"
              else if decide (api_type = "iab_api") then "anthropic"
              else "openai").
    etrans; [|apply (Hactive p)]. unfold active_of_type, active_of_provider.
    apply length_filter_le. intros r Hr [Htype Hact]. split; [|done].
    eapply Forall_forall in Hkinds; [|exact Hr].
    unfold p. destruct Hkinds as [[-> Hk]|[[-> Hk]|[-> Hk]]];
      rewrite Hk in Htype; subst api_type; done. }
  split_and!; [done..|].
  unfold Posts.active_api, with_apis. cbn [apis].
  rewrite find_fmap. f_equal. unfold active_of_type in *.
  destruct (filter _ (run str requests)) as [|r [|r' rest]] eqn:Hf.
  - simpl. destruct (find _ _) as [x|] eqn:Hfind; [|done].
    apply find_some in Hfind as [Hx Hp]. apply list_elem_of_In in Hx.
    unfold compose in Hp. apply bool_decide_eq_true in Hp.
    assert (x ∈ filter (λ r, row_type r = api_type ∧ row_is_active r = true)
                (run str requests)) as Hin
      by (by apply list_elem_of_filter).
    rewrite Hf in Hin. by apply elem_of_nil in Hin.
  - simpl. by apply (find_singleton_filter _ _ r) in Hf.
  - simpl in Hone. lia.
Qed.

(** X11.  No route of [manage_api.py] ever answers 400 or 404: a taken
    name and an unknown key are raised as such inside the [try] block and
    come out of its [except Exception] as status 500, with the text of
    the exception as detail, and the table is left as it was. *)
Theorem manage_api_errors_masked (rows : list ApiRow) (req : request)
  (api_id : nat) :
  (status_code_of (handle str rows req).2 = 200
   ∨ ((handle str rows req).1 = rows
      ∧ ∃ status_code detail,
          (handle str rows req).2
          = Failed 500 (str (RaisedHTTP status_code detail))
          ∧ (status_code = 400 ∨ status_code = 404)))
  ∧ (status_code_of (get_api str rows api_id) = 200
     ∨ get_api str rows api_id
       = Failed 500 (str (RaisedHTTP 404 "API not found"))).
Proof.
  split.
  - destruct req; cbn [handle];
      unfold create_deepl_api, create_iab_api, create_captcha_api, create,
        update_api, delete_api, activate_api, fail;
      repeat case_match; cbn [fst snd status_code_of]; eauto 10.
  - unfold get_api, fail. case_match; eauto.
Qed.

Lemma run_inactive (requests : list request) :
  Forall no_activation requests →
  Forall (λ r, row_is_active r = false) (run str requests).
Proof.
  unfold run. intros Hreqs.
  assert (Forall (λ r, row_is_active r = false) (@nil ApiRow)) as Hrows
    by constructor.
  revert Hrows Hreqs. generalize (@nil ApiRow).
  induction requests as [|req requests IH]; intros rows Hrows Hreqs; [done|].
  apply Forall_cons in Hreqs as [Hreq Hreqs]. cbn [foldl].
  apply IH; [|done]. clear IH Hreqs.
  destruct req; cbn [handle]; try done;
    unfold create_deepl_api, create_iab_api, create_captcha_api, create,
      update_api, delete_api;
    repeat case_match; cbn [fst]; try done.
  - apply Forall_app. split; [done|]. by constructor.
  - apply Forall_app. split; [done|]. by constructor.
  - apply Forall_app. split; [done|]. by constructor.
  - apply Forall_fmap. eapply Forall_impl; [exact Hrows|].
    intros x Hx. unfold compose. by case_match.
  - apply Forall_forall. intros x [_ Hx]%list_elem_of_filter.
    by eapply Forall_forall in Hrows.
Qed.

(** X12.  The [create] routes write every service with [is_active] off
    and only [activate_api] switches one on: after any requests without
    an activation no service is active, and [start_post_scan] of the
    detail scan cannot answer 200 on such a table. *)
Theorem services_inactive_until_activated (requests : list request)
  (db : Db) (api_type : string) (scan_id : nat) (now : datetime) :
  Forall no_activation requests →
  let db' := with_apis db (run str requests) in
  Posts.active_api db' api_type = None
  ∧ ∃ status_code detail,
      Posts.start_post_scan db' scan_id now
      = (db', HTTPException status_code detail).
Proof.
  intros Hreqs. cbv zeta.
  pose proof (run_inactive requests Hreqs) as Hoff.
  assert (Hnone : ∀ t, Posts.active_api
                         (with_apis db (run str requests)) t = None).
  { intros t. unfold Posts.active_api, with_apis. cbn [apis].
    destruct (find _ _) as [a|] eqn:Hfind; [|done].
    apply find_some in Hfind as [Ha Hp]. apply list_elem_of_In in Ha.
    apply list_elem_of_fmap in Ha as (r & -> & Hr).
    apply bool_decide_eq_true in Hp as [_ Hact].
    eapply Forall_forall in Hoff; [|exact Hr].
    simpl in Hact. congruence. }
  split; [apply Hnone|].
  destruct (detail_start_cases (with_apis db (run str requests)) scan_id now)
    as [Hfail|(s & b & src & _ & _ & [a Ha] & _)]; [done|].
  by rewrite Hnone in Ha.
Qed.

End ManageApiClaims.

Section ManageApiWitness.
Import Routes ManageApi.

Lemma services_inactive_until_activated_witness :
  Forall no_activation ApiScenarios.register_two
  ∧ Posts.active_api
      (with_apis (Scenarios.detail_db STOPPED None [Scenarios.post_42])
         (run ApiScenarios.str_of ApiScenarios.register_two))
      "translation_api" = None
  ∧ Posts.start_post_scan
      (with_apis (Scenarios.detail_db STOPPED None [Scenarios.post_42])
         (run ApiScenarios.str_of ApiScenarios.register_two)) 3 400%Z
    = (with_apis (Scenarios.detail_db STOPPED None [Scenarios.post_42])
         (run ApiScenarios.str_of ApiScenarios.register_two),
       HTTPException 400 "Required APIs not found").
Proof.
  assert (Hreqs : Forall no_activation ApiScenarios.register_two)
    by (repeat constructor).
  destruct (services_inactive_until_activated ApiScenarios.str_of
              ApiScenarios.register_two
              (Scenarios.detail_db STOPPED None [Scenarios.post_42])
              "translation_api" 3 400%Z Hreqs) as [Hnone _].
  split_and!; [exact Hreqs|exact Hnone|reflexivity].
Defined.

End ManageApiWitness.

(** ** Bot profiles *)

Section BotRoutesFacts.
Import Routes BotRoutes.

Context (login : BotRow → login_result).

Lemma create_bot_consistent rows profile user_agent :
  consistent rows →
  consistent (create_bot_profile rows profile user_agent).1.
Proof.
  intros [Hids Hnames]. unfold create_bot_profile.
  destruct (existsb _ rows) eqn:Hfresh; [done|].
  destruct (purpose_of_value _) as [purpose|]; [|done]. cbn [fst].
  split; rewrite fmap_app; apply NoDup_app;
    (split_and!; [done| |by apply NoDup_singleton]).
  - intros i Hi [->|[]%elem_of_nil]%elem_of_cons.
    by apply (next_id_not_in ((bot_id ∘ row_bot) <$> rows)).
  - intros n [r [-> Hr]]%list_elem_of_fmap [Hn|[]%elem_of_nil]%elem_of_cons.
    apply (existsb_false_elem _ _ _ Hfresh) in Hr.
    by apply bool_decide_eq_false in Hr.
Qed.

Lemma update_bot_consistent rows profile_id profile :
  consistent rows →
  consistent (update_bot_profile rows profile_id profile).1.
Proof.
  intros [Hids Hnames]. unfold update_bot_profile.
  destruct (find _ rows) as [db_profile|] eqn:Hfind; [|done].
  apply find_some in Hfind as [Hdb Hdb_id]. apply list_elem_of_In in Hdb.
  apply bool_decide_eq_true in Hdb_id.
  destruct (truthy (u_username profile) && _ && _) eqn:Htaken; [done|].
  destruct (if truthy (u_purpose profile) then _ else _) as [purpose|];
    [|done].
  cbn [fst].
  set (g := λ r, if has_id profile_id r then updated profile purpose r
                 else r).
  assert (Hid : ∀ r, bot_id (row_bot (g r)) = bot_id (row_bot r)).
  { intros r. unfold g. by destruct (has_id profile_id r). }
  split.
  { rewrite <- list_fmap_compose.
    rewrite (list_fmap_ext _ (bot_id ∘ row_bot) rows); [done|].
    intros _ r _. apply Hid. }
  destruct (truthy (u_username profile)) eqn:Hname.
  2:{ rewrite <- list_fmap_compose.
      rewrite (list_fmap_ext _ (bot_username ∘ row_bot) rows); [done|].
      intros _ r _. unfold g, compose.
      destruct (has_id profile_id r); [|done]. simpl. by rewrite Hname. }
  set (N := default "" (u_username profile)) in *.
  destruct (has_username N db_profile) eqn:Hown.
  { apply bool_decide_eq_true in Hown.
    rewrite <- list_fmap_compose.
    rewrite (list_fmap_ext _ (bot_username ∘ row_bot) rows); [done|].
    intros _ r Hr%list_elem_of_lookup_2. unfold g, compose, has_id.
    case_bool_decide as Hrid; [|done]. simpl. rewrite Hname.
    assert (r = db_profile) as ->; [|done].
    eapply (NoDup_fmap_eq (bot_id ∘ row_bot)); eauto.
    unfold compose. congruence. }
  simpl in Htaken.
  assert (Hother : ∀ r, r ∈ rows → bot_username (row_bot r) ≠ N).
  { intros r Hr HrN. apply (existsb_false_elem _ _ _ Htaken) in Hr.
    by apply bool_decide_eq_false in Hr. }
  apply NoDup_alt. intros i j n.
  rewrite <- !list_fmap_compose, !list_lookup_fmap.
  destruct (rows !! i) as [ri|] eqn:Hi; [|done].
  destruct (rows !! j) as [rj|] eqn:Hj; [|done].
  simpl. intros [= Hni] [= Hnj].
  unfold g, has_id in Hni, Hnj.
  destruct (decide (bot_id (row_bot ri) = profile_id)) as [Hri|Hri];
    destruct (decide (bot_id (row_bot rj) = profile_id)) as [Hrj|Hrj].
  - eapply (NoDup_lookup _ _ _ profile_id Hids);
      rewrite list_lookup_fmap; [by rewrite Hi; simpl; f_equal
                                |by rewrite Hj; simpl; f_equal].
  - rewrite bool_decide_eq_true_2 in Hni by done.
    rewrite bool_decide_eq_false_2 in Hnj by done.
    destruct (Hother rj); [by eapply list_elem_of_lookup_2|].
    simpl in Hni. rewrite Hname in Hni. unfold compose, N in *. congruence.
  - rewrite bool_decide_eq_false_2 in Hni by done.
    rewrite bool_decide_eq_true_2 in Hnj by done.
    destruct (Hother ri); [by eapply list_elem_of_lookup_2|].
    simpl in Hnj. rewrite Hname in Hnj. unfold compose, N in *. congruence.
  - rewrite bool_decide_eq_false_2 in Hni by done.
    rewrite bool_decide_eq_false_2 in Hnj by done.
    eapply (NoDup_lookup _ _ _ n Hnames);
      rewrite list_lookup_fmap; [by rewrite Hi; simpl; f_equal
                                |by rewrite Hj; simpl; f_equal].
Qed.

Lemma delete_bot_consistent rows profile_id :
  consistent rows → consistent (delete_bot_profile rows profile_id).1.
Proof.
  intros [Hids Hnames]. unfold delete_bot_profile.
  destruct (find _ rows); [|done]. cbn [fst].
  split; (eapply sublist_NoDup; [eassumption|]);
    apply fmap_sublist, sublist_filter.
Qed.

(** A turn either stops the loop, or it ends with the row of its
    profile set and one of the two counters raised. *)
Lemma login_one_cases (st : login_state) (p : BotRow) :
  (∃ stop, stops login p = Some stop ∧ login_one login st p = inl stop)
  ∨ (stops login p = None
     ∧ ∃ st',
         login_one login st p = inr st'
         ∧ ls_rows st' = login_step login p <$> ls_rows st
         ∧ success_count st'
           = success_count st
             + length (filter (λ p, is_Some (logs_in login p)) [p])
         ∧ success_count st' + length (failed_logins st')
           = S (success_count st + length (failed_logins st))).
Proof.
  unfold login_one, login_step, logs_in, stops.
  rewrite filter_cons, filter_nil.
  destruct (truthy (bot_tor_proxy (row_bot p))); cbn [negb andb].
  2:{ right. split; [done|]. eexists. split; [done|].
      rewrite decide_False by (by intros [??]).
      cbn [ls_rows success_count failed_logins length].
      rewrite length_app. cbn [length].
      split_and!; [|lia|lia].
      rewrite <- (list_fmap_id (ls_rows st)) at 1.
      apply list_fmap_ext. intros _ r _. by destruct (has_id _ r). }
  assert (Hfailed : ∀ text,
            ls_rows st = (λ r, if has_id (bot_id (row_bot p)) r then r else r)
                         <$> ls_rows st
            ∧ success_count st = success_count st + length (@nil BotRow)
            ∧ success_count st + length (failed_logins st ++ [text])
              = S (success_count st + length (failed_logins st))).
  { intros text. rewrite length_app. cbn [length]. split_and!; [|lia|lia].
    rewrite <- (list_fmap_id (ls_rows st)) at 1. apply list_fmap_ext.
    intros _ r _. by destruct (has_id _ r). }
  destruct (login p) as [|[[|[|c cookie]|]|]].
  - left. by eexists.
  - right. split; [done|]. eexists. split; [done|].
    rewrite decide_False by (by intros [??]). apply Hfailed.
  - right. split; [done|]. eexists. split; [done|].
    rewrite decide_False by (by intros [??]). apply Hfailed.
  - right. split; [done|]. eexists. split; [done|].
    rewrite decide_True by done.
    cbn [ls_rows success_count failed_logins length].
    split_and!; [done|lia|lia].
  - left. by eexists.
  - right. split; [done|]. eexists. split; [done|].
    rewrite decide_False by (by intros [??]). apply Hfailed.
Qed.

(** What the turns for [todo] do to the table and the counters when
    none of them stops the loop. *)
Lemma login_loop_ends (todo : list BotRow) (st : login_state) :
  (∀ p, p ∈ todo → stops login p = None) →
  ∃ st',
    login_loop login st todo = (st', None)
    ∧ ls_rows st'
      = (λ r, foldl (λ x p, login_step login p x) r todo) <$> ls_rows st
    ∧ success_count st'
      = success_count st
        + length (filter (λ p, is_Some (logs_in login p)) todo)
    ∧ success_count st' + length (failed_logins st')
      = success_count st + length (failed_logins st) + length todo.
Proof.
  revert st. induction todo as [|p todo IH]; intros st Hends.
  { exists st. cbn [login_loop foldl length filter]. rewrite list_fmap_id.
    split_and!; [done|done|simpl; lia|lia]. }
  cbn [login_loop].
  destruct (login_one_cases st p)
    as [(stop & Hp & _)|(_ & st1 & -> & Hrows & Hcount & Hsum)].
  { rewrite Hends in Hp; [done|by left]. }
  destruct (IH st1) as (st' & -> & Hrows' & Hcount' & Hsum').
  { intros q ?. apply Hends. by right. }
  exists st'. split; [done|]. rewrite Hrows', Hcount', Hrows, Hcount.
  rewrite Hcount' in Hsum'. rewrite Hcount in Hsum.
  rewrite (filter_cons _ p todo). rewrite filter_cons, filter_nil in *.
  split_and!.
  - rewrite <- list_fmap_compose. by apply list_fmap_ext.
  - destruct (decide _); cbn [length] in *; lia.
  - cbn [length]. destruct (decide _); cbn [length] in *; lia.
Qed.

(** The loop stops in front of the first turn that stops it, with what
    the turns before did. *)
Lemma login_loop_stops (before : list BotRow) (p : BotRow)
    (after : list BotRow) (stop : loop_stop) (st : login_state) :
  (∀ q, q ∈ before → stops login q = None) → stops login p = Some stop →
  ∃ st',
    login_loop login st (before ++ p :: after) = (st', Some stop)
    ∧ ls_rows st'
      = (λ r, foldl (λ x p, login_step login p x) r before) <$> ls_rows st.
Proof.
  intros Hends Hp. revert st.
  induction before as [|q before IH]; intros st.
  { exists st. rewrite app_nil_l. cbn [login_loop foldl].
    destruct (login_one_cases st p) as [(stop' & Hp' & ->)|[Hp' _]];
      [|congruence].
    rewrite list_fmap_id. split; [|done]. congruence. }
  rewrite <- app_comm_cons. cbn [login_loop].
  destruct (login_one_cases st q)
    as [(stop' & Hq & _)|(_ & st1 & -> & Hrows & _)].
  { rewrite Hends in Hq; [done|by left]. }
  destruct (IH ltac:(intros x ?; apply Hends; by right) st1)
    as (st' & -> & Hrows').
  exists st'. split; [done|]. rewrite Hrows', Hrows.
  rewrite <- list_fmap_compose. by apply list_fmap_ext.
Qed.

(** Every list of profiles is one in which no turn stops the loop, or
    has a first profile whose turn does. *)
Lemma first_stop (todo : list BotRow) :
  (∀ p, p ∈ todo → stops login p = None)
  ∨ ∃ before p after stop,
      todo = before ++ p :: after
      ∧ (∀ q, q ∈ before → stops login q = None)
      ∧ stops login p = Some stop.
Proof.
  induction todo as [|q todo IH]; [left; by intros ? ?%elem_of_nil|].
  destruct (stops login q) as [stop|] eqn:Hq.
  { right. exists [], q, todo, stop. split_and!; [done| |done].
    by intros ? ?%elem_of_nil. }
  destruct IH as [Hends|(before & p & after & stop & -> & Hends & Hp)].
  - left. by intros x [->|?]%elem_of_cons; [|apply Hends].
  - right. exists (q :: before), p, after, stop. split_and!; [done| |done].
    by intros x [->|?]%elem_of_cons; [|apply Hends].
Qed.

Lemma after_login_id (r : BotRow) :
  bot_id (row_bot (after_login login r)) = bot_id (row_bot r)
  ∧ bot_username (row_bot (after_login login r)) = bot_username (row_bot r)
  ∧ bot_purpose (row_bot (after_login login r)) = bot_purpose (row_bot r).
Proof. unfold after_login. by destruct (logs_in login r). Qed.

Lemma login_step_other (p x : BotRow) :
  bot_id (row_bot p) ≠ bot_id (row_bot x) → login_step login p x = x.
Proof.
  intros Hne. unfold login_step, has_id.
  by rewrite bool_decide_eq_false_2 by congruence.
Qed.

Lemma login_step_own (p : BotRow) :
  login_step login p p = after_login login p.
Proof.
  unfold login_step, after_login, has_id.
  by rewrite bool_decide_eq_true_2.
Qed.

(** The turns of other profiles leave a row alone; its own turn sets
    its session. *)
Lemma login_steps_other (todo : list BotRow) (x : BotRow) :
  (∀ p, p ∈ todo → bot_id (row_bot p) ≠ bot_id (row_bot x)) →
  foldl (λ x p, login_step login p x) x todo = x.
Proof.
  revert x. induction todo as [|p todo IH]; intros x Hne; [done|].
  cbn [foldl]. rewrite login_step_other by (apply Hne; left).
  apply IH. intros q ?. apply Hne. by right.
Qed.

Lemma login_steps_own (todo : list BotRow) (r : BotRow) :
  NoDup ((bot_id ∘ row_bot) <$> todo) → r ∈ todo →
  foldl (λ x p, login_step login p x) r todo = after_login login r.
Proof.
  induction todo as [|p todo IH]; [by intros _ ?%elem_of_nil|].
  rewrite fmap_cons, NoDup_cons. intros [Hp Hdup] Hr. cbn [foldl].
  assert (Hfresh : ∀ q, q ∈ todo → bot_id (row_bot q) ≠ bot_id (row_bot p)).
  { intros q Hq Heq. apply Hp. unfold compose at 1. rewrite <- Heq.
    by apply (list_elem_of_fmap_2 (bot_id ∘ row_bot)). }
  apply elem_of_cons in Hr as [->|Hr].
  - rewrite login_step_own. apply login_steps_other.
    intros q Hq. destruct (after_login_id p) as (-> & _). by apply Hfresh.
  - rewrite login_step_other; [by apply IH|].
    intros Heq. by apply (Hfresh r).
Qed.

Lemma latest_onion_url_snoc (urls : list OnionUrl) (u : OnionUrl) :
  latest_onion_url (urls ++ [u])
  = match latest_onion_url urls with
    | None => Some u
    | Some b =>
        if (onion_timestamp b <? onion_timestamp u)%Z then Some u else Some b
    end.
Proof. unfold latest_onion_url. by rewrite foldl_app. Qed.

Lemma latest_onion_url_elem (urls : list OnionUrl) (b : OnionUrl) :
  latest_onion_url urls = Some b → b ∈ urls.
Proof.
  revert b. induction urls as [|u urls IH] using rev_ind; [done|].
  intros b. rewrite latest_onion_url_snoc.
  destruct (latest_onion_url urls) as [b0|].
  - case_match; intros [= <-]; apply elem_of_app; [right; left|left; by apply IH].
  - intros [= <-]. apply elem_of_app. right. left.
Qed.

End BotRoutesFacts.

Section BotSessionClaims.
Import Routes BotRoutes.

(** X14.  [create_bot_profile] stores the session as it is sent, the
    empty text included.  A bot for listing scans created that way is
    listed with [has_session] false, yet it is one of the active bots of
    the listing scan, whose filter only asks for a session that is not
    NULL; [has_session] is true exactly for the sessions that the detail
    scan's filter accepts. *)
Theorem empty_session_bot_is_active (rows : list BotRow)
  (profile : BotProfileCreate) (user_agent : string) (db : Db) :
  c_session profile = Some "" →
  c_purpose profile = "scrape_marketplace" →
  existsb (has_username (c_username profile)) rows = false →
  ∃ r,
    create_bot_profile rows profile user_agent
    = (rows ++ [r], Answered 200 "Bot profile created")
    ∧ bot_username (row_bot r) = c_username profile
    ∧ has_session r = false
    ∧ row_bot r ∈ Marketplace.active_bots (with_bots db (rows ++ [r]))
    ∧ ∀ r', has_session r' = true
            ↔ bot_session (row_bot r') ≠ None
              ∧ bot_session (row_bot r') ≠ Some "".
Proof.
  intros Hsession Hpurpose Hfresh. unfold create_bot_profile.
  rewrite Hfresh, Hpurpose, Hsession. cbn [purpose_of_value].
  eexists. split_and!; [done..| |].
  - unfold Marketplace.active_bots, with_bots. cbn [bot_profiles].
    apply list_elem_of_filter. split; [done|].
    rewrite fmap_app. apply elem_of_app. right. left.
  - intros r'. unfold has_session, truthy.
    destruct (bot_session (row_bot r')) as [[|c s]|]; naive_solver.
Qed.

Lemma empty_session_bot_is_active_witness :
  ∃ r,
    create_bot_profile [] BotScenarios.empty_session_request "Mozilla/5.0"
    = ([r], Answered 200 "Bot profile created")
    ∧ has_session r = false
    ∧ row_bot r ∈ Marketplace.active_bots
                     (with_bots MarketScenarios.fresh_db [r]).
Proof.
  destruct (empty_session_bot_is_active [] BotScenarios.empty_session_request
              "Mozilla/5.0" MarketScenarios.fresh_db eq_refl eq_refl eq_refl)
    as (r & Hcreate & _ & Hshown & Hactive & _).
  exists r. split_and!; [exact Hcreate|exact Hshown|exact Hactive].
Defined.

End BotSessionClaims.

Section BotRoutesClaims.
Import Routes BotRoutes.

Context (login : BotRow → login_result).

Lemma login_steps_keys (todo : list BotRow) (r : BotRow) :
  bot_id (row_bot (foldl (λ x p, login_step login p x) r todo))
  = bot_id (row_bot r)
  ∧ bot_username (row_bot (foldl (λ x p, login_step login p x) r todo))
    = bot_username (row_bot r).
Proof.
  revert r. induction todo as [|p todo IH]; intros r; [done|].
  cbn [foldl]. destruct (IH (login_step login p r)) as [-> ->].
  unfold login_step. destruct (has_id _ r); [|done].
  by destruct (logs_in login p).
Qed.

Lemma perform_login_consistent rows urls captcha_api :
  consistent rows →
  consistent (perform_bot_login login rows urls captcha_api).1.
Proof.
  intros [Hids Hnames]. unfold perform_bot_login.
  destruct (latest_onion_url urls); [|done].
  destruct captcha_api; [|done]. cbn [negb].
  destruct rows as [|r0 rows0] eqn:Hrows; [done|]. rewrite <- Hrows in *.
  assert (∃ turns,
            ls_rows (login_loop login
                       {| ls_rows := rows; success_count := 0;
                          failed_logins := [] |} rows).1
            = (λ r, foldl (λ x p, login_step login p x) r turns) <$> rows)
    as [turns Hturns].
  { destruct (first_stop login rows)
      as [Hends|(before & p & after & stop & Heq & Hends & Hp)].
    - destruct (login_loop_ends login rows
                  {| ls_rows := rows; success_count := 0;
                     failed_logins := [] |} Hends) as (st' & -> & Hst' & _).
      cbn [fst]. rewrite Hst'. by exists rows.
    - destruct (login_loop_stops login before p after stop
                  {| ls_rows := rows; success_count := 0;
                     failed_logins := [] |} Hends Hp) as (st' & Hloop & Hst').
      rewrite <- Heq in Hloop. rewrite Hloop. cbn [fst]. rewrite Hst'.
      by exists before. }
  destruct (login_loop _ _ rows) as [st stop]. cbn [fst] in *.
  rewrite Hturns.
  split; rewrite <- list_fmap_compose.
  - rewrite (list_fmap_ext _ (bot_id ∘ row_bot) rows); [done|].
    intros _ r _. apply login_steps_keys.
  - rewrite (list_fmap_ext _ (bot_username ∘ row_bot) rows); [done|].
    intros _ r _. apply login_steps_keys.
Qed.

(** X13.  Whatever requests the routes of [bot_profile.py] have served
    since [bot_profiles] was empty, no two rows share a key or a
    username: the checks of [create_bot_profile] and
    [update_bot_profile] keep the unique index on [username] from ever
    being hit.  What those checks raise does not reach the client as
    such: a taken username and an unknown key both come out as status
    500, and nothing is stored. *)
Theorem bot_profiles_consistent (requests : list request) (rows : list BotRow)
  (profile : BotProfileCreate) (user_agent : string) (profile_id : nat)
  (changes : BotProfileUpdate) :
  consistent (run login requests)
  ∧ (existsb (has_username (c_username profile)) rows = true →
     create_bot_profile rows profile user_agent
     = (rows, Failed 500 "Internal server error"))
  ∧ (find (has_id profile_id) rows = None →
     update_bot_profile rows profile_id changes
     = (rows, Failed 500 "Internal server error")
     ∧ delete_bot_profile rows profile_id
       = (rows, Failed 500 "Internal server error")).
Proof.
  split_and!.
  - unfold run.
    assert (consistent []) as Hnil by (split; constructor).
    revert Hnil. generalize (@nil BotRow).
    induction requests as [|req requests IH]; intros rs Hrs; [done|].
    cbn [foldl]. apply IH. destruct req; cbn [handle].
    + by apply create_bot_consistent.
    + by apply update_bot_consistent.
    + by apply delete_bot_consistent.
    + by apply perform_login_consistent.
  - unfold create_bot_profile. by intros ->.
  - unfold update_bot_profile, delete_bot_profile. by intros ->.
Qed.

(** X15.  When the address of the forum and an active CAPTCHA API are
    there, [perform_bot_login] goes through the profiles in order: a
    profile without a proxy is not tried, and a profile whose login comes
    back with a cookie gets ["session=" + cookie] as its session at once.
    The loop reaches its end exactly when every login that is tried
    returns and the lookup of its cookie does not raise; the answer is
    then 200, every profile that logged in has its new session and every
    other profile the one it had, the number of successes and the number
    of entries in [failed_logins] add up to the number of profiles, and
    the flash category is ["success"] exactly when one login succeeded.
    [login_to_tor_website] does not return while its turns fail: at the
    first profile for which it does not, the route never answers; at the
    first profile whose cookie lookup raises, it answers 500.  In both
    cases the sessions of the profiles in front of that one are stored
    and every other row is as it was. *)
Theorem perform_bot_login_outcome (rows : list BotRow) (urls : list OnionUrl) :
  NoDup ((bot_id ∘ row_bot) <$> rows) → rows ≠ [] →
  is_Some (latest_onion_url urls) →
  let result := perform_bot_login login rows urls true in
  let n := length (filter (λ p, is_Some (logs_in login p)) rows) in
  ((∃ content, result.2 = Some (Answered 200 content))
   ↔ ∀ r, r ∈ rows → stops login r = None)
  ∧ ((∀ r, r ∈ rows → stops login r = None) →
     ∃ failed,
       result
       = (after_login login <$> rows,
          Some (Answered 200
                  (n, failed, if 0 <? n then "success" else "error")))
       ∧ n + length failed = length rows)
  ∧ (∀ before p after stop,
       rows = before ++ p :: after →
       (∀ r, r ∈ before → stops login r = None) →
       stops login p = Some stop →
       result
       = ((after_login login <$> before) ++ p :: after,
          match stop with
          | Hangs => None
          | Raises => Some (Failed 500 "Internal server error")
          end))
  ∧ (∀ r, stops login r = Some Hangs
          ↔ truthy (bot_tor_proxy (row_bot r)) = true
            ∧ login r = NeverReturns)
  ∧ (∀ r cookie, r ∈ rows → logs_in login r = Some cookie →
       truthy (bot_tor_proxy (row_bot r)) = true
       ∧ login r = Returned (Some (Cookie cookie)) ∧ cookie ≠ ""
       ∧ bot_session (row_bot (after_login login r))
         = Some ("session=" +:+ cookie)
       ∧ has_session (after_login login r) = true)
  ∧ (∀ r, r ∈ rows → logs_in login r = None → after_login login r = r).
Proof.
  intros Hdup Hrows [u Hu]. cbv zeta. unfold perform_bot_login.
  rewrite Hu. cbn [negb]. destruct rows as [|r0 rows0] eqn:Heq; [done|].
  rewrite <- Heq in *. clear Heq r0 rows0 Hrows.
  set (st0 := {| ls_rows := rows; success_count := 0; failed_logins := [] |}).
  assert (Hall : (∀ r, r ∈ rows → stops login r = None) →
                 ∃ failed,
                   login_loop login st0 rows
                   = ({| ls_rows := after_login login <$> rows;
                         success_count :=
                           length (filter (λ p, is_Some (logs_in login p))
                                     rows);
                         failed_logins := failed |}, None)
                   ∧ length (filter (λ p, is_Some (logs_in login p)) rows)
                     + length failed = length rows).
  { intros Hends.
    destruct (login_loop_ends login rows st0 Hends)
      as ([rows' count failed] & -> & Hrows' & Hcount & Hsum).
    cbn [ls_rows success_count failed_logins length st0] in *.
    exists failed. subst rows' count. split; [|lia]. do 2 f_equal.
    apply list_fmap_ext. intros _ r Hr%list_elem_of_lookup_2.
    by apply login_steps_own. }
  assert (Hfirst : ∀ before p after stop,
            rows = before ++ p :: after →
            (∀ r, r ∈ before → stops login r = None) →
            stops login p = Some stop →
            ∃ st', login_loop login st0 rows = (st', Some stop)
                   ∧ ls_rows st' = (after_login login <$> before) ++ p :: after).
  { intros before p after stop Hsplit Hends Hp.
    destruct (login_loop_stops login before p after stop st0 Hends Hp)
      as (st' & Hloop & Hst').
    exists st'. rewrite Hsplit. split; [done|]. rewrite Hst'.
    cbn [ls_rows st0]. rewrite Hsplit in Hdup |- *.
    rewrite fmap_app in Hdup. apply NoDup_app in Hdup as (Hbefore & Hsep & _).
    rewrite fmap_app. f_equal.
    - apply list_fmap_ext. intros _ r Hr%list_elem_of_lookup_2.
      by apply login_steps_own.
    - rewrite <- (list_fmap_id (p :: after)) at 2. apply list_fmap_ext.
      intros _ r Hr%list_elem_of_lookup_2. apply login_steps_other.
      intros q Hq Hid. apply (Hsep (bot_id (row_bot q))).
      + by apply (list_elem_of_fmap_2 (bot_id ∘ row_bot)).
      + rewrite Hid. by apply (list_elem_of_fmap_2 (bot_id ∘ row_bot)). }
  split_and!.
  - split.
    + intros [content Hanswer].
      destruct (first_stop login rows)
        as [Hends|(before & p & after & stop & Hsplit & Hends & Hp)]; [done|].
      destruct (Hfirst before p after stop Hsplit Hends Hp)
        as (st' & Hloop & _).
      rewrite Hloop in Hanswer. by destruct stop.
    + intros Hends. destruct (Hall Hends) as (failed & -> & _). by eexists.
  - intros Hends. destruct (Hall Hends) as (failed & -> & Hsum).
    exists failed. by split.
  - intros before p after stop Hsplit Hends Hp.
    destruct (Hfirst before p after stop Hsplit Hends Hp) as (st' & -> & ->).
    by destruct stop.
  - intros r. unfold stops.
    destruct (truthy (bot_tor_proxy (row_bot r))); [|by split; [|intros []]].
    destruct (login r) as [|[[| |]|]]; split; try done; by intros [].
  - intros r cookie Hr Hlogs. unfold after_login. rewrite Hlogs.
    unfold logs_in in Hlogs.
    destruct (truthy (bot_tor_proxy (row_bot r))); [|done].
    destruct (login r) as [|[[|[|c k]|]|]]; try done.
    injection Hlogs as <-. by split_and!.
  - intros r _ Hlogs. unfold after_login. by rewrite Hlogs.
Qed.

End BotRoutesClaims.

Section BotRoutesWitnesses.
Import Routes BotRoutes.

Lemma perform_bot_login_outcome_witness :
  NoDup ((bot_id ∘ row_bot) <$> BotScenarios.three_rows)
  ∧ BotScenarios.three_rows ≠ []
  ∧ is_Some (latest_onion_url BotScenarios.one_url)
  ∧ (∃ failed,
       perform_bot_login BotScenarios.one_login BotScenarios.three_rows
         BotScenarios.one_url true
       = (after_login BotScenarios.one_login <$> BotScenarios.three_rows,
          Some (Answered 200 (1, failed, "success")))
       ∧ 1 + length failed = 3)
  ∧ (perform_bot_login BotScenarios.dead_proxy_login BotScenarios.three_rows
       BotScenarios.one_url true).2 = None.
Proof.
  assert (Hdup : NoDup ((bot_id ∘ row_bot) <$> BotScenarios.three_rows))
    by (apply (bool_decide_unpack _); by vm_compute).
  assert (Hurl : is_Some (latest_onion_url BotScenarios.one_url))
    by (by eexists).
  split_and!; [exact Hdup|done|exact Hurl| |].
  - destruct (perform_bot_login_outcome BotScenarios.one_login
                BotScenarios.three_rows BotScenarios.one_url Hdup
                ltac:(done) Hurl) as (_ & Hall & _).
    destruct Hall as (failed & Hout & Hsum).
    { intros r Hr. unfold BotScenarios.three_rows in Hr.
      rewrite !fmap_cons, fmap_nil in Hr.
      by repeat (apply elem_of_cons in Hr as [->|Hr]; [reflexivity|]);
         apply elem_of_nil in Hr. }
    exists failed. split; [exact Hout|exact Hsum].
  - destruct (perform_bot_login_outcome BotScenarios.dead_proxy_login
                BotScenarios.three_rows BotScenarios.one_url Hdup
                ltac:(done) Hurl) as (_ & _ & Hstop & _).
    unfold BotScenarios.three_rows in Hstop |- *.
    rewrite !fmap_cons, fmap_nil in Hstop |- *.
    rewrite (Hstop [_] _ [_] Hangs eq_refl); [done| |reflexivity].
    by intros r [->|[]%elem_of_nil]%elem_of_cons.
Defined.

(** X16.  [set_onion_url] only ever adds a row, and [get_onion_url]
    answers with a row of the greatest timestamp: the address just set
    is the one returned when the clock is past every stored timestamp,
    and the stored one is returned when it carries a later time. *)
Theorem onion_url_round_trip (urls : list OnionUrl) (url : string)
  (now : datetime) :
  let urls' := (set_onion_url urls url now).1 in
  (∃ row, urls' = urls ++ [row] ∧ onion_url row = url)
  ∧ ((∀ u, u ∈ urls → (onion_timestamp u < now)%Z) →
     get_onion_url urls' = Answered 200 (Some url))
  ∧ (∀ b, latest_onion_url urls = Some b → (now < onion_timestamp b)%Z →
       get_onion_url urls' = Answered 200 (Some (onion_url b))).
Proof.
  unfold set_onion_url, get_onion_url. cbn [fst].
  split_and!; [by eexists| |].
  - intros Hclock. rewrite latest_onion_url_snoc.
    destruct (latest_onion_url urls) as [b|] eqn:Hb; [|done].
    apply latest_onion_url_elem, Hclock in Hb.
    cbn [onion_timestamp]. by rewrite (proj2 (Z.ltb_lt _ _) Hb).
  - intros b Hb Hlater. rewrite latest_onion_url_snoc, Hb.
    cbn [onion_timestamp]. by rewrite (proj2 (Z.ltb_ge _ _)) by lia.
Qed.

Lemma onion_url_round_trip_witness :
  get_onion_url
    (set_onion_url BotScenarios.one_url "http://mirror.onion/login" 20%Z).1
  = Answered 200 (Some "http://mirror.onion/login")
  ∧ get_onion_url
      (set_onion_url BotScenarios.one_url "http://mirror.onion/login" 5%Z).1
    = Answered 200 (Some "http://forum.onion/login").
Proof.
  destruct (onion_url_round_trip BotScenarios.one_url
              "http://mirror.onion/login" 20%Z) as (_ & Hnew & _).
  destruct (onion_url_round_trip BotScenarios.one_url
              "http://mirror.onion/login" 5%Z) as (_ & _ & Hold).
  split.
  - apply Hnew. intros u [->|[]%elem_of_nil]%elem_of_cons. reflexivity.
  - apply (Hold _ eq_refl). reflexivity.
Defined.

(** X17.  Whatever [random.choice] draws, [gen_desktop_ua] returns one
    of thirty-six texts: a Firefox desktop user agent for one of nine
    platforms, with one of the versions 140.0 to 143.0 both behind [rv:]
    and behind [Firefox/], and with the version of a Macintosh written
    with a dot in place of the underscore. *)
Theorem gen_desktop_ua_shape (k1 k2 k3 : nat) (user_agent : string) :
  gen_desktop_ua k1 k2 k3 = Some user_agent →
  user_agent ∈ (platform ← platforms; version ← versions;
                [user_agent_of platform version])
  ∧ k1 < 4 ∧ k2 < 3 ∧ k3 < 4.
Proof.
  intros Hua.
  destruct k1 as [|[|[|[|k1]]]]; [| | | |done];
    (destruct k2 as [|[|[|k2]]]; [| | |done]);
    try done;
    (destruct k3 as [|[|[|[|k3]]]]; [| | | |done]);
    injection Hua as <-;
    (split; [apply (bool_decide_unpack _); by vm_compute|lia]).
Qed.

Lemma gen_desktop_ua_shape_witness :
  gen_desktop_ua 1 2 3
  = Some "Mozilla/5.0 (Macintosh; Intel Mac OS X 13.6; rv:143.0) Gecko/20100101 Firefox/143.0"
  ∧ "Mozilla/5.0 (Macintosh; Intel Mac OS X 13.6; rv:143.0) Gecko/20100101 Firefox/143.0"
    ∈ (platform ← platforms; version ← versions;
       [user_agent_of platform version]).
Proof.
  split; [reflexivity|].
  apply (gen_desktop_ua_shape 1 2 3). reflexivity.
Defined.

End BotRoutesWitnesses.

(** ** Tor proxies *)

Section TorProxyFacts.
Import PyStr Routes TorProxy.

Lemma draw_ports_Some (attempts : nat → Z * bool) (n i : nat) (p : Z) :
  draw_ports attempts i n = Some p
  ↔ ∃ k, k < n ∧ attempts (i + k) = (p, true)
         ∧ ∀ j, j < k → (attempts (i + j)).2 = false.
Proof.
  revert i. induction n as [|n IH]; intros i; cbn [draw_ports].
  { split; [done|]. intros (k & ? & _). lia. }
  destruct (attempts i) as [q free] eqn:Hi. destruct free.
  - split.
    + intros [= ->]. exists 0. rewrite Nat.add_0_r.
      split_and!; [lia|done|]. intros j ?. lia.
    + intros (k & _ & Hk & Hbusy). destruct k as [|k].
      * rewrite Nat.add_0_r in Hk. congruence.
      * specialize (Hbusy 0 ltac:(lia)). rewrite Nat.add_0_r, Hi in Hbusy.
        done.
  - rewrite IH. split.
    + intros (k & ? & Hk & Hbusy). exists (S k).
      rewrite Nat.add_succ_r. split_and!; [lia|done|].
      intros [|j] ?.
      * by rewrite Nat.add_0_r, Hi.
      * rewrite Nat.add_succ_r. apply Hbusy. lia.
    + intros (k & ? & Hk & Hbusy). destruct k as [|k].
      { rewrite Nat.add_0_r in Hk. congruence. }
      exists k. rewrite Nat.add_succ_r in Hk. split_and!; [lia|done|].
      intros j ?. specialize (Hbusy (S j) ltac:(lia)).
      by rewrite Nat.add_succ_r in Hbusy.
Qed.

Lemma draw_ports_None (attempts : nat → Z * bool) (n i : nat) :
  draw_ports attempts i n = None
  ↔ ∀ k, k < n → (attempts (i + k)).2 = false.
Proof.
  revert i. induction n as [|n IH]; intros i; cbn [draw_ports].
  { split; [|done]. intros _ k ?. lia. }
  destruct (attempts i) as [q free] eqn:Hi. destruct free.
  - split; [done|]. intros Hbusy. specialize (Hbusy 0 ltac:(lia)).
    rewrite Nat.add_0_r, Hi in Hbusy. done.
  - rewrite IH. split.
    + intros Hbusy [|k] ?.
      * by rewrite Nat.add_0_r, Hi.
      * rewrite Nat.add_succ_r. apply Hbusy. lia.
    + intros Hbusy k ?. specialize (Hbusy (S k) ltac:(lia)).
      by rewrite Nat.add_succ_r in Hbusy.
Qed.

Lemma first_ip_Returned (get : string → http_result) (urls : list string)
    (ip : string) :
  first_ip get urls = Returned ip
  ↔ ∃ i url body,
      urls !! i = Some url ∧ get url = Text body ∧ strip body = ip
      ∧ ip ≠ ""
      ∧ ∀ j url', j < i → urls !! j = Some url' → passed_over get url'.
Proof.
  induction urls as [|url rest IH]; cbn [first_ip].
  { split; [done|]. by intros (i & ? & ? & ? & _). }
  split.
  - destruct (get url) as [body| |msg] eqn:Hget; [| |done].
    + destruct (decide (strip body = "")) as [Hblank|Hip].
      * intros (i & url' & body' & ? & ? & ? & ? & Hover)%IH.
        exists (S i), url', body'. split_and!; [done..|].
        intros [|j] url'' ? Hj; cbn in Hj.
        -- injection Hj as <-. right. by exists body.
        -- apply (Hover j); [lia|done].
      * intros [= <-]. exists 0, url, body. split_and!; [done..|].
        intros j ? ?. lia.
    + intros (i & url' & body' & ? & ? & ? & ? & Hover)%IH.
      exists (S i), url', body'. split_and!; [done..|].
      intros [|j] url'' ? Hj; cbn in Hj.
      * injection Hj as <-. by left.
      * apply (Hover j); [lia|done].
  - intros (i & url' & body' & Hi & Hget & Hstrip & Hip & Hover).
    destruct i as [|i]; cbn in Hi.
    + injection Hi as <-. rewrite Hget. cbn zeta.
      rewrite decide_False by congruence. by rewrite Hstrip.
    + assert (first_ip get rest = Returned ip) as Hrest.
      { apply IH. exists i, url', body'. split_and!; [done..|].
        intros j url'' ? Hj. apply (Hover (S j)); [lia|done]. }
      destruct (Hover 0 url ltac:(lia) eq_refl) as [->|(b & -> & Hb)];
        [done|].
      cbn zeta. by rewrite decide_True.
Qed.

Lemma first_ip_all_failed (get : string → http_result) (urls : list string) :
  first_ip get urls
  = Raised (RuntimeError "All exit-IP lookup services failed via Tor")
  ↔ ∀ url, url ∈ urls → passed_over get url.
Proof.
  induction urls as [|url rest IH]; cbn [first_ip].
  { split; [|done]. by intros _ url ?%elem_of_nil. }
  split.
  - destruct (get url) as [body| |msg] eqn:Hget; [| |done].
    + destruct (decide (strip body = "")) as [Hblank|Hip]; [|done].
      intros Hrest url' [->|?]%elem_of_cons; [|by apply IH].
      right. by exists body.
    + intros Hrest url' [->|?]%elem_of_cons; [|by apply IH].
      by left.
  - intros Hover.
    assert (first_ip get rest
            = Raised (RuntimeError
                        "All exit-IP lookup services failed via Tor"))
      as Hrest.
    { apply IH. intros url' ?. apply Hover. by right. }
    destruct (Hover url ltac:(by left)) as [->|(b & -> & Hb)]; [done|].
    cbn zeta. by rewrite decide_True.
Qed.

Lemma first_ip_not_exit (get : string → http_result) (urls : list string)
    (code : nat) :
  first_ip get urls ≠ Exited code.
Proof.
  induction urls as [|url rest IH]; cbn [first_ip]; [done|].
  destruct (get url); [|done..]. cbn zeta. by destruct (decide _).
Qed.

Lemma random_free_port_cases (attempts : nat → Z * bool) :
  (∃ p, random_free_port attempts = Returned p)
  ∨ random_free_port attempts = Exited 1.
Proof.
  unfold random_free_port, die.
  destruct (draw_ports attempts 0 MAX_PORT_ATTEMPTS); eauto.
Qed.

(** What [start_proxy] logs, by the way it ends. *)
Lemma start_proxy_cases (h : Host) (name : string) (port : Z) :
  match (start_proxy h name port).1 with
  | Returned info =>
      (start_proxy h name port).2 = [ComposeUp name port; Inspect name]
      ∧ write_error h = None ∧ compose_error h = None
      ∧ port_opens h = true
      ∧ ∃ out,
          inspect_output h = inr out ∧ strip out ≠ ""
          ∧ fetch_tor_exit_ip (get h) = Returned (info_tor_exit_node info)
          ∧ info = {| info_container_name := name;
                      info_container_ip := strip out +:+ ":" +:+ pretty port;
                      info_tor_exit_node := info_tor_exit_node info;
                      info_timestamp := clock h |}
  | Raised e =>
      (start_proxy h name port).2 `prefix_of` [ComposeUp name port; Inspect name]
  | Exited _ => False
  end.
Proof.
  unfold start_proxy, wait_for_port, bind, run, raise, ret, lift.
  destruct (write_error h); [by exists [ComposeUp name port; Inspect name]|].
  destruct (compose_error h); [by exists [Inspect name]|].
  destruct (port_opens h); [|by exists [Inspect name]].
  destruct (inspect_output h) as [msg|out]; [by exists []|].
  destruct (decide (strip out = "")) as [Hblank|Hip]; [by exists []|].
  destruct (fetch_tor_exit_ip (get h)) as [ip|e|code] eqn:Hfetch.
  - cbn. split_and!; [done..|]. by exists out.
  - by exists [].
  - by apply first_ip_not_exit in Hfetch.
Qed.

(** A call that returns has run [docker compose up] and [docker
    inspect], and nothing else. *)
Lemma create_and_start_proxy_returned (h : Host) (info : ProxyInfo) :
  (create_and_start_proxy h).1 = Returned info →
  ∃ port,
    (create_and_start_proxy h).2
    = [ComposeUp (random_container_name (letters h)) port;
       Inspect (random_container_name (letters h))].
Proof.
  unfold create_and_start_proxy.
  destruct (docker_found h); [|done]. destruct (compose_found h); [|done].
  cbn [negb].
  destruct (random_free_port_cases (attempts h)) as [[port Hport]|Hport];
    rewrite Hport; unfold lift, bind; [|done].
  unfold finally_remove.
  pose proof (start_proxy_cases h (random_container_name (letters h)) port)
    as Hcases.
  destruct (start_proxy h (random_container_name (letters h)) port)
    as [[info'|e|code] log]; cbn [fst snd] in Hcases; [|done..].
  cbn [negb andb fst snd]. intros _. exists port.
  by destruct Hcases as (-> & _).
Qed.

End TorProxyFacts.

Section TorProxyClaims.
Import PyStr Routes TorProxy.

(** X18.  [random_free_port] returns the first port it draws that is
    free, and draws at most a hundred times: when the first hundred draws
    are all in use it ends the process with exit code 1, whatever later
    draws would give.  It never raises an exception. *)
Theorem random_free_port_first_free (attempts : nat → Z * bool) :
  (∀ p, random_free_port attempts = Returned p
        ↔ ∃ k, k < 100 ∧ attempts k = (p, true)
               ∧ ∀ j, j < k → (attempts j).2 = false)
  ∧ (random_free_port attempts = Exited 1
     ↔ ∀ k, k < 100 → (attempts k).2 = false)
  ∧ (∀ e, random_free_port attempts ≠ Raised e)
  ∧ (∀ code, random_free_port attempts = Exited code → code = 1).
Proof.
  unfold random_free_port, die.
  pose proof (draw_ports_Some attempts MAX_PORT_ATTEMPTS 0) as HSome.
  pose proof (draw_ports_None attempts MAX_PORT_ATTEMPTS 0) as HNone.
  change MAX_PORT_ATTEMPTS with 100 in *. cbn [Nat.add] in *.
  destruct (draw_ports attempts 0 100) as [q|].
  - split_and!.
    + intros p. rewrite <- HSome. split; congruence.
    + split; [done|]. intros Hbusy%HNone. done.
    + done.
    + done.
  - split_and!.
    + intros p. rewrite <- HSome. done.
    + split; [|done]. intros _. by apply HNone.
    + done.
    + by intros code [= <-].
Qed.

(** X19.  [fetch_tor_exit_ip] asks the three services in order and
    returns the stripped text of the first one that answers with a text
    that is not blank, every service before it having raised a
    [RequestException] or answered a blank text.  The address it returns is
    not empty and has no white space around it.  It raises ["All exit-IP
    lookup services failed via Tor"] exactly when all three are passed
    over. *)
Theorem fetch_tor_exit_ip_result (get : string → http_result) :
  (∀ ip, fetch_tor_exit_ip get = Returned ip
         ↔ ∃ i url body,
             services !! i = Some url ∧ get url = Text body
             ∧ strip body = ip ∧ ip ≠ ""
             ∧ ∀ j url', j < i → services !! j = Some url' →
                 passed_over get url')
  ∧ (∀ ip, fetch_tor_exit_ip get = Returned ip → ip ≠ "" ∧ strip ip = ip)
  ∧ (fetch_tor_exit_ip get
     = Raised (RuntimeError "All exit-IP lookup services failed via Tor")
     ↔ ∀ url, url ∈ services → passed_over get url).
Proof.
  unfold fetch_tor_exit_ip. split_and!.
  - intros ip. apply first_ip_Returned.
  - intros ip (i & url & body & _ & _ & <- & Hip & _)%first_ip_Returned.
    split; [done|]. apply strip_idemp.
  - apply first_ip_all_failed.
Qed.

(** X20.  [create_and_start_proxy] removes the container exactly when it
    raises: every exception raised after the port was chosen is followed
    by [docker rm -f] of the container name, as the last command, also
    when [docker compose up] never ran.  When it returns, the only
    commands are [docker compose up] and [docker inspect], the port is
    the one [random_free_port] chose, [container_ip] is the stripped
    output of [docker inspect] followed by a colon and the port, and the
    exit node is the address [fetch_tor_exit_ip] found.  When Docker or
    Compose is missing or no port is free it exits with code 1 and runs no
    command. *)
Theorem create_and_start_proxy_cleanup (h : Host) :
  let name := random_container_name (letters h) in
  let result := create_and_start_proxy h in
  (∀ info, result.1 = Returned info →
     ∃ port out,
       random_free_port (attempts h) = Returned port
       ∧ result.2 = [ComposeUp name port; Inspect name]
       ∧ inspect_output h = inr out ∧ strip out ≠ ""
       ∧ fetch_tor_exit_ip (get h) = Returned (info_tor_exit_node info)
       ∧ info_container_name info = name
       ∧ info_container_ip info = strip out +:+ ":" +:+ pretty port
       ∧ info_timestamp info = clock h)
  ∧ (∀ e, result.1 = Raised e →
       ∃ port log,
         random_free_port (attempts h) = Returned port
         ∧ result.2 = log ++ [Remove name]
         ∧ log `prefix_of` [ComposeUp name port; Inspect name])
  ∧ (∀ code, result.1 = Exited code →
       code = 1 ∧ result.2 = []
       ∧ (docker_found h = false ∨ compose_found h = false
          ∨ random_free_port (attempts h) = Exited 1)).
Proof.
  intros name result. subst result. unfold create_and_start_proxy.
  fold name.
  destruct (docker_found h); cbn [negb];
    [|split_and!; [done..|]; intros code [= <-]; auto].
  destruct (compose_found h); cbn [negb];
    [|split_and!; [done..|]; intros code [= <-]; auto].
  destruct (random_free_port_cases (attempts h)) as [[port Hport]|Hport];
    rewrite Hport; unfold lift, bind; cbn [fst snd].
  2:{ split_and!; [done..|]. intros ? [= <-]. auto. }
  unfold finally_remove.
  pose proof (start_proxy_cases h name port) as Hcases.
  destruct (start_proxy h name port) as [[info|e|code] log];
    cbn [fst snd] in Hcases; cbn [negb andb fst snd].
  - rewrite app_nil_l. split_and!; [|done..].
    intros ? [= <-].
    destruct Hcases as (-> & _ & _ & _ & out & ? & ? & ? & ->).
    exists port, out. by split_and!.
  - rewrite bool_decide_false by done. cbn [negb fst snd].
    rewrite app_nil_l. split_and!; [done| |done].
    intros ? _. by exists port, log.
  - done.
Qed.

End TorProxyClaims.

Section ProxyRouteClaims.
Import PyStr Routes TorProxy.
Context (integrity_error : string) (str_http : nat → string → string).

(** X21.  [POST /api/proxy-gen/create] stores a row exactly when
    [create_and_start_proxy] returned and no row has the container name
    yet; the row then has [running] true and the four values of the
    dictionary.  An exception of the service becomes a 500 whose detail
    ends in its text.  When the name is taken the reply is a 500 as well,
    the table is unchanged and no [docker rm] was run, so that the
    container is left without a row.  The [SystemExit] of [die] is not
    caught by the route.  Distinct container names stay distinct. *)
Theorem create_proxy_outcome (proxies : list Proxy) (h : Host) :
  let service := create_and_start_proxy h in
  let result := create_proxy integrity_error proxies h in
  result.2 = service.2
  ∧ (∀ info, service.1 = Returned info →
       existsb (has_name (info_container_name info)) proxies = false →
       ∃ proxy,
         result.1 = (proxies ++ [proxy], Returned (Answered 200 proxy))
         ∧ (id proxy ∉ id <$> proxies)
         ∧ container_name proxy = info_container_name info
         ∧ container_ip proxy = info_container_ip info
         ∧ tor_exit_node proxy = info_tor_exit_node info
         ∧ timestamp proxy = info_timestamp info
         ∧ running proxy = true)
  ∧ (∀ info, service.1 = Returned info →
       existsb (has_name (info_container_name info)) proxies = true →
       result.1
       = (proxies,
          Returned (Failed 500 ("Failed to create proxy: "
                                +:+ integrity_error)))
       ∧ ∀ name, Remove name ∉ result.2)
  ∧ (∀ e, service.1 = Raised e →
       result.1
       = (proxies, Returned (Failed 500 ("Failed to create proxy: "
                                         +:+ str e))))
  ∧ (∀ code, service.1 = Exited code → result.1 = (proxies, Exited code))
  ∧ (NoDup (container_name <$> proxies) →
     NoDup (container_name <$> result.1.1)).
Proof.
  intros service result. subst service result. unfold create_proxy.
  pose proof (create_and_start_proxy_returned h) as Hlog.
  destruct (create_and_start_proxy h) as [[info|e|code] log];
    cbn [fst snd] in *.
  - destruct (existsb (has_name (info_container_name info)) proxies)
      eqn:Hname; cbn [fst snd].
    + split_and!; [done| | |done..].
      * intros ? [= <-]. congruence.
      * intros ? [= <-] _. split; [done|]. intros name.
        destruct (Hlog info eq_refl) as [port ->].
        intros [?|[?|[]%elem_of_nil]%elem_of_cons]%elem_of_cons; done.
    + split_and!; [done| | |done..|].
      * intros ? [= <-] _. eexists. split; [done|].
        split_and!; [|done..]. apply next_id_not_in.
      * intros ? [= <-]. congruence.
      * intros Hnames. rewrite fmap_app. apply NoDup_app.
        split_and!; [done| |apply NoDup_singleton].
        intros name Hin [->|[]%elem_of_nil]%elem_of_cons.
        apply list_elem_of_fmap in Hin as (p & Hp & Hin).
        apply (existsb_false_elem _ _ _ Hname) in Hin.
        unfold has_name in Hin. by apply bool_decide_eq_false in Hin.
  - split_and!; [done..| |done|done]. by intros ? [= <-].
  - split_and!; [done..| |done]. by intros ? [= <-].
Qed.

(** X22.  [DELETE /api/proxy-gen/delete/{container_name}] answers 200
    or 500, never 404: the 404 it raises for a name without a row is
    caught by its own handler.  [delete_container] is called only for a
    name that has a row; the row is deleted exactly when
    [delete_container] returned [True], all other rows are kept, and in
    every other case the table is unchanged.  A success adds one message
    of category [success] to the session.  A name without a row and a
    removal that returned [False] add two messages of category [error];
    an exception that [delete_container] lets through (it catches only
    [CalledProcessError]) adds one, with the text of the exception, and
    the answer is 500 with that text. *)
Theorem delete_proxy_outcome (proxies : list Proxy)
    (messages : list Message) (name : string) (rm : string → run_result) :
  NoDup (id <$> proxies) →
  let result := delete_proxy str_http proxies messages name rm in
  let known := existsb (has_name name) proxies in
  let removed :=
    known && bool_decide (delete_container rm name = inr true) in
  status_code_of result.1.2 = (if removed then 200 else 500)
  ∧ result.2 = known
  ∧ (removed = false → result.1.1.1 = proxies)
  ∧ (removed = true →
     ∃ proxy,
       List.find (has_name name) proxies = Some proxy
       ∧ container_name proxy = name
       ∧ ∀ p, p ∈ result.1.1.1 ↔ p ∈ proxies ∧ p ≠ proxy)
  ∧ ∃ new,
      result.1.1.2 = messages ++ new
      ∧ Forall (λ m, category m = if removed then "success" else "error")
               new
      ∧ (removed = true → length new = 1)
      ∧ (known = false → length new = 2)
      ∧ (known = true → delete_container rm name = inr false →
         length new = 2)
      ∧ (∀ msg, known = true → delete_container rm name = inl msg →
           new = [{| category := "error";
                     text := "Failed to delete proxy: " +:+ msg |}]
           ∧ result.1.2 = Failed 500 ("Failed to delete proxy: " +:+ msg)).
Proof.
  intros Hids result known removed. subst result known removed.
  unfold delete_proxy.
  destruct (List.find (has_name name) proxies) as [proxy|] eqn:Hfind.
  - assert (existsb (has_name name) proxies = true) as ->.
    { apply existsb_exists. exists proxy.
      apply find_some in Hfind. naive_solver. }
    apply find_some in Hfind as [Hin%list_elem_of_In Hname].
    apply bool_decide_eq_true in Hname.
    cbn [andb].
    destruct (delete_container rm name) as [msg|[|]];
      cbn [fst snd status_code_of].
    + rewrite bool_decide_false by done.
      split_and!; [done..| |]; [done|].
      eexists. split; [done|]. split; [by repeat constructor|].
      split_and!; [done..|]. by intros ? _ [= <-].
    + rewrite bool_decide_true by done.
      split_and!; [done..| |].
      * intros _. exists proxy. split_and!; [done..|].
        intros p. rewrite list_elem_of_filter. split.
        -- intros [Hid ?]. split; [done|]. by intros ->.
        -- intros [? Hne]. split; [|done]. intros Hid. apply Hne.
           by apply (NoDup_fmap_eq id proxies).
      * eexists. split; [done|]. split; [by repeat constructor|].
        by split_and!.
    + rewrite bool_decide_false by done.
      split_and!; [done..| |]; [done|].
      eexists. split; [done|]. split; [by repeat constructor|].
      by split_and!.
  - assert (existsb (has_name name) proxies = false) as ->.
    { apply not_true_is_false. intros (p & Hp & Hname)%existsb_exists.
      apply (find_none _ _ Hfind) in Hp. congruence. }
    cbn [andb fst snd status_code_of]. split_and!; [done..| |]; [done|].
    eexists. split; [done|]. split; [by repeat constructor|].
    by split_and!.
Qed.

End ProxyRouteClaims.

Section ProxyListFacts.
Import PyStr Routes TorProxy.

Lemma sync_all_ends (inspect : string → run_result) (proxies : list Proxy) :
  (∀ p, p ∈ proxies → ¬ raises inspect p) →
  sync_all inspect proxies = (synced inspect <$> proxies, None).
Proof.
  induction proxies as [|p rest IH]; intros Hends; [done|].
  cbn [sync_all]. rewrite fmap_cons. unfold synced at 1.
  destruct (container_running inspect (container_name p)) as [msg|b] eqn:Hp.
  { destruct (Hends p); [by left|]. unfold raises, container_running in *.
    destruct (inspect (container_name p)); [done..|]. by eexists. }
  rewrite IH; [done|]. intros q ?. apply Hends. by right.
Qed.

Lemma sync_all_raises (inspect : string → run_result)
    (before : list Proxy) (p : Proxy) (after : list Proxy) (msg : string) :
  (∀ q, q ∈ before → ¬ raises inspect q) →
  inspect (container_name p) = NotStarted msg →
  sync_all inspect (before ++ p :: after)
  = ((synced inspect <$> before) ++ p :: after, Some msg).
Proof.
  intros Hends Hp. induction before as [|q before IH].
  { cbn [app sync_all fmap list_fmap]. unfold container_running.
    by rewrite Hp. }
  rewrite <- app_comm_cons. cbn [sync_all]. rewrite fmap_cons.
  unfold synced at 1.
  destruct (container_running inspect (container_name q)) as [m|b] eqn:Hq.
  { destruct (Hends q); [by left|]. unfold raises, container_running in *.
    destruct (inspect (container_name q)); [done..|]. by eexists. }
  rewrite IH; [done|]. intros x ?. apply Hends. by right.
Qed.

Lemma synced_columns (inspect : string → run_result) (p : Proxy) :
  id (synced inspect p) = id p
  ∧ container_name (synced inspect p) = container_name p
  ∧ container_ip (synced inspect p) = container_ip p
  ∧ tor_exit_node (synced inspect p) = tor_exit_node p
  ∧ timestamp (synced inspect p) = timestamp p
  ∧ ∀ b, container_running inspect (container_name p) = inr b →
         running (synced inspect p) = b.
Proof.
  unfold synced, sync_running.
  destruct (container_running inspect (container_name p)) as [msg|b].
  - by split_and!.
  - case_bool_decide as Hne; split_and!; try done.
    + by intros ? [= <-].
    + by intros ? [= <-].
Qed.

Lemma synced_idemp (inspect : string → run_result) (p : Proxy) :
  synced inspect (synced inspect p) = synced inspect p.
Proof.
  destruct (synced_columns inspect p) as (_ & Hname & _ & _ & _ & Hrun).
  unfold synced at 1. rewrite Hname.
  destruct (container_running inspect (container_name p)) as [msg|b] eqn:Hp;
    [done|].
  unfold sync_running. by rewrite (Hrun b eq_refl), bool_decide_false by auto.
Qed.

End ProxyListFacts.

Section ProxyListClaims.
Import PyStr Routes TorProxy.

(** X23.  [GET /api/proxy-gen/list] goes through the rows in the order
    of the table and sets [running] of each to what [container_running]
    says now: true exactly when [docker inspect] of the container ends
    with status 0 and prints [true], in any case and with any white space
    around it.  No other column changes.  When [docker inspect] can be
    run for every row the answer is 200 with the rows as they now are,
    and listing again while the containers stay as they are changes
    nothing.  When it cannot be run for a row ([container_running]
    catches only [CalledProcessError]) the answer is 500 with the text of
    the exception; the rows in front of that row keep their new flags
    and that row and the rows behind it are as they were. *)
Theorem list_proxies_syncs_running (proxies : list Proxy)
    (inspect : string → run_result) :
  let result := list_proxies proxies inspect in
  ((∀ p, p ∈ proxies → ¬ raises inspect p) →
     result = (synced inspect <$> proxies,
               Answered 200 (synced inspect <$> proxies))
     ∧ list_proxies result.1 inspect = result)
  ∧ (∀ before p after msg,
       proxies = before ++ p :: after →
       (∀ q, q ∈ before → ¬ raises inspect q) →
       inspect (container_name p) = NotStarted msg →
       result = ((synced inspect <$> before) ++ p :: after,
                 Failed 500 ("Internal server error: " +:+ msg)))
  ∧ (∀ p,
       id (synced inspect p) = id p
       ∧ container_name (synced inspect p) = container_name p
       ∧ container_ip (synced inspect p) = container_ip p
       ∧ tor_exit_node (synced inspect p) = tor_exit_node p
       ∧ timestamp (synced inspect p) = timestamp p
       ∧ (¬ raises inspect p →
          (running (synced inspect p) = true
           ↔ ∃ out, inspect (container_name p) = Exit0 out
                    ∧ lower (strip out) = "true")))
  ∧ length result.1 = length proxies.
Proof.
  intros result. subst result. unfold list_proxies. split_and!.
  - intros Hends. rewrite (sync_all_ends inspect proxies Hends).
    split; [done|]. cbn [fst].
    rewrite sync_all_ends.
    + rewrite <- list_fmap_compose.
      rewrite (list_fmap_ext (synced inspect ∘ synced inspect)
                 (synced inspect) proxies); [done|].
      intros _ p _. apply synced_idemp.
    + intros p' (p & -> & Hp)%list_elem_of_fmap [msg Hmsg].
      destruct (synced_columns inspect p) as (_ & Hname & _).
      rewrite Hname in Hmsg. apply (Hends p Hp). by exists msg.
  - intros before p after msg -> Hends Hp.
    by rewrite (sync_all_raises inspect before p after msg Hends Hp).
  - intros p.
    destruct (synced_columns inspect p) as (? & ? & ? & ? & ? & Hrun).
    split_and!; [done..|]. intros Hp.
    unfold container_running in Hrun.
    destruct (inspect (container_name p)) as [out| |msg] eqn:Hinspect.
    + rewrite (Hrun _ eq_refl), bool_decide_eq_true.
      split; [eauto|]. by intros (? & [= <-] & ?).
    + rewrite (Hrun _ eq_refl). split; [done|]. by intros (? & [=] & _).
    + destruct Hp. by exists msg.
  - clear. induction proxies as [|p rest IH]; [done|].
    cbn [sync_all].
    destruct (container_running inspect (container_name p)); [done|].
    destruct (sync_all inspect rest) as [rest' raised].
    destruct raised; cbn [fst length] in *; by rewrite <- IH.
Qed.

End ProxyListClaims.

Section ProxyWitnesses.
Import PyStr Routes TorProxy.

Lemma delete_proxy_outcome_witness :
  NoDup (id <$> ProxyScenarios.one_proxy)
  ∧ (delete_proxy (λ status_code detail, pretty status_code +:+ ": " +:+ detail)
       ProxyScenarios.one_proxy [] "torproxy_abcdef" (λ _, Exit0 "")).1.1.1
    = []
  ∧ status_code_of
      (delete_proxy (λ status_code detail, pretty status_code +:+ ": " +:+ detail)
         ProxyScenarios.one_proxy [] "torproxy_zzzzzz" (λ _, Exit0 "")).1.2
    = 500
  ∧ (delete_proxy (λ status_code detail, pretty status_code +:+ ": " +:+ detail)
       ProxyScenarios.one_proxy [] "torproxy_abcdef"
       (λ _, NotStarted "[Errno 2] No such file or directory: 'sudo'")).1.1
    = (ProxyScenarios.one_proxy,
       [{| category := "error";
           text := "Failed to delete proxy: [Errno 2] No such file or directory: 'sudo'" |}]).
Proof.
  assert (NoDup (id <$> ProxyScenarios.one_proxy)) as Hids.
  { apply (bool_decide_unpack _). by vm_compute. }
  split; [exact Hids|]. split; [by vm_compute|]. split; [|by vm_compute].
  destruct (delete_proxy_outcome
              (λ status_code detail, pretty status_code +:+ ": " +:+ detail)
              ProxyScenarios.one_proxy [] "torproxy_zzzzzz" (λ _, Exit0 "")
              Hids)
    as (Hstatus & _).
  exact Hstatus.
Defined.

End ProxyWitnesses.
